(** * Ray-sphere intersection: Vector3 and Sphere

    A shallow embedding of the two classes of the repository,

      - [Vector3] (constructor, clone, negate, add, subtract, multiplyScalar,
        length, lengthSqr, normalize, dot, rescale, fromTo), and
      - [Sphere] (constructor, raycast),

    and the properties of them that the specification states.

    Numbers are JavaScript Numbers, that is IEEE 754 binary64 values: they are
    modelled by Rocq's primitive floats, whose operations are the binary64
    operations with rounding to nearest (ties to even), so every arithmetic
    expression of the source is evaluated here bit for bit.

    Where a property is about rounding errors, the Numbers are read as
    real numbers through the IEEE 754 definitions of the operations.

    Objects live in a store.  The methods of [Vector3] that assign to
    [this.x], [this.y] and [this.z] are modelled as writes to the store,
    field by field and in the order of the source, so that aliasing between
    the receiver and an argument is what it is in the program.

    The file has four parts: the definitions (the program, then the
    functions and predicates used to state its properties), the facts about
    them, the claims of the specification, C1 to C10, and further
    properties of the two classes, X1 to X18. *)

From Stdlib Require Import Floats Uint63 ZArith String List Bool Lia Reals Lra.
From stdpp Require Import base option list.

(** ** JavaScript numbers *)

Module JS.

(** [a > b] is [b < a]; both are false when an operand is NaN. *)
Definition gtb (a b : float) : bool := PrimFloat.ltb b a.

(** A Number that is neither NaN nor an infinity. *)
Definition is_finite (a : float) : bool :=
  negb (PrimFloat.is_nan a) && negb (PrimFloat.is_infinity a).

(** [Math.sqrt]: the square root of the Number, rounded to the nearest
    binary64 value; NaN below zero. *)
Definition Math_sqrt (a : float) : float := PrimFloat.sqrt a.

(** [Math.min] of two Numbers: NaN when an operand is NaN, and -0 is
    smaller than +0. *)
Definition Math_min (a b : float) : float :=
  if PrimFloat.is_nan a || PrimFloat.is_nan b then PrimFloat.nan
  else if PrimFloat.ltb a b then a
  else if PrimFloat.ltb b a then b
  else if PrimFloat.is_zero a && PrimFloat.get_sign a then a
  else b.

End JS.

(** ** Objects and the store *)

(** References are addresses in the store. *)
Abbreviation loc := nat.

(** The fields of a [Vector3] instance. *)
Record Vector3 := mkVector3 { x : float; y : float; z : float }.

(** A ray: [{origin, direction}], both references to [Vector3] objects. *)
Record Ray := mkRay { origin : loc; direction : loc }.

(** The fields of a [Sphere] instance. *)
Record Sphere := mkSphere { center : loc; radius : float }.

(** The record returned by [raycast]; [None] is [null]. *)
Record Result := mkResult {
  hit : bool;
  point : option loc;
  normal : option loc;
  distance : option float
}.

Inductive object :=
| OVector3 (v : Vector3)
| ORay (r : Ray)
| OSphere (s : Sphere)
| OResult (r : Result).

(** The store: the object at address [l] is the [l]-th element; [new]
    appends. *)
Abbreviation heap := (list object).

(** Computations read and write the store.  [None] stands for a run that
    leaves the typed model: a reference that is not in the store, or that
    holds an object of another class than the one the source expects. *)
Definition M (A : Type) : Type := heap -> option (A * heap).

Definition ret {A} (a : A) : M A := fun h => Some (a, h).

Definition bind {A B} (m : M A) (k : A -> M B) : M B :=
  fun h => match m h with
           | Some (a, h') => k a h'
           | None => None
           end.

Definition fail {A} : M A := fun _ => None.

Notation "'let*' v ':=' c 'in' k" := (bind c (fun v => k))
  (at level 10, v name, c at level 100, k at level 200).
Notation "'do' c 'in' k" := (bind c (fun _ => k))
  (at level 10, c at level 100, k at level 200).

Definition alloc (o : object) : M loc :=
  fun h => Some (length h, h ++ [o]).

Definition load (l : loc) : M object :=
  fun h => match h !! l with
           | Some o => Some (o, h)
           | None => None
           end.

Definition store (l : loc) (o : object) : M unit :=
  fun h => match h !! l with
           | Some _ => Some (tt, <[l := o]> h)
           | None => None
           end.

Definition load_Vector3 (l : loc) : M Vector3 :=
  let* o := load l in
  match o with OVector3 v => ret v | _ => fail end.

Definition load_Ray (l : loc) : M Ray :=
  let* o := load l in
  match o with ORay r => ret r | _ => fail end.

Definition load_Sphere (l : loc) : M Sphere :=
  let* o := load l in
  match o with OSphere s => ret s | _ => fail end.

Definition load_Result (l : loc) : M Result :=
  let* o := load l in
  match o with OResult r => ret r | _ => fail end.

(** Reading and assigning one field of a [Vector3] object. *)
Definition get_x (l : loc) : M float := let* v := load_Vector3 l in ret (x v).
Definition get_y (l : loc) : M float := let* v := load_Vector3 l in ret (y v).
Definition get_z (l : loc) : M float := let* v := load_Vector3 l in ret (z v).

Definition set_x (l : loc) (a : float) : M unit :=
  let* v := load_Vector3 l in store l (OVector3 (mkVector3 a (y v) (z v))).
Definition set_y (l : loc) (a : float) : M unit :=
  let* v := load_Vector3 l in store l (OVector3 (mkVector3 (x v) a (z v))).
Definition set_z (l : loc) (a : float) : M unit :=
  let* v := load_Vector3 l in store l (OVector3 (mkVector3 (x v) (y v) a)).

(** ** Vector3 *)

Module Vector3.

(** [new Vector3(x, y, z)] *)
Definition new (a b c : float) : M loc := alloc (OVector3 (mkVector3 a b c)).

(** [clone() { return new Vector3(this.x, this.y, this.z); }] *)
Definition clone (this : loc) : M loc :=
  let* a := get_x this in
  let* b := get_y this in
  let* c := get_z this in
  new a b c.

(** [negate()]: each field is multiplied by -1, in place. *)
Definition negate (this : loc) : M loc :=
  let* a := get_x this in do set_x this (a * -1)%float in
  let* b := get_y this in do set_y this (b * -1)%float in
  let* c := get_z this in do set_z this (c * -1)%float in
  ret this.

(** [add(v)]: [this.x = this.x + v.x; ...], in place. *)
Definition add (this v : loc) : M loc :=
  let* a := get_x this in let* a' := get_x v in do set_x this (a + a')%float in
  let* b := get_y this in let* b' := get_y v in do set_y this (b + b')%float in
  let* c := get_z this in let* c' := get_z v in do set_z this (c + c')%float in
  ret this.

(** [subtract(v)]: [this.x -= v.x; ...], in place. *)
Definition subtract (this v : loc) : M loc :=
  let* a := get_x this in let* a' := get_x v in do set_x this (a - a')%float in
  let* b := get_y this in let* b' := get_y v in do set_y this (b - b')%float in
  let* c := get_z this in let* c' := get_z v in do set_z this (c - c')%float in
  ret this.

(** [multiplyScalar(scalar)], in place. *)
Definition multiplyScalar (this : loc) (scalar : float) : M loc :=
  let* a := get_x this in do set_x this (a * scalar)%float in
  let* b := get_y this in do set_y this (b * scalar)%float in
  let* c := get_z this in do set_z this (c * scalar)%float in
  ret this.

(** [lengthSqr()]: [let length = 0; length += this.x * this.x; ...]. *)
Definition lengthSqr (this : loc) : M float :=
  let length := 0%float in
  let* a := get_x this in let length := (length + a * a)%float in
  let* b := get_y this in let length := (length + b * b)%float in
  let* c := get_z this in let length := (length + c * c)%float in
  ret length.

(** [length()]: the same sum, then [Math.sqrt]. *)
Definition length (this : loc) : M float :=
  let length := 0%float in
  let* a := get_x this in let length := (length + a * a)%float in
  let* b := get_y this in let length := (length + b * b)%float in
  let* c := get_z this in let length := (length + c * c)%float in
  let length := JS.Math_sqrt length in
  ret length.

(** [normalize()]: the squares of the fields are taken first; when
    [this.length() > 0] each field becomes the square root of its square
    divided by the squared length. *)
Definition normalize (this : loc) : M loc :=
  let* lengthSqr := lengthSqr this in
  let* a := get_x this in let ogXSquared := (a * a)%float in
  let* b := get_y this in let ogYSquared := (b * b)%float in
  let* c := get_z this in let ogZSquared := (c * c)%float in
  let* len := length this in
  if JS.gtb len 0 then
    do set_x this (JS.Math_sqrt (ogXSquared / lengthSqr)) in
    do set_y this (JS.Math_sqrt (ogYSquared / lengthSqr)) in
    do set_z this (JS.Math_sqrt (ogZSquared / lengthSqr)) in
    ret this
  else ret this.

(** [dot(other)]: [let dot = 0; dot += this.x * other.x; ...]. *)
Definition dot (this other : loc) : M float :=
  let dot := 0%float in
  let* a := get_x this in let* a' := get_x other in
  let dot := (dot + a * a')%float in
  let* b := get_y this in let* b' := get_y other in
  let dot := (dot + b * b')%float in
  let* c := get_z this in let* c' := get_z other in
  let dot := (dot + c * c')%float in
  ret dot.

(** [rescale(newScale)] *)
Definition rescale (this : loc) (newScale : float) : M loc :=
  let* len := length this in
  if JS.gtb len 0 then
    do normalize this in
    do multiplyScalar this newScale in
    ret this
  else ret this.

(** [static fromTo(fromPoint, toPoint)]: a new vector (the constructor's
    defaults make it [(0, 0, 0)]) whose fields are then assigned
    [toPoint - fromPoint].  The [instanceof] test of the source only
    writes to the console. *)
Definition fromTo (fromPoint toPoint : loc) : M loc :=
  let* result := new 0 0 0 in
  let* a := get_x toPoint in let* a' := get_x fromPoint in
  do set_x result (a - a')%float in
  let* b := get_y toPoint in let* b' := get_y fromPoint in
  do set_y result (b - b')%float in
  let* c := get_z toPoint in let* c' := get_z fromPoint in
  do set_z result (c - c')%float in
  ret result.

(** [set(x, y, z)] *)
Definition set (this : loc) (a b c : float) : M loc :=
  do set_x this a in
  do set_y this b in
  do set_z this c in
  ret this.

(** [copy(other)]: [this.x = other.x; this.y = other.y; this.z = other.z]. *)
Definition copy (this other : loc) : M loc :=
  let* a := get_x other in do set_x this a in
  let* b := get_y other in do set_y this b in
  let* c := get_z other in do set_z this c in
  ret this.

(** [Math.PI], the binary64 value nearest to pi. *)
Definition Math_PI : float := 0x1.921fb54442d18p+1%float.

Section Angle.

(** [Math.acos], which the language leaves to the implementation. *)
Variable Math_acos : float -> float.

(** [static angle(v1, v2)]: the angle in degrees, and 0 when the product of
    the lengths is not above zero. *)
Definition angle (v1 v2 : loc) : M float :=
  let* dot := dot v1 v2 in
  let* len1 := length v1 in
  let* len2 := length v2 in
  let lengths := (len1 * len2)%float in
  if JS.gtb lengths 0 then
    let cosAngle := (dot / lengths)%float in
    let angleInRadians := Math_acos cosAngle in
    let angleInDegrees := (angleInRadians * (180 / Math_PI))%float in
    ret angleInDegrees
  else ret 0%float.

End Angle.

(** [static project(vectorToProject, otherVector)]: a clone of
    [otherVector] scaled by the dot product over the squared length, and a
    new zero vector when the squared length is not above zero. *)
Definition project (vectorToProject otherVector : loc) : M loc :=
  let* otherLengthSqr := lengthSqr otherVector in
  if JS.gtb otherLengthSqr 0 then
    let* d := dot vectorToProject otherVector in
    let scale := (d / otherLengthSqr)%float in
    let* result := clone otherVector in
    do multiplyScalar result scale in
    ret result
  else new 0 0 0.

End Vector3.

(** ** Sphere.raycast *)

Module Sphere.

(** Property reads [ray.origin], [ray.direction], [this.center] and
    [this.radius]. *)
Definition get_origin (ray : loc) : M loc :=
  let* r := load_Ray ray in ret (origin r).
Definition get_direction (ray : loc) : M loc :=
  let* r := load_Ray ray in ret (direction r).
Definition get_center (this : loc) : M loc :=
  let* s := load_Sphere this in ret (center s).
Definition get_radius (this : loc) : M float :=
  let* s := load_Sphere this in ret (radius s).

(** Assignments to the fields of the result record. *)
Definition set_hit (l : loc) (b : bool) : M unit :=
  let* r := load_Result l in
  store l (OResult (mkResult b (point r) (normal r) (distance r))).
Definition set_point (l : loc) (p : option loc) : M unit :=
  let* r := load_Result l in
  store l (OResult (mkResult (hit r) p (normal r) (distance r))).
Definition set_normal (l : loc) (n : option loc) : M unit :=
  let* r := load_Result l in
  store l (OResult (mkResult (hit r) (point r) n (distance r))).
Definition set_distance (l : loc) (d : option float) : M unit :=
  let* r := load_Result l in
  store l (OResult (mkResult (hit r) (point r) (normal r) d)).

(** The record [raycast] starts from: [{hit: false, point: null,
    normal: null, distance: null}]. *)
Definition no_hit : Result := mkResult false None None None.

(** [discriminant = b * b - 4 * a * c] *)
Definition discriminant (a b c : float) : float := (b * b - 4 * a * c)%float.

(** The two candidate parameters, [(-b - sqrt) / (2.0 * a)] and
    [(-b + sqrt) / (2.0 * a)]. *)
Definition root1 (a b discriminant : float) : float :=
  ((- b - JS.Math_sqrt discriminant) / (2 * a))%float.
Definition root2 (a b discriminant : float) : float :=
  ((- b + JS.Math_sqrt discriminant) / (2 * a))%float.

(** [let t = null; if (t1 > 0 && t2 > 0) t = Math.min(t1, t2);
    else if (t1 > 0) t = t1; else if (t2 > 0) t = t2;] *)
Definition select_t (t1 t2 : float) : option float :=
  if JS.gtb t1 0 && JS.gtb t2 0 then Some (JS.Math_min t1 t2)
  else if JS.gtb t1 0 then Some t1
  else if JS.gtb t2 0 then Some t2
  else None.

(** [normal.length <= 0] compares the method [length] itself, not the
    result of a call, with 0.  A function operand of a relational
    operator is converted to a primitive, which is the text of its source,
    and that string to a Number; the text of a method definition is not a
    numeric literal, so the Number is NaN. *)
Definition ToNumber_method_length : float := PrimFloat.nan.
Definition normal_length_le_0 : bool :=
  PrimFloat.leb ToNumber_method_length 0.

Definition raycast (this ray : loc) : M loc :=
  let* result := alloc (OResult no_hit) in
  let* ray_origin := get_origin ray in
  let* this_center := get_center this in
  let* originToCenter := Vector3.fromTo ray_origin this_center in
  let* cl := Vector3.clone originToCenter in
  let* centerToOrigin := Vector3.negate cl in
  let* ray_direction := get_direction ray in
  let* ray_direction' := get_direction ray in
  let* a := Vector3.dot ray_direction ray_direction' in
  let* ray_direction := get_direction ray in
  let* d := Vector3.dot centerToOrigin ray_direction in
  let b := (2 * d)%float in
  let* cc := Vector3.dot centerToOrigin centerToOrigin in
  let* r := get_radius this in
  let* r' := get_radius this in
  let c := (cc - r * r')%float in
  let discriminant := discriminant a b c in
  if PrimFloat.ltb discriminant 0 then ret result
  else
    let t1 := root1 a b discriminant in
    let t2 := root2 a b discriminant in
    match select_t t1 t2 with
    | Some t =>
        let* ray_origin := get_origin ray in
        let* oc := Vector3.clone ray_origin in
        let* ray_direction := get_direction ray in
        let* dc := Vector3.clone ray_direction in
        let* scaled := Vector3.multiplyScalar dc t in
        let* intersectionPoint := Vector3.add oc scaled in
        let* this_center := get_center this in
        let* n := Vector3.fromTo this_center intersectionPoint in
        let* normal := Vector3.normalize n in
        let distance := t in
        if PrimFloat.ltb distance 0 then ret result
        else
          let* len := Vector3.length originToCenter in
          let* r := get_radius this in
          if PrimFloat.ltb len r then ret result
          else if normal_length_le_0 then ret result
          else
            do set_hit result true in
            do set_point result (Some intersectionPoint) in
            do set_normal result (Some normal) in
            do set_distance result (Some t) in
            ret result
    | None => ret result
    end.

(** What a caller sees of a returned record: the flag, the two vectors
    behind the references, and the distance. *)
Record outcome := mkOutcome {
  o_hit : bool;
  o_point : option Vector3;
  o_normal : option Vector3;
  o_distance : option float
}.

Definition deref_Vector3 (h : heap) (l : option loc) : option Vector3 :=
  match l with
  | Some l => match h !! l with Some (OVector3 v) => Some v | _ => None end
  | None => None
  end.

Definition observe (h : heap) (res : loc) : option outcome :=
  match h !! res with
  | Some (OResult r) =>
      Some (mkOutcome (hit r) (deref_Vector3 h (point r))
                      (deref_Vector3 h (normal r)) (distance r))
  | _ => None
  end.

(** A store holding one sphere and one ray, each with vectors of its own:
    address 0 is the centre, 1 the sphere, 2 the origin, 3 the direction,
    4 the ray. *)
Definition scene (C : Vector3) (r : float) (O D : Vector3) : heap :=
  [OVector3 C; OSphere (mkSphere 0 r); OVector3 O; OVector3 D;
   ORay (mkRay 2 3)].

(** [new Sphere(C, r).raycast({origin: O, direction: D})] on that store. *)
Definition raycast_scene (C : Vector3) (r : float) (O D : Vector3)
  : option outcome :=
  match raycast 1 4 (scene C r O D) with
  | Some (res, h) => observe h res
  | None => None
  end.

End Sphere.

(** ** The methods of Vector3 as functions on field values

    What each method computes from the fields of its receiver and argument;
    the lemmas of the next section relate the methods to them. *)

Module Fields.

Definition negated (v : Vector3) : Vector3 :=
  mkVector3 (x v * -1)%float (y v * -1)%float (z v * -1)%float.

Definition sum (v w : Vector3) : Vector3 :=
  mkVector3 (x v + x w)%float (y v + y w)%float (z v + z w)%float.

Definition difference (v w : Vector3) : Vector3 :=
  mkVector3 (x v - x w)%float (y v - y w)%float (z v - z w)%float.

Definition scaled (v : Vector3) (s : float) : Vector3 :=
  mkVector3 (x v * s)%float (y v * s)%float (z v * s)%float.

Definition lengthSqr (v : Vector3) : float :=
  (0 + x v * x v + y v * y v + z v * z v)%float.

Definition length (v : Vector3) : float := JS.Math_sqrt (lengthSqr v).

Definition dot (v w : Vector3) : float :=
  (0 + x v * x w + y v * y w + z v * z w)%float.

Definition normalized (v : Vector3) : Vector3 :=
  if JS.gtb (length v) 0 then
    mkVector3 (JS.Math_sqrt (x v * x v / lengthSqr v))
              (JS.Math_sqrt (y v * y v / lengthSqr v))
              (JS.Math_sqrt (z v * z v / lengthSqr v))
  else v.

Definition rescaled (v : Vector3) (s : float) : Vector3 :=
  if JS.gtb (length v) 0 then scaled (normalized v) s else v.

Definition projected (v onto : Vector3) : Vector3 :=
  if JS.gtb (lengthSqr onto) 0 then
    scaled onto (dot v onto / lengthSqr onto)%float
  else mkVector3 0 0 0.

End Fields.

(** ** raycast as a function of the field values

    The quantities that [raycast] computes, in terms of the centre [C] and
    radius [r] of the sphere and the origin [O] and direction [D] of the
    ray; [raycast_run] below proves that the method computes exactly
    these. *)

Module Quantities.
Section Quantities.

Variables (C : Vector3) (r : float) (O D : Vector3).

Definition originToCenter : Vector3 := Fields.difference C O.
Definition centerToOrigin : Vector3 := Fields.negated originToCenter.
Definition a : float := Fields.dot D D.
Definition b : float := (2 * Fields.dot centerToOrigin D)%float.
Definition c : float :=
  (Fields.dot centerToOrigin centerToOrigin - r * r)%float.
Definition discriminant : float := Sphere.discriminant a b c.
Definition t1 : float := Sphere.root1 a b discriminant.
Definition t2 : float := Sphere.root2 a b discriminant.

(** The parameter chosen by [raycast], [None] when it returns before
    choosing or chooses none. *)
Definition selected : option float :=
  if PrimFloat.ltb discriminant 0 then None else Sphere.select_t t1 t2.

Definition intersectionPoint (t : float) : Vector3 :=
  Fields.sum O (Fields.scaled D t).
Definition normal (t : float) : Vector3 :=
  Fields.normalized (Fields.difference (intersectionPoint t) C).

(** The origin of the ray is inside the sphere, as [raycast] tests it. *)
Definition origin_inside : bool :=
  PrimFloat.ltb (Fields.length originToCenter) r.

(** The three tests between the choice of [t] and the assignments to the
    result. *)
Definition rejected (t : float) : bool :=
  PrimFloat.ltb t 0 || origin_inside || Sphere.normal_length_le_0.

(** The objects that a call allocates, in order, when the store has [n]
    objects before it: the result record, [originToCenter], its negated
    clone, and, when a parameter is chosen, the clone of the origin (which
    becomes the intersection point), the scaled clone of the direction,
    and the normal. *)
Definition allocated (n : nat) : list object :=
  match selected with
  | None =>
      [OResult Sphere.no_hit; OVector3 originToCenter;
       OVector3 centerToOrigin]
  | Some t =>
      [OResult (if rejected t then Sphere.no_hit
                else mkResult true (Some (n + 3)) (Some (n + 5)) (Some t));
       OVector3 originToCenter; OVector3 centerToOrigin;
       OVector3 (intersectionPoint t); OVector3 (Fields.scaled D t);
       OVector3 (normal t)]
  end.

(** The caller's view of the record. *)
Definition outcome : Sphere.outcome :=
  match selected with
  | None => Sphere.mkOutcome false None None None
  | Some t =>
      if rejected t then Sphere.mkOutcome false None None None
      else Sphere.mkOutcome true (Some (intersectionPoint t))
                            (Some (normal t)) (Some t)
  end.

End Quantities.
End Quantities.

(** A store in which [this] is a sphere with centre [C] and radius [r] and
    [ray] a ray with origin [O] and direction [D].  Nothing is assumed about
    sharing: the origin, the direction and the centre may be one object. *)
Record well_formed (h : heap) (this ray : loc)
                   (C : Vector3) (r : float) (O D : Vector3) : Prop := {
  wf_sphere : exists s, h !! this = Some (OSphere s) /\ radius s = r
                        /\ h !! center s = Some (OVector3 C);
  wf_ray : exists q, h !! ray = Some (ORay q)
                     /\ h !! origin q = Some (OVector3 O)
                     /\ h !! direction q = Some (OVector3 D)
}.

(** ** Sphere.constructor

    The constructor is written for arguments of any type: it tests
    [center instanceof Vector3], [typeof radius] and whether the fields of
    the centre are [undefined] or [null].  Its arguments are therefore
    modelled as JavaScript values: the seven kinds of primitive values
    ([undefined], [null], booleans, Numbers, strings, BigInts and Symbols),
    instances of [Vector3] whose fields hold primitive values, and
    [OtherObject], an object that is not an instance of [Vector3].

    The one step that can throw is the conversion to a Number inside
    [isNaN]: it throws a TypeError on a BigInt and on a Symbol.  An
    expression therefore evaluates to a [completion]: a value, or the
    TypeError. *)

Module Value.

Inductive prim :=
| Undefined
| Null
| Boolean (b : bool)
| Number (n : float)
| String (s : string)
| BigInt (i : Z)
| Symbol (id : nat).

Inductive value :=
| Prim (p : prim)
| Vector3Instance (vx vy vz : prim)
| OtherObject.

(** [typeof v] *)
Definition typeof (v : value) : string :=
  match v with
  | Prim Undefined => "undefined"
  | Prim Null => "object"
  | Prim (Boolean _) => "boolean"
  | Prim (Number _) => "number"
  | Prim (String _) => "string"
  | Prim (BigInt _) => "bigint"
  | Prim (Symbol _) => "symbol"
  | Vector3Instance _ _ _ => "object"
  | OtherObject => "object"
  end.

(** [v instanceof Vector3] *)
Definition instanceof_Vector3 (v : value) : bool :=
  match v with
  | Vector3Instance _ _ _ => true
  | _ => false
  end.

(** [a === b] on primitives: the same type and the same value; on Numbers
    the IEEE equality (NaN differs from itself, the two zeros are equal);
    a Symbol is equal to itself only. *)
Definition strict_eq (a b : prim) : bool :=
  match a, b with
  | Undefined, Undefined => true
  | Null, Null => true
  | Boolean p, Boolean q => Bool.eqb p q
  | Number m, Number n => PrimFloat.eqb m n
  | String s, String t => String.eqb s t
  | BigInt i, BigInt j => Z.eqb i j
  | Symbol i, Symbol j => Nat.eqb i j
  | _, _ => false
  end.

(** The outcome of an expression: a value, or a thrown TypeError. *)
Inductive completion (A : Type) : Type :=
| Normal (a : A)
| TypeError.
Arguments Normal {A} a.
Arguments TypeError {A}.

Definition bind {A B : Type} (c : completion A) (k : A -> completion B)
  : completion B :=
  match c with
  | Normal a => k a
  | TypeError => TypeError
  end.

Notation "'let!' v ':=' c 'in' k" := (bind c (fun v => k))
  (at level 10, v pattern, c at level 100, k at level 200).

(** [!a] *)
Definition lnot (a : completion bool) : completion bool :=
  bind a (fun b => Normal (negb b)).

(** [a || b] and [a && b]: the right operand is evaluated only when the
    left one does not decide, so what it throws is thrown only then. *)
Definition or_else (a b : completion bool) : completion bool :=
  bind a (fun p => if p then Normal true else b).
Definition and_then (a b : completion bool) : completion bool :=
  bind a (fun p => if p then b else Normal false).

Section Conversion.

(** The Number that a string converts to (the grammar of numeric string
    literals); the constructor applies it only inside [isNaN]. *)
Variable StringToNumber : string -> float.

(** The conversion of a primitive to a Number; a BigInt and a Symbol have
    none. *)
Definition ToNumber (p : prim) : completion float :=
  match p with
  | Undefined => Normal PrimFloat.nan
  | Null => Normal 0%float
  | Boolean true => Normal 1%float
  | Boolean false => Normal 0%float
  | Number n => Normal n
  | String s => Normal (StringToNumber s)
  | BigInt _ => TypeError
  | Symbol _ => TypeError
  end.

(** The global [isNaN]: its argument is converted to a Number first.  A
    [Vector3] instance or a plain object converts through the string
    ["[object Object]"], that is to NaN. *)
Definition isNaN (v : value) : completion bool :=
  match v with
  | Prim p => bind (ToNumber p) (fun n => Normal (PrimFloat.is_nan n))
  | Vector3Instance _ _ _ => Normal true
  | OtherObject => Normal true
  end.

End Conversion.

(** Property reads [v.x], [v.y], [v.z]; a value without the field gives
    [undefined]. *)
Definition field_x (v : value) : prim :=
  match v with Vector3Instance a _ _ => a | _ => Undefined end.
Definition field_y (v : value) : prim :=
  match v with Vector3Instance _ b _ => b | _ => Undefined end.
Definition field_z (v : value) : prim :=
  match v with Vector3Instance _ _ c => c | _ => Undefined end.

(** [new Vector3(a, b, c)], with [constructor(x = 0, y = 0, z = 0)]: a
    parameter takes its default when the argument is [undefined]. *)
Definition default_0 (p : prim) : prim :=
  match p with Undefined => Number 0 | _ => p end.
Definition new_Vector3 (a b c : prim) : value :=
  Vector3Instance (default_0 a) (default_0 b) (default_0 c).

(** [clone() { return new Vector3(this.x, this.y, this.z); }] *)
Definition clone (this : value) : value :=
  new_Vector3 (field_x this) (field_y this) (field_z this).

Definition zero_vector : value :=
  new_Vector3 (Number 0) (Number 0) (Number 0).

End Value.

Module Constructor.
Import Value.

(** A [Sphere] instance as the constructor leaves it, with the warnings it
    wrote to the console. *)
Record instance := mkInstance {
  center : value;
  radius : value;
  warnings : list string
}.

Section Constructor.

Variable StringToNumber : string -> float.

(** [test(v.x) || test(v.y) || test(v.z)] for a test that cannot throw. *)
Definition any_field (test : prim -> bool) (v : value) : bool :=
  test (field_x v) || test (field_y v) || test (field_z v).

(** [isNaN(v.x) || isNaN(v.y) || isNaN(v.z)] *)
Definition any_field_isNaN (v : value) : completion bool :=
  or_else (or_else (isNaN StringToNumber (Prim (field_x v)))
                   (isNaN StringToNumber (Prim (field_y v))))
          (isNaN StringToNumber (Prim (field_z v))).

Definition constructor (center radius : value) : completion instance :=
  let this_center :=
    if instanceof_Vector3 center then clone center
    else new_Vector3 (Number 0) (Number 0) (Number 0) in
  let! radius_ok :=
    and_then (Normal (String.eqb (typeof radius) "number"))
             (lnot (isNaN StringToNumber radius)) in
  let this_radius := if radius_ok then radius else Prim (Number 1) in
  let! (this_center, log) :=
    if negb (instanceof_Vector3 this_center) then
      Normal (new_Vector3 (Number 0) (Number 0) (Number 0),
              ["Invalid center provided. Setting to default zero vector."%string])
    else
      let! nan_field := any_field_isNaN this_center in
      Normal
        (if nan_field then
           (new_Vector3 (Number 0) (Number 0) (Number 0),
            ["Invalid center components provided. Setting to default zero vector."%string])
         else if any_field (fun p => strict_eq p Undefined) this_center then
           (new_Vector3 (Number 0) (Number 0) (Number 0),
            ["Center vector is missing components. Setting to default zero vector."%string])
         else if any_field (fun p => strict_eq p Null) this_center then
           (new_Vector3 (Number 0) (Number 0) (Number 0),
            ["Center vector components cannot be null. Setting to default zero vector."%string])
         else if any_field (fun p => strict_eq p (Number PrimFloat.infinity)) this_center then
           (new_Vector3 (Number 0) (Number 0) (Number 0),
            ["Center vector components cannot be infinite. Setting to default zero vector."%string])
         else if any_field (fun p => strict_eq p (Number PrimFloat.neg_infinity)) this_center then
           (new_Vector3 (Number 0) (Number 0) (Number 0),
            ["Center vector components cannot be negative infinite. Setting to default zero vector."%string])
         else (this_center, [])) in
  let! radius_bad :=
    or_else (Normal (negb (String.eqb (typeof this_radius) "number")))
            (isNaN StringToNumber this_radius) in
  let '(this_radius, log) :=
    if radius_bad
    then (Prim (Number 1),
          log ++ ["Invalid radius provided. Setting to default value of 1."%string])
    else (this_radius, log) in
  Normal (mkInstance this_center this_radius log).

End Constructor.
End Constructor.

(** ** Predicates and expressions of the specification *)

Module Spec.

(** "Choose the smallest strictly-positive root": the chosen value is one of
    the two roots, is above zero, and no root above zero is below it; no
    value is chosen exactly when neither root is above zero. *)
Definition smallest_positive_root (t1 t2 : float) (chosen : option float)
  : Prop :=
  match chosen with
  | Some t =>
      (t = t1 \/ t = t2)
      /\ PrimFloat.ltb 0 t = true
      /\ (PrimFloat.ltb 0 t1 = true -> PrimFloat.leb t t1 = true)
      /\ (PrimFloat.ltb 0 t2 = true -> PrimFloat.leb t t2 = true)
  | None => PrimFloat.ltb 0 t1 = false /\ PrimFloat.ltb 0 t2 = false
  end.

(** A field that [isNaN] throws on: a BigInt or a Symbol. *)
Definition unconvertible (f : Value.prim) : bool :=
  match f with
  | Value.BigInt _ | Value.Symbol _ => true
  | _ => false
  end.

(** A field that converts to NaN. *)
Definition converts_to_NaN (StringToNumber : string -> float)
    (f : Value.prim) : bool :=
  match Value.isNaN StringToNumber (Value.Prim f) with
  | Value.Normal b => b
  | Value.TypeError => false
  end.

(** A field that the constructor refuses: it converts to NaN, or is
    [undefined], [null], [Infinity] or [-Infinity]. *)
Definition refuses (StringToNumber : string -> float) (f : Value.prim)
  : bool :=
  converts_to_NaN StringToNumber f
  || Value.strict_eq f Value.Undefined
  || Value.strict_eq f Value.Null
  || Value.strict_eq f (Value.Number PrimFloat.infinity)
  || Value.strict_eq f (Value.Number PrimFloat.neg_infinity).

(** The test [isNaN(x) || isNaN(y) || isNaN(z)] reaches a field that
    [isNaN] throws on: the fields before it do not convert to NaN. *)
Definition reaches_unconvertible (StringToNumber : string -> float)
    (a b c : Value.prim) : bool :=
  unconvertible a
  || negb (converts_to_NaN StringToNumber a)
     && (unconvertible b
         || negb (converts_to_NaN StringToNumber b) && unconvertible c).

(** [v.clone().normalize().length()] *)
Definition clone_normalize_length (v : loc) : M float :=
  let* c := Vector3.clone v in
  let* n := Vector3.normalize c in
  Vector3.length n.

(** A Number that is finite and above zero. *)
Definition finite_positive (a : float) : bool :=
  PrimFloat.ltb 0 a && PrimFloat.ltb a PrimFloat.infinity.

(** Within [2^-50] of 1: [1 - 2^-50 <= a <= 1 + 2^-50]. *)
Definition within_1 (a : float) : bool :=
  PrimFloat.leb (1 - 0x1p-50) a && PrimFloat.leb a (1 + 0x1p-50).

(** A Number that is a zero, of either sign, or NaN. *)
Definition zero_or_nan (a : float) : Prop :=
  Prim2SF a = S754_nan \/ exists s, Prim2SF a = S754_zero s.

(** A vector with a NaN field. *)
Definition has_nan (v : Vector3) : Prop :=
  PrimFloat.is_nan (x v) = true \/ PrimFloat.is_nan (y v) = true
  \/ PrimFloat.is_nan (z v) = true.

(** An in-place method: the store keeps its size, every object other than
    the receiver is as it was, and the receiver is still a [Vector3]. *)
Definition only_receiver_changed (h h' : heap) (this : loc) : Prop :=
  length h' = length h
  /\ (forall k, k <> this -> h' !! k = h !! k)
  /\ exists v', h' !! this = Some (OVector3 v').

(** An allocating method: the store before the call is a prefix of the
    store after it, and the result is the one new object. *)
Definition allocates (h h' : heap) (res : loc) (v : Vector3) : Prop :=
  h' = h ++ [OVector3 v] /\ res = length h.

End Spec.

(** ** Binary64 numbers as real numbers

    The meaning of a Number as a real number, and what it is for the
    mantissa, exponent and location that an operation of binary64 computes
    to stand for a real number; they serve to bound the rounding errors of
    [normalize] and [length]. *)

Module Binary64.

(** [2^e], for an integer [e] of either sign. *)
Definition bpow (e : Z) : R := powerRZ 2 e.

(** The real number that a finite number is; 0 for the others. *)
Definition SF2R (a : spec_float) : R :=
  match a with
  | S754_finite s m e =>
      ((if s then - IZR (Z.pos m) else IZR (Z.pos m)) * bpow e)%R
  | _ => 0%R
  end.

Definition F2R (a : float) : R := SF2R (Prim2SF a).

(** The real number [y] lies where the mantissa [m] and the location [l]
    say: at [m], between [m] and [m + 1/2], at [m + 1/2], or between
    [m + 1/2] and [m + 1]. *)
Definition located (y : R) (m : Z) (l : location) : Prop :=
  match l with
  | loc_Exact => y = IZR m
  | loc_Inexact Lt => (IZR m < y < IZR m + / 2)%R
  | loc_Inexact Eq => y = (IZR m + / 2)%R
  | loc_Inexact Gt => (IZR m + / 2 < y < IZR m + 1)%R
  end.

Definition located_record (y : R) (mrs : shr_record) : Prop :=
  (0 <= shr_m mrs)%Z /\ located y (shr_m mrs) (loc_of_shr_record mrs).

(** A zero or a finite number with the sign bit clear. *)
Definition nonneg_finite (a : spec_float) : Prop :=
  a = S754_zero false \/ exists m e, a = S754_finite false m e.

(** [f] is the number [x >= 0] rounded to binary64: it is infinite only
    when [x] is huge, and otherwise within [2^-53 x] of [x], or within
    [2^-1075] when [x] is below the normal range. *)
Definition rounded (x : R) (f : spec_float) : Prop :=
  f = S754_infinity false /\ (bpow 971 <= x)%R
  \/ nonneg_finite f
     /\ ((Rabs (SF2R f - x) <= bpow (-53) * x)%R
         \/ (Rabs (SF2R f - x) <= bpow (-1075))%R /\ (x < bpow (-1022))%R).

(** A Number that is zero or finite, with the sign bit clear. *)
Definition nonneg (a : float) : Prop := nonneg_finite (Prim2SF a).

(** What a sum of squares can be: NaN, Infinity, or a Number that is not
    negative. *)
Definition square_like (a : float) : Prop :=
  Prim2SF a = S754_nan \/ Prim2SF a = S754_infinity false \/ nonneg a.

End Binary64.

(** * Proofs *)

(** ** The store: basic facts *)

Lemma bind_Some {A B} (m : M A) (k : A -> M B) (h h' : heap) (a : A) :
  m h = Some (a, h') -> bind m k h = k a h'.
Proof. intros E. unfold bind. rewrite E. reflexivity. Qed.

Lemma load_Vector3_Some (h : heap) (l : loc) (v : Vector3) :
  h !! l = Some (OVector3 v) -> load_Vector3 l h = Some (v, h).
Proof. intros E. unfold load_Vector3, load, bind. rewrite E. reflexivity. Qed.

Lemma get_x_Some (h : heap) (l : loc) (v : Vector3) :
  h !! l = Some (OVector3 v) -> get_x l h = Some (x v, h).
Proof.
  intros E. unfold get_x. rewrite (bind_Some _ _ _ _ _ (load_Vector3_Some _ _ _ E)).
  reflexivity.
Qed.

Lemma get_y_Some (h : heap) (l : loc) (v : Vector3) :
  h !! l = Some (OVector3 v) -> get_y l h = Some (y v, h).
Proof.
  intros E. unfold get_y. rewrite (bind_Some _ _ _ _ _ (load_Vector3_Some _ _ _ E)).
  reflexivity.
Qed.

Lemma get_z_Some (h : heap) (l : loc) (v : Vector3) :
  h !! l = Some (OVector3 v) -> get_z l h = Some (z v, h).
Proof.
  intros E. unfold get_z. rewrite (bind_Some _ _ _ _ _ (load_Vector3_Some _ _ _ E)).
  reflexivity.
Qed.

Lemma store_Some (h : heap) (l : loc) (o o' : object) :
  h !! l = Some o -> store l o' h = Some (tt, <[l := o']> h).
Proof. intros E. unfold store. rewrite E. reflexivity. Qed.

Lemma set_x_Some (h : heap) (l : loc) (v : Vector3) (a : float) :
  h !! l = Some (OVector3 v) ->
  set_x l a h = Some (tt, <[l := OVector3 (mkVector3 a (y v) (z v))]> h).
Proof.
  intros E. unfold set_x. rewrite (bind_Some _ _ _ _ _ (load_Vector3_Some _ _ _ E)).
  apply (store_Some _ _ _ _ E).
Qed.

Lemma set_y_Some (h : heap) (l : loc) (v : Vector3) (a : float) :
  h !! l = Some (OVector3 v) ->
  set_y l a h = Some (tt, <[l := OVector3 (mkVector3 (x v) a (z v))]> h).
Proof.
  intros E. unfold set_y. rewrite (bind_Some _ _ _ _ _ (load_Vector3_Some _ _ _ E)).
  apply (store_Some _ _ _ _ E).
Qed.

Lemma set_z_Some (h : heap) (l : loc) (v : Vector3) (a : float) :
  h !! l = Some (OVector3 v) ->
  set_z l a h = Some (tt, <[l := OVector3 (mkVector3 (x v) (y v) a)]> h).
Proof.
  intros E. unfold set_z. rewrite (bind_Some _ _ _ _ _ (load_Vector3_Some _ _ _ E)).
  apply (store_Some _ _ _ _ E).
Qed.

(** After a write the receiver holds what was written, and every other
    address what it held. *)
Lemma lookup_written (h : heap) (l : loc) (o o' : object) :
  h !! l = Some o -> <[l := o']> h !! l = Some o'.
Proof. intros E. apply list_lookup_insert_eq. eapply lookup_lt_Some, E. Qed.

Lemma lookup_other (h : heap) (l m : loc) (o o' : object) :
  l <> m -> h !! m = Some o -> <[l := o']> h !! m = Some o.
Proof. intros N E. rewrite list_lookup_insert_ne by exact N. exact E. Qed.

(** Running an in-place update of the three fields, one after the other. *)
Ltac run_get E :=
  first [ rewrite (bind_Some _ _ _ _ _ (get_x_Some _ _ _ E))
        | rewrite (bind_Some _ _ _ _ _ (get_y_Some _ _ _ E))
        | rewrite (bind_Some _ _ _ _ _ (get_z_Some _ _ _ E)) ].

Ltac run_set E :=
  first [ rewrite (bind_Some _ _ _ _ _ (set_x_Some _ _ _ _ E))
        | rewrite (bind_Some _ _ _ _ _ (set_y_Some _ _ _ _ E))
        | rewrite (bind_Some _ _ _ _ _ (set_z_Some _ _ _ _ E)) ].

Module Vector3_facts.

Lemma clone_Some (h : heap) (l : loc) (v : Vector3) :
  h !! l = Some (OVector3 v) ->
  Vector3.clone l h = Some (length h, h ++ [OVector3 v]).
Proof.
  intros E. unfold Vector3.clone. do 3 run_get E.
  destruct v; reflexivity.
Qed.

Lemma negate_Some (h : heap) (l : loc) (v : Vector3) :
  h !! l = Some (OVector3 v) ->
  Vector3.negate l h = Some (l, <[l := OVector3 (Fields.negated v)]> h).
Proof.
  intros E. unfold Vector3.negate.
  run_get E. run_set E.
  pose proof (lookup_written _ _ _ (OVector3 (mkVector3 (x v * -1)%float (y v) (z v))) E) as E1.
  run_get E1. run_set E1. cbn [x y z].
  pose proof (lookup_written _ _ _ (OVector3 (mkVector3 (x v * -1)%float (y v * -1)%float (z v))) E1) as E2.
  run_get E2. run_set E2. cbn [x y z].
  rewrite !list_insert_insert_eq. reflexivity.
Qed.

(** [add] and [subtract] hold also when the argument is the receiver
    itself: each field is read before it is written, and a write to one
    field leaves the other two. *)
Lemma add_Some (h : heap) (l m : loc) (v w : Vector3) :
  h !! l = Some (OVector3 v) -> h !! m = Some (OVector3 w) ->
  Vector3.add l m h = Some (l, <[l := OVector3 (Fields.sum v w)]> h).
Proof.
  intros E F. unfold Vector3.add.
  pose proof (lookup_written _ _ _ (OVector3 (mkVector3 (x v + x w)%float (y v) (z v))) E) as E1.
  pose proof (lookup_written _ _ _ (OVector3 (mkVector3 (x v + x w)%float (y v + y w)%float (z v))) E1) as E2.
  destruct (decide (l = m)) as [->|N].
  - assert (w = v) by congruence. subst w.
    run_get E. run_get E. run_set E.
    run_get E1. run_get E1. run_set E1. cbn [x y z].
    run_get E2. run_get E2. run_set E2. cbn [x y z].
    rewrite !list_insert_insert_eq. reflexivity.
  - run_get E. run_get F. run_set E.
    pose proof (lookup_other _ _ _ _ (OVector3 (mkVector3 (x v + x w)%float (y v) (z v))) N F) as F1.
    run_get E1. run_get F1. run_set E1. cbn [x y z].
    pose proof (lookup_other _ _ _ _ (OVector3 (mkVector3 (x v + x w)%float (y v + y w)%float (z v))) N F1) as F2.
    run_get E2. run_get F2. run_set E2. cbn [x y z].
    rewrite !list_insert_insert_eq. reflexivity.
Qed.

Lemma subtract_Some (h : heap) (l m : loc) (v w : Vector3) :
  h !! l = Some (OVector3 v) -> h !! m = Some (OVector3 w) ->
  Vector3.subtract l m h
  = Some (l, <[l := OVector3 (Fields.difference v w)]> h).
Proof.
  intros E F. unfold Vector3.subtract.
  pose proof (lookup_written _ _ _ (OVector3 (mkVector3 (x v - x w)%float (y v) (z v))) E) as E1.
  pose proof (lookup_written _ _ _ (OVector3 (mkVector3 (x v - x w)%float (y v - y w)%float (z v))) E1) as E2.
  destruct (decide (l = m)) as [->|N].
  - assert (w = v) by congruence. subst w.
    run_get E. run_get E. run_set E.
    run_get E1. run_get E1. run_set E1. cbn [x y z].
    run_get E2. run_get E2. run_set E2. cbn [x y z].
    rewrite !list_insert_insert_eq. reflexivity.
  - run_get E. run_get F. run_set E.
    pose proof (lookup_other _ _ _ _ (OVector3 (mkVector3 (x v - x w)%float (y v) (z v))) N F) as F1.
    run_get E1. run_get F1. run_set E1. cbn [x y z].
    pose proof (lookup_other _ _ _ _ (OVector3 (mkVector3 (x v - x w)%float (y v - y w)%float (z v))) N F1) as F2.
    run_get E2. run_get F2. run_set E2. cbn [x y z].
    rewrite !list_insert_insert_eq. reflexivity.
Qed.

Lemma multiplyScalar_Some (h : heap) (l : loc) (v : Vector3) (s : float) :
  h !! l = Some (OVector3 v) ->
  Vector3.multiplyScalar l s h
  = Some (l, <[l := OVector3 (Fields.scaled v s)]> h).
Proof.
  intros E. unfold Vector3.multiplyScalar.
  run_get E. run_set E.
  pose proof (lookup_written _ _ _ (OVector3 (mkVector3 (x v * s)%float (y v) (z v))) E) as E1.
  run_get E1. run_set E1. cbn [x y z].
  pose proof (lookup_written _ _ _ (OVector3 (mkVector3 (x v * s)%float (y v * s)%float (z v))) E1) as E2.
  run_get E2. run_set E2. cbn [x y z].
  rewrite !list_insert_insert_eq. reflexivity.
Qed.

(** [lengthSqr], [length] and [dot] only read. *)
Lemma lengthSqr_Some (h : heap) (l : loc) (v : Vector3) :
  h !! l = Some (OVector3 v) ->
  Vector3.lengthSqr l h = Some (Fields.lengthSqr v, h).
Proof. intros E. unfold Vector3.lengthSqr. do 3 run_get E. reflexivity. Qed.

Lemma length_Some (h : heap) (l : loc) (v : Vector3) :
  h !! l = Some (OVector3 v) ->
  Vector3.length l h = Some (Fields.length v, h).
Proof. intros E. unfold Vector3.length. do 3 run_get E. reflexivity. Qed.

Lemma dot_Some (h : heap) (l m : loc) (v w : Vector3) :
  h !! l = Some (OVector3 v) -> h !! m = Some (OVector3 w) ->
  Vector3.dot l m h = Some (Fields.dot v w, h).
Proof.
  intros E F. unfold Vector3.dot.
  run_get E. run_get F. run_get E. run_get F. run_get E. run_get F.
  reflexivity.
Qed.

Lemma normalize_Some (h : heap) (l : loc) (v : Vector3) :
  h !! l = Some (OVector3 v) ->
  Vector3.normalize l h
  = Some (l, <[l := OVector3 (Fields.normalized v)]> h).
Proof.
  intros E. unfold Vector3.normalize.
  rewrite (bind_Some _ _ _ _ _ (lengthSqr_Some _ _ _ E)).
  do 3 run_get E.
  rewrite (bind_Some _ _ _ _ _ (length_Some _ _ _ E)).
  unfold Fields.normalized.
  destruct (JS.gtb (Fields.length v) 0).
  - run_set E.
    pose proof (lookup_written _ _ _
      (OVector3 (mkVector3 (JS.Math_sqrt (x v * x v / Fields.lengthSqr v)) (y v) (z v))) E) as E1.
    run_set E1. cbn [x y z].
    pose proof (lookup_written _ _ _
      (OVector3 (mkVector3 (JS.Math_sqrt (x v * x v / Fields.lengthSqr v))
                           (JS.Math_sqrt (y v * y v / Fields.lengthSqr v)) (z v))) E1) as E2.
    run_set E2. cbn [x y z].
    rewrite !list_insert_insert_eq. reflexivity.
  - unfold ret. rewrite list_insert_id by exact E. reflexivity.
Qed.

Lemma rescale_Some (h : heap) (l : loc) (v : Vector3) (s : float) :
  h !! l = Some (OVector3 v) ->
  Vector3.rescale l s h
  = Some (l, <[l := OVector3 (Fields.rescaled v s)]> h).
Proof.
  intros E. unfold Vector3.rescale.
  rewrite (bind_Some _ _ _ _ _ (length_Some _ _ _ E)).
  unfold Fields.rescaled.
  destruct (JS.gtb (Fields.length v) 0).
  - rewrite (bind_Some _ _ _ _ _ (normalize_Some _ _ _ E)).
    pose proof (lookup_written _ _ _ (OVector3 (Fields.normalized v)) E) as E1.
    rewrite (bind_Some _ _ _ _ _ (multiplyScalar_Some _ _ _ s E1)).
    rewrite list_insert_insert_eq. reflexivity.
  - unfold ret. rewrite list_insert_id by exact E. reflexivity.
Qed.

Lemma insert_last (h : heap) (o o' : object) :
  <[length h := o']> (h ++ [o]) = h ++ [o'].
Proof.
  replace (length h) with (length h + 0) by lia.
  rewrite insert_app_r. reflexivity.
Qed.

Lemma fromTo_Some (h : heap) (l m : loc) (v w : Vector3) :
  h !! l = Some (OVector3 v) -> h !! m = Some (OVector3 w) ->
  Vector3.fromTo l m h
  = Some (length h, h ++ [OVector3 (Fields.difference w v)]).
Proof.
  intros E F. unfold Vector3.fromTo, Vector3.new.
  rewrite (bind_Some _ _ h (h ++ [OVector3 (mkVector3 0 0 0)]) (length h) eq_refl).
  set (h0 := h ++ [OVector3 (mkVector3 0 0 0)]).
  assert (E0 : h0 !! l = Some (OVector3 v)) by (apply lookup_app_l_Some, E).
  assert (F0 : h0 !! m = Some (OVector3 w)) by (apply lookup_app_l_Some, F).
  assert (R0 : h0 !! length h = Some (OVector3 (mkVector3 0 0 0)))
    by (apply list_lookup_middle; reflexivity).
  assert (Nl : length h <> l) by (apply lookup_lt_Some in E; lia).
  assert (Nm : length h <> m) by (apply lookup_lt_Some in F; lia).
  run_get F0. run_get E0. run_set R0. cbn [x y z].
  pose proof (lookup_written _ _ _ (OVector3 (mkVector3 (x w - x v)%float 0 0)) R0) as R1.
  pose proof (lookup_other _ _ _ _ (OVector3 (mkVector3 (x w - x v)%float 0 0)) Nl E0) as E1.
  pose proof (lookup_other _ _ _ _ (OVector3 (mkVector3 (x w - x v)%float 0 0)) Nm F0) as F1.
  run_get F1. run_get E1. run_set R1. cbn [x y z].
  pose proof (lookup_written _ _ _ (OVector3 (mkVector3 (x w - x v)%float (y w - y v)%float 0)) R1) as R2.
  pose proof (lookup_other _ _ _ _ (OVector3 (mkVector3 (x w - x v)%float (y w - y v)%float 0)) Nl E1) as E2.
  pose proof (lookup_other _ _ _ _ (OVector3 (mkVector3 (x w - x v)%float (y w - y v)%float 0)) Nm F1) as F2.
  run_get F2. run_get E2. run_set R2. cbn [x y z].
  rewrite !list_insert_insert_eq. unfold h0. rewrite insert_last. reflexivity.
Qed.

End Vector3_facts.

Module Sphere_facts.

Lemma lookup_old (h fr : heap) (l : loc) (o : object) :
  h !! l = Some o -> (h ++ fr) !! l = Some o.
Proof. apply lookup_app_l_Some. Qed.

Lemma lookup_new (h fr : heap) (k : nat) (o : object) :
  fr !! k = Some o -> (h ++ fr) !! (length h + k) = Some o.
Proof.
  intros E. rewrite lookup_app_r by lia.
  replace (length h + k - length h) with k by lia. exact E.
Qed.

Lemma load_Some (h : heap) (l : loc) (o : object) :
  h !! l = Some o -> load l h = Some (o, h).
Proof. intros E. unfold load. rewrite E. reflexivity. Qed.

Lemma get_origin_Some (h : heap) (l : loc) (q : Ray) :
  h !! l = Some (ORay q) -> Sphere.get_origin l h = Some (origin q, h).
Proof.
  intros E. unfold Sphere.get_origin, load_Ray.
  rewrite (bind_Some _ _ _ _ _ (bind_Some _ _ _ _ _ (load_Some _ _ _ E))).
  reflexivity.
Qed.

Lemma get_direction_Some (h : heap) (l : loc) (q : Ray) :
  h !! l = Some (ORay q) -> Sphere.get_direction l h = Some (direction q, h).
Proof.
  intros E. unfold Sphere.get_direction, load_Ray.
  rewrite (bind_Some _ _ _ _ _ (bind_Some _ _ _ _ _ (load_Some _ _ _ E))).
  reflexivity.
Qed.

Lemma get_center_Some (h : heap) (l : loc) (s : Sphere) :
  h !! l = Some (OSphere s) -> Sphere.get_center l h = Some (center s, h).
Proof.
  intros E. unfold Sphere.get_center, load_Sphere.
  rewrite (bind_Some _ _ _ _ _ (bind_Some _ _ _ _ _ (load_Some _ _ _ E))).
  reflexivity.
Qed.

Lemma get_radius_Some (h : heap) (l : loc) (s : Sphere) :
  h !! l = Some (OSphere s) -> Sphere.get_radius l h = Some (radius s, h).
Proof.
  intros E. unfold Sphere.get_radius, load_Sphere.
  rewrite (bind_Some _ _ _ _ _ (bind_Some _ _ _ _ _ (load_Some _ _ _ E))).
  reflexivity.
Qed.

Lemma load_Result_Some (h : heap) (l : loc) (q : Result) :
  h !! l = Some (OResult q) -> load_Result l h = Some (q, h).
Proof.
  intros E. unfold load_Result.
  rewrite (bind_Some _ _ _ _ _ (load_Some _ _ _ E)). reflexivity.
Qed.

Lemma lookup_new0 (h fr : heap) (o : object) :
  fr !! 0 = Some o -> (h ++ fr) !! length h = Some o.
Proof.
  intros E. rewrite lookup_app_r by lia.
  replace (length h - length h) with 0 by lia. exact E.
Qed.

Lemma insert_new (h fr : heap) (k : nat) (o : object) :
  <[length h + k := o]> (h ++ fr) = h ++ <[k := o]> fr.
Proof. apply insert_app_r. Qed.

Lemma insert_new0 (h fr : heap) (o : object) :
  <[length h := o]> (h ++ fr) = h ++ <[0 := o]> fr.
Proof.
  replace (length h) with (length h + 0) at 1 by lia. apply insert_app_r.
Qed.

Lemma set_hit_Some (h : heap) (l : loc) (q : Result) (v : bool) :
  h !! l = Some (OResult q) ->
  Sphere.set_hit l v h
  = Some (tt, <[l := OResult (mkResult v (point q) (normal q) (distance q))]> h).
Proof.
  intros E. unfold Sphere.set_hit.
  rewrite (bind_Some _ _ _ _ _ (load_Result_Some _ _ _ E)).
  apply (store_Some _ _ _ _ E).
Qed.

Lemma set_point_Some (h : heap) (l : loc) (q : Result) (v : option loc) :
  h !! l = Some (OResult q) ->
  Sphere.set_point l v h
  = Some (tt, <[l := OResult (mkResult (hit q) v (normal q) (distance q))]> h).
Proof.
  intros E. unfold Sphere.set_point.
  rewrite (bind_Some _ _ _ _ _ (load_Result_Some _ _ _ E)).
  apply (store_Some _ _ _ _ E).
Qed.

Lemma set_normal_Some (h : heap) (l : loc) (q : Result) (v : option loc) :
  h !! l = Some (OResult q) ->
  Sphere.set_normal l v h
  = Some (tt, <[l := OResult (mkResult (hit q) (point q) v (distance q))]> h).
Proof.
  intros E. unfold Sphere.set_normal.
  rewrite (bind_Some _ _ _ _ _ (load_Result_Some _ _ _ E)).
  apply (store_Some _ _ _ _ E).
Qed.

Lemma set_distance_Some (h : heap) (l : loc) (q : Result) (v : option float) :
  h !! l = Some (OResult q) ->
  Sphere.set_distance l v h
  = Some (tt, <[l := OResult (mkResult (hit q) (point q) (normal q) v)]> h).
Proof.
  intros E. unfold Sphere.set_distance.
  rewrite (bind_Some _ _ _ _ _ (load_Result_Some _ _ _ E)).
  apply (store_Some _ _ _ _ E).
Qed.

(** One step of a run on a store of the form [h ++ fr], where [h] is the
    store before the call and [fr] the objects allocated since. *)
Ltac look :=
  first [ apply lookup_old; eassumption
        | apply lookup_new0; reflexivity
        | apply lookup_new; reflexivity ].

Ltac tidy :=
  rewrite ?length_app, <- ?app_assoc, ?insert_new, ?insert_new0;
  cbn [List.length app insert list_insert].

Ltac step L := erewrite bind_Some by (eapply L; look); tidy.

Theorem raycast_run (h : heap) (this ray : loc)
                    (C : Vector3) (r : float) (O D : Vector3) :
  well_formed h this ray C r O D ->
  Sphere.raycast this ray h
  = Some (length h, h ++ Quantities.allocated C r O D (length h)).
Proof.
  intros [(s & Hs & Hr & HC) (q & Hq & HO & HD)].
  unfold Sphere.raycast.
  rewrite (bind_Some _ _ h (h ++ [OResult Sphere.no_hit]) (length h) eq_refl).
  step get_origin_Some. step get_center_Some.
  step Vector3_facts.fromTo_Some.
  step Vector3_facts.clone_Some. step Vector3_facts.negate_Some.
  step get_direction_Some. step get_direction_Some.
  step Vector3_facts.dot_Some.
  step get_direction_Some. step Vector3_facts.dot_Some.
  step Vector3_facts.dot_Some.
  step get_radius_Some. step get_radius_Some.
  rewrite Hr.
  unfold Quantities.allocated, Quantities.selected.
  change (Sphere.discriminant _ _ _) with (Quantities.discriminant C r O D).
  destruct (PrimFloat.ltb (Quantities.discriminant C r O D) 0); [reflexivity|].
  change (Sphere.root1 _ _ _) with (Quantities.t1 C r O D).
  change (Sphere.root2 _ _ _) with (Quantities.t2 C r O D).
  destruct (Sphere.select_t _ _) as [t|]; [|reflexivity].
  step get_origin_Some. step Vector3_facts.clone_Some.
  step get_direction_Some. step Vector3_facts.clone_Some.
  step Vector3_facts.multiplyScalar_Some.
  step Vector3_facts.add_Some.
  step get_center_Some.
  step Vector3_facts.fromTo_Some.
  step Vector3_facts.normalize_Some.
  unfold Quantities.rejected, Quantities.origin_inside.
  destruct (PrimFloat.ltb t 0); [reflexivity|].
  step Vector3_facts.length_Some. step get_radius_Some.
  rewrite Hr. cbn [orb].
  change (Fields.difference C O) with (Quantities.originToCenter C O).
  destruct (PrimFloat.ltb (Fields.length _) r); [reflexivity|].
  cbn [orb].
  destruct Sphere.normal_length_le_0; [reflexivity|].
  step set_hit_Some. step set_point_Some.
  step set_normal_Some. step set_distance_Some.
  reflexivity.
Qed.

End Sphere_facts.

(** ** Comparisons of binary64 numbers *)

Module Number_facts.

Lemma SFcompare_antisym (a b : spec_float) :
  SFcompare b a = option_map CompOpp (SFcompare a b).
Proof.
  destruct a as [[]| []| |[] m1 e1], b as [[]|[]| |[] m2 e2];
    try reflexivity; cbn.
  all: rewrite (Z.compare_antisym e1 e2); destruct (e1 ?= e2)%Z; cbn;
    try reflexivity.
  all: change (PosDef.Pos.compare_cont Eq ?p ?q) with (Pos.compare p q).
  all: rewrite (Pos.compare_antisym m1 m2); destruct (m1 ?= m2)%positive;
    reflexivity.
Qed.

Lemma SFcompare_refl (a : spec_float) :
  a <> S754_nan -> SFcompare a a = Some Eq.
Proof.
  destruct a as [[]| []| |[] m e]; try reflexivity; try congruence;
    intros _; cbn.
  all: rewrite Z.compare_refl.
  all: change (PosDef.Pos.compare_cont Eq ?p ?q) with (Pos.compare p q).
  all: rewrite Pos.compare_refl; reflexivity.
Qed.

Lemma SFcompare_None (a b : spec_float) :
  SFcompare a b = None -> a = S754_nan \/ b = S754_nan.
Proof.
  destruct a as [[]| []| |[] m1 e1], b as [[]|[]| |[] m2 e2]; cbn;
    intros H; try discriminate; auto.
Qed.

Lemma is_nan_true (a : float) :
  PrimFloat.is_nan a = true <-> Prim2SF a = S754_nan.
Proof.
  unfold PrimFloat.is_nan. rewrite FloatAxioms.eqb_spec. unfold SFeqb. split.
  - intros H. destruct (Prim2SF a) eqn:E; try reflexivity.
    all: rewrite SFcompare_refl in H by discriminate; discriminate.
  - intros ->. reflexivity.
Qed.

Lemma is_nan_false (a : float) :
  PrimFloat.is_nan a = false <-> Prim2SF a <> S754_nan.
Proof.
  rewrite <- is_nan_true. destruct (PrimFloat.is_nan a); split; congruence.
Qed.

(** A comparison that holds has no NaN operand. *)
Lemma ltb_not_nan (a b : float) :
  PrimFloat.ltb a b = true ->
  PrimFloat.is_nan a = false /\ PrimFloat.is_nan b = false.
Proof.
  rewrite FloatAxioms.ltb_spec, !is_nan_false. unfold SFltb.
  destruct (Prim2SF a), (Prim2SF b); cbn; intros H; try discriminate;
    split; discriminate.
Qed.

Lemma leb_refl (a : float) :
  PrimFloat.is_nan a = false -> PrimFloat.leb a a = true.
Proof.
  rewrite is_nan_false, FloatAxioms.leb_spec. unfold SFleb. intros H.
  rewrite SFcompare_refl by exact H. reflexivity.
Qed.

Lemma ltb_leb (a b : float) :
  PrimFloat.ltb a b = true -> PrimFloat.leb a b = true.
Proof.
  rewrite FloatAxioms.ltb_spec, FloatAxioms.leb_spec. unfold SFltb, SFleb.
  destruct (SFcompare _ _) as [[]|]; congruence.
Qed.

(** Two numbers, none of them NaN, none below the other: each is at most
    the other. *)
Lemma not_ltb_leb (a b : float) :
  PrimFloat.is_nan a = false -> PrimFloat.is_nan b = false ->
  PrimFloat.ltb a b = false -> PrimFloat.leb b a = true.
Proof.
  rewrite !is_nan_false, FloatAxioms.ltb_spec, FloatAxioms.leb_spec.
  unfold SFltb, SFleb. intros Ha Hb.
  rewrite (SFcompare_antisym (Prim2SF a) (Prim2SF b)).
  destruct (SFcompare (Prim2SF a) (Prim2SF b)) as [[]|] eqn:E; cbn;
    try congruence.
  destruct (SFcompare_None _ _ E); contradiction.
Qed.

(** [Math.min] of two numbers that are not NaN is one of them, and at most
    each of them. *)
Lemma Math_min_cases (a b : float) :
  PrimFloat.is_nan a = false -> PrimFloat.is_nan b = false ->
  (JS.Math_min a b = a \/ JS.Math_min a b = b)
  /\ PrimFloat.leb (JS.Math_min a b) a = true
  /\ PrimFloat.leb (JS.Math_min a b) b = true.
Proof.
  intros Ha Hb. unfold JS.Math_min. rewrite Ha, Hb. cbn [orb].
  destruct (PrimFloat.ltb a b) eqn:Lab.
  { repeat split; auto using leb_refl, ltb_leb. }
  destruct (PrimFloat.ltb b a) eqn:Lba.
  { repeat split; auto using leb_refl, ltb_leb. }
  destruct (PrimFloat.is_zero a && PrimFloat.get_sign a).
  - repeat split; auto using leb_refl, not_ltb_leb.
  - repeat split; auto using leb_refl, not_ltb_leb.
Qed.

(** The results of [Math.sqrt] are never below zero: a square root is NaN,
    a zero or positive. *)
Lemma binary_round_aux_sign (sx : bool) (mx ex : Z) (lx : location) :
  match binary_round_aux prec emax sx mx ex lx with
  | S754_zero s | S754_infinity s | S754_finite s _ _ => s = sx
  | S754_nan => True
  end.
Proof.
  unfold binary_round_aux.
  destruct (shr_fexp prec emax mx ex lx) as [mrs' e'].
  destruct (shr_fexp prec emax _ e' loc_Exact) as [mrs'' e''].
  destruct (shr_m mrs''); [reflexivity| |exact I].
  destruct (Z.leb e'' (emax - prec)); reflexivity.
Qed.

Lemma sqrt_not_negative (a : float) :
  PrimFloat.ltb (JS.Math_sqrt a) 0 = false.
Proof.
  unfold JS.Math_sqrt. rewrite FloatAxioms.ltb_spec, FloatAxioms.sqrt_spec.
  change (Prim2SF 0) with (S754_zero false).
  unfold SF64sqrt, SFsqrt.
  destruct (Prim2SF a) as [s|[]| |[] m e]; try reflexivity.
  destruct (SFsqrt_core_binary prec emax (Z.pos m) e) as [[mz ez] lz].
  pose proof (binary_round_aux_sign false mz ez lz) as H.
  destruct (binary_round_aux prec emax false mz ez lz); try reflexivity.
  - subst. reflexivity.
  - subst. reflexivity.
Qed.

End Number_facts.

(** ** What raycast returns *)

Module Raycast_facts.

(** A parameter that [select_t] chooses is one of the two candidates, is
    above zero, and is not NaN. *)
Lemma select_t_positive (t1 t2 t : float) :
  Sphere.select_t t1 t2 = Some t ->
  (t = t1 \/ t = t2) /\ PrimFloat.ltb 0 t = true.
Proof.
  unfold Sphere.select_t, JS.gtb.
  destruct (PrimFloat.ltb 0 t1) eqn:P1, (PrimFloat.ltb 0 t2) eqn:P2; cbn;
    intros [= <-]; auto.
  destruct (Number_facts.ltb_not_nan _ _ P1) as [_ N1].
  destruct (Number_facts.ltb_not_nan _ _ P2) as [_ N2].
  destruct (Number_facts.Math_min_cases t1 t2 N1 N2) as [[-> | ->] _]; auto.
Qed.

Lemma ltb_asym (a b : float) :
  PrimFloat.ltb a b = true -> PrimFloat.ltb b a = false.
Proof.
  rewrite !FloatAxioms.ltb_spec. unfold SFltb.
  rewrite (Number_facts.SFcompare_antisym (Prim2SF a) (Prim2SF b)).
  destruct (SFcompare (Prim2SF a) (Prim2SF b)) as [[]|]; cbn; congruence.
Qed.

(** The test [distance < 0] never holds for a chosen parameter, and the
    test on [normal.length] never holds at all: of the three tests only the
    one on the origin can reject. *)
Lemma rejected_inside (C : Vector3) (r : float) (O D : Vector3) (t : float) :
  Quantities.selected C r O D = Some t ->
  Quantities.rejected C r O t = Quantities.origin_inside C r O.
Proof.
  unfold Quantities.selected, Quantities.rejected. intros H.
  destruct (PrimFloat.ltb (Quantities.discriminant C r O D) 0);
    [discriminate|].
  apply select_t_positive in H as [_ P].
  rewrite (ltb_asym _ _ P). cbn [orb].
  change Sphere.normal_length_le_0 with false.
  apply orb_false_r.
Qed.

(** The record at the returned address, as the caller reads it. *)
Lemma observe_allocated (h : heap) (C : Vector3) (r : float) (O D : Vector3) :
  Sphere.observe (h ++ Quantities.allocated C r O D (length h)) (length h)
  = Some (Quantities.outcome C r O D).
Proof.
  unfold Sphere.observe, Quantities.allocated, Quantities.outcome.
  destruct (Quantities.selected C r O D) as [t|].
  - erewrite Sphere_facts.lookup_new0 by reflexivity.
    destruct (Quantities.rejected C r O t); cbn [hit point normal distance].
    + reflexivity.
    + unfold Sphere.deref_Vector3.
      erewrite (Sphere_facts.lookup_new h _ 3) by reflexivity.
      erewrite (Sphere_facts.lookup_new h _ 5) by reflexivity.
      reflexivity.
  - erewrite Sphere_facts.lookup_new0 by reflexivity. reflexivity.
Qed.

(** On a well-formed store [raycast] returns, and the caller reads
    [Quantities.outcome] from the record. *)
Lemma raycast_outcome (h : heap) (this ray : loc)
                      (C : Vector3) (r : float) (O D : Vector3) :
  well_formed h this ray C r O D ->
  exists res h',
    Sphere.raycast this ray h = Some (res, h')
    /\ Sphere.observe h' res = Some (Quantities.outcome C r O D).
Proof.
  intros W. eexists _, _. split.
  - apply (Sphere_facts.raycast_run _ _ _ _ _ _ _ W).
  - apply observe_allocated.
Qed.

Lemma scene_well_formed (C : Vector3) (r : float) (O D : Vector3) :
  well_formed (Sphere.scene C r O D) 1 4 C r O D.
Proof.
  split.
  - exists (mkSphere 0 r). repeat split.
  - exists (mkRay 2 3). repeat split.
Qed.

Lemma raycast_scene_outcome (C : Vector3) (r : float) (O D : Vector3) :
  Sphere.raycast_scene C r O D = Some (Quantities.outcome C r O D).
Proof.
  unfold Sphere.raycast_scene.
  rewrite (Sphere_facts.raycast_run _ _ _ _ _ _ _ (scene_well_formed C r O D)).
  apply observe_allocated.
Qed.

End Raycast_facts.

(** ** The choice of the parameter *)

(** The parameter that [select_t] chooses is the smallest root above zero. *)
Lemma select_t_smallest (t1 t2 : float) :
  Spec.smallest_positive_root t1 t2 (Sphere.select_t t1 t2).
Proof.
  unfold Sphere.select_t, JS.gtb, Spec.smallest_positive_root.
  destruct (PrimFloat.ltb 0 t1) eqn:P1, (PrimFloat.ltb 0 t2) eqn:P2; cbn.
  - destruct (Number_facts.ltb_not_nan _ _ P1) as [_ N1].
    destruct (Number_facts.ltb_not_nan _ _ P2) as [_ N2].
    destruct (Number_facts.Math_min_cases t1 t2 N1 N2) as (Hc & L1 & L2).
    repeat split; auto. destruct Hc as [-> | ->]; assumption.
  - destruct (Number_facts.ltb_not_nan _ _ P1) as [_ N1].
    repeat split; auto using Number_facts.leb_refl. discriminate.
  - destruct (Number_facts.ltb_not_nan _ _ P2) as [_ N2].
    repeat split; auto using Number_facts.leb_refl. discriminate.
  - split; reflexivity.
Qed.

(** ** Binary64 arithmetic and the real numbers *)

Module Binary64_facts.
Import Binary64.

Local Open Scope R_scope.

Lemma Rabs_le_inv (a b : R) : Rabs a <= b -> - b <= a <= b.
Proof. unfold Rabs. destruct (Rcase_abs a); lra. Qed.

Lemma bpow_pos (e : Z) : 0 < bpow e.
Proof. apply powerRZ_lt. lra. Qed.

Lemma bpow_add (a b : Z) : bpow (a + b) = bpow a * bpow b.
Proof. apply powerRZ_add. lra. Qed.

Lemma bpow_opp (a : Z) : bpow (- a) = / bpow a.
Proof. apply powerRZ_neg'. Qed.

Lemma bpow_0 : bpow 0 = 1.
Proof. reflexivity. Qed.

Lemma bpow_1 : bpow 1 = 2.
Proof. exact (powerRZ_1 2). Qed.

Lemma bpow_m1 : bpow (-1) = / 2.
Proof. change (-1)%Z with (Z.opp 1). rewrite bpow_opp, bpow_1. reflexivity. Qed.

Lemma bpow_succ (a : Z) : bpow (a + 1) = 2 * bpow a.
Proof. rewrite bpow_add, bpow_1. lra. Qed.

Lemma bpow_pred (a : Z) : bpow (a - 1) = bpow a / 2.
Proof.
  replace a with ((a - 1) + 1)%Z at 2 by lia. rewrite bpow_succ. lra.
Qed.

Lemma bpow_IZR (k : Z) : (0 <= k)%Z -> bpow k = IZR (2 ^ k).
Proof.
  intros H. pattern k. apply natlike_ind; [reflexivity| |exact H].
  intros n Hn IH. unfold Z.succ. rewrite bpow_succ, IH.
  rewrite Z.pow_add_r by lia. change (2 ^ 1)%Z with 2%Z.
  rewrite mult_IZR. ring.
Qed.

Lemma bpow_ge_1 (k : Z) : (0 <= k)%Z -> 1 <= bpow k.
Proof.
  intros H. rewrite bpow_IZR by exact H. apply IZR_le.
  pose proof (Z.pow_pos_nonneg 2 k). lia.
Qed.

Lemma bpow_le (a b : Z) : (a <= b)%Z -> bpow a <= bpow b.
Proof.
  intros H. replace b with (a + (b - a))%Z by lia. rewrite bpow_add.
  pose proof (bpow_pos a). pose proof (bpow_ge_1 (b - a) ltac:(lia)). nra.
Qed.

Lemma bpow_lt (a b : Z) : (a < b)%Z -> bpow a < bpow b.
Proof.
  intros H. replace b with (a + 1 + (b - a - 1))%Z by lia.
  rewrite bpow_add, bpow_succ.
  pose proof (bpow_pos a). pose proof (bpow_ge_1 (b - a - 1) ltac:(lia)). nra.
Qed.

Lemma bpow_mul_opp (a : Z) : bpow a * bpow (- a) = 1.
Proof. rewrite <- bpow_add. replace (a + - a)%Z with 0%Z by lia. reflexivity. Qed.

(** ** The number of binary digits *)

Lemma digits2_pos_bounds (p : positive) :
  (2 ^ (Z.pos (digits2_pos p) - 1) <= Z.pos p < 2 ^ Z.pos (digits2_pos p))%Z.
Proof.
  induction p as [p IH|p IH|]; cbn [digits2_pos].
  - rewrite Pos2Z.inj_succ. unfold Z.succ.
    replace (Z.pos (digits2_pos p) + 1 - 1)%Z
      with (Z.pos (digits2_pos p) - 1 + 1)%Z by lia.
    rewrite !Z.pow_add_r by lia. lia.
  - rewrite Pos2Z.inj_succ. unfold Z.succ.
    replace (Z.pos (digits2_pos p) + 1 - 1)%Z
      with (Z.pos (digits2_pos p) - 1 + 1)%Z by lia.
    rewrite !Z.pow_add_r by lia. lia.
  - cbn. lia.
Qed.

Lemma Zdigits2_bounds (m : Z) :
  (0 < m)%Z ->
  (0 < Zdigits2 m /\ 2 ^ (Zdigits2 m - 1) <= m < 2 ^ Zdigits2 m)%Z.
Proof.
  destruct m as [|p|p]; try lia. intros _. cbn [Zdigits2].
  split; [lia|]. apply digits2_pos_bounds.
Qed.

Lemma Zdigits2_unique (m k : Z) :
  (2 ^ (k - 1) <= m < 2 ^ k)%Z -> (0 < k)%Z -> Zdigits2 m = k.
Proof.
  intros H K.
  assert (M : (0 < m)%Z).
  { pose proof (Z.pow_pos_nonneg 2 (k - 1)). lia. }
  destruct (Zdigits2_bounds m M) as (D & B).
  destruct (Z.lt_trichotomy (Zdigits2 m) k) as [L|[E|G]]; [|exact E|].
  - pose proof (Z.pow_le_mono_r 2 (Zdigits2 m) (k - 1)). lia.
  - pose proof (Z.pow_le_mono_r 2 k (Zdigits2 m - 1)). lia.
Qed.

Lemma Zdigits2_le (m k : Z) :
  (0 <= m < 2 ^ k)%Z -> (0 <= k)%Z -> (Zdigits2 m <= k)%Z.
Proof.
  intros H K. destruct (Z.eq_dec m 0%Z) as [->|N]; [cbn; lia|].
  destruct (Zdigits2_bounds m ltac:(lia)) as (D & B).
  destruct (Z_le_gt_dec (Zdigits2 m) k) as [L|G]; [exact L|].
  pose proof (Z.pow_le_mono_r 2 k (Zdigits2 m - 1)). lia.
Qed.

(** ** Shifting to the right *)

Lemma IZR_xO (p : positive) : IZR (Z.pos p~0) = 2 * IZR (Z.pos p).
Proof. rewrite Pos2Z.inj_xO, mult_IZR. reflexivity. Qed.

Lemma IZR_xI (p : positive) : IZR (Z.pos p~1) = 2 * IZR (Z.pos p) + 1.
Proof. rewrite Pos2Z.inj_xI, plus_IZR, mult_IZR. reflexivity. Qed.

Lemma shr_1_located (y : R) (mrs : shr_record) :
  located_record y mrs -> located_record (y / 2) (shr_1 mrs).
Proof.
  destruct mrs as [m r s]. unfold located_record. cbn [shr_m].
  intros [M L]. destruct m as [|p|p]; [| |lia].
  - destruct r, s; cbn in *; (split; [lia|]); lra.
  - destruct p as [p|p|]; destruct r, s; cbn [shr_1 orb shr_m loc_of_shr_record located] in *;
      try rewrite (IZR_xO p) in L; try rewrite (IZR_xI p) in L;
      (split; [lia|]); lra.
Qed.

Lemma iter_shr_1_located (n : positive) :
  forall (y : R) (mrs : shr_record),
    located_record y mrs ->
    located_record (y * bpow (- Z.pos n)) (SpecFloat.iter_pos shr_1 n mrs).
Proof.
  induction n as [n IH|n IH|]; intros y mrs H; cbn [SpecFloat.iter_pos].
  - apply shr_1_located in H. apply IH in H. apply IH in H.
    replace (y * bpow (- Z.pos n~1))
      with (y / 2 * bpow (- Z.pos n) * bpow (- Z.pos n)); [exact H|].
    replace (- Z.pos n~1)%Z with (- Z.pos n + - Z.pos n + - 1)%Z by lia.
    rewrite !bpow_add, bpow_m1. lra.
  - apply IH in H. apply IH in H.
    replace (y * bpow (- Z.pos n~0))
      with (y * bpow (- Z.pos n) * bpow (- Z.pos n)); [exact H|].
    replace (- Z.pos n~0)%Z with (- Z.pos n + - Z.pos n)%Z by lia.
    rewrite !bpow_add. lra.
  - apply shr_1_located in H.
    change (- Z.pos 1)%Z with (-1)%Z. rewrite bpow_m1. exact H.
Qed.

Lemma located_record_of_loc (y : R) (m : Z) (l : location) :
  (0 <= m)%Z -> located y m l -> located_record y (shr_record_of_loc m l).
Proof.
  intros M L. split.
  - destruct l as [|[]]; exact M.
  - destruct l as [|[]]; exact L.
Qed.

(** What a located number tells about the mantissa. *)
Lemma located_floor (y : R) (m : Z) (l : location) :
  located y m l -> IZR m <= y < IZR m + 1.
Proof. destruct l as [|[]]; cbn; lra. Qed.

Lemma located_round (y : R) (m : Z) (l : location) :
  located y m l ->
  (round_nearest_even m l = m \/ round_nearest_even m l = (m + 1)%Z)
  /\ Rabs (IZR (round_nearest_even m l) - y) <= / 2.
Proof.
  destruct l as [|[]]; cbn [located round_nearest_even]; intros H.
  - split; [auto|]. rewrite H. rewrite Rminus_diag, Rabs_R0. lra.
  - destruct (Z.even m); (split; [auto|]); rewrite ?plus_IZR; subst y;
      apply Rabs_le; lra.
  - split; [auto|]. apply Rabs_le; lra.
  - split; [auto|]. rewrite plus_IZR. apply Rabs_le; lra.
Qed.


(** ** Rounding to binary64 *)

Lemma fexp_eq (e : Z) : fexp prec emax e = Z.max (e - 53) (-1074).
Proof. reflexivity. Qed.

Lemma bpow_cancel (e : Z) (x : R) : x * bpow (- e) * bpow e = x.
Proof.
  rewrite Rmult_assoc, <- bpow_add. replace (- e + e)%Z with 0%Z by lia.
  rewrite bpow_0. lra.
Qed.

(** The first shift of [binary_round_aux]. *)
Lemma shr_fexp_located (mx ex : Z) (lx : location) (x : R) :
  (0 <= mx)%Z -> located (x * bpow (- ex)) mx lx ->
  exists mrs' e',
    shr_fexp prec emax mx ex lx = (mrs', e')
    /\ located_record (x * bpow (- e')) mrs'
    /\ e' = Z.max ex (fexp prec emax (Zdigits2 mx + ex))
    /\ ((fexp prec emax (Zdigits2 mx + ex) <= ex)%Z ->
        mrs' = shr_record_of_loc mx lx).
Proof.
  intros M L. unfold shr_fexp, shr.
  set (f := fexp prec emax (Zdigits2 mx + ex)).
  pose proof (located_record_of_loc _ _ _ M L) as LR.
  destruct (f - ex)%Z as [|p|p] eqn:N.
  - eexists _, _. split; [reflexivity|]. split; [exact LR|].
    split; [lia|]. reflexivity.
  - eexists _, _. split; [reflexivity|]. split; [|split; [lia|lia]].
    apply (iter_shr_1_located p) in LR.
    replace (x * bpow (- (ex + Z.pos p)))
      with (x * bpow (- ex) * bpow (- Z.pos p)); [exact LR|].
    replace (- (ex + Z.pos p))%Z with (- ex + - Z.pos p)%Z by lia.
    rewrite bpow_add. lra.
  - eexists _, _. split; [reflexivity|]. split; [exact LR|].
    split; [lia|]. reflexivity.
Qed.

(** The second shift, of a mantissa that fits. *)
Lemma shr_fexp_fits (m e : Z) :
  (fexp prec emax (Zdigits2 m + e) <= e)%Z ->
  shr_fexp prec emax m e loc_Exact
  = ({| shr_m := m; shr_r := false; shr_s := false |}, e).
Proof.
  intros H. unfold shr_fexp, shr.
  destruct (fexp prec emax (Zdigits2 m + e) - e)%Z eqn:N; try reflexivity.
  lia.
Qed.

(** The second shift, when rounding gave [2^53]. *)
Lemma shr_fexp_carry (e : Z) :
  (-1074 <= e)%Z ->
  shr_fexp prec emax (2 ^ 53) e loc_Exact
  = ({| shr_m := 2 ^ 52; shr_r := false; shr_s := false |}, (e + 1)%Z).
Proof.
  intros H. unfold shr_fexp, shr.
  change (Zdigits2 (2 ^ 53)) with 54%Z. rewrite fexp_eq.
  replace (Z.max (54 + e - 53) (-1074) - e)%Z with 1%Z by lia.
  reflexivity.
Qed.

Lemma located_nonneg (y : R) (m : Z) (l : location) :
  (0 <= m)%Z -> located y m l -> 0 <= y.
Proof.
  intros M L. apply located_floor in L. apply IZR_le in M. lra.
Qed.


Lemma binary_round_aux_eq (s : bool) (mx ex : Z) (lx : location)
    (mrs' mrs'' : shr_record) (e' e'' : Z) :
  shr_fexp prec emax mx ex lx = (mrs', e') ->
  shr_fexp prec emax
    (round_nearest_even (shr_m mrs') (loc_of_shr_record mrs')) e' loc_Exact
  = (mrs'', e'') ->
  binary_round_aux prec emax s mx ex lx
  = match shr_m mrs'' with
    | Z0 => S754_zero s
    | Z.pos m =>
        if (e'' <=? 971)%Z then S754_finite s m e'' else S754_infinity s
    | Z.neg _ => S754_nan
    end.
Proof.
  intros H1 H2. unfold binary_round_aux. rewrite H1, H2. reflexivity.
Qed.

Lemma rounded_cases (s : bool) (m e : Z) (x : R) :
  (0 <= m)%Z ->
  ((971 < e)%Z -> (0 < m)%Z -> bpow 971 <= x) ->
  let f := match m with
           | Z0 => S754_zero s
           | Z.pos p =>
               if (e <=? 971)%Z then S754_finite s p e else S754_infinity s
           | Z.neg _ => S754_nan
           end in
  f = S754_infinity s /\ bpow 971 <= x
  \/ f = S754_zero s /\ IZR m * bpow e = 0
  \/ exists p e', f = S754_finite s p e'
                  /\ IZR m * bpow e = IZR (Z.pos p) * bpow e'.
Proof.
  intros M O. destruct m as [|p|p]; [| |lia]; cbv zeta.
  - right. left. split; [reflexivity|]. lra.
  - destruct (Z.leb_spec e 971) as [H|H].
    + right. right. exists p, e. split; reflexivity.
    + left. split; [reflexivity|]. apply O; lia.
Qed.

(** The bounds on a located number that the digits of the mantissa give. *)
Lemma located_bounds (mx ex : Z) (lx : location) (x : R) :
  (0 <= mx)%Z ->
  located (x * bpow (- ex)) mx lx ->
  0 <= x
  /\ x < bpow (Zdigits2 mx + ex)
  /\ ((0 < mx)%Z -> bpow (Zdigits2 mx + ex - 1) <= x).
Proof.
  intros M L. pose proof (located_nonneg _ _ _ M L) as Y.
  apply located_floor in L. pose proof (bpow_pos ex) as B.
  pose proof (bpow_cancel ex x) as C.
  split; [nra|]. split.
  - assert (IZR mx + 1 <= bpow (Zdigits2 mx)).
    { destruct (Z.eq_dec mx 0%Z) as [->|N].
      - cbn [Zdigits2]. rewrite bpow_0. lra.
      - destruct (Zdigits2_bounds mx ltac:(lia)) as (D & H).
        rewrite bpow_IZR by lia. rewrite <- plus_IZR. apply IZR_le. lia. }
    rewrite bpow_add. nra.
  - intros P. destruct (Zdigits2_bounds mx P) as (D & H).
    assert (bpow (Zdigits2 mx - 1) <= IZR mx).
    { rewrite bpow_IZR by lia. apply IZR_le. lia. }
    replace (Zdigits2 mx + ex - 1)%Z with (Zdigits2 mx - 1 + ex)%Z by lia.
    rewrite bpow_add. nra.
Qed.

(** An integer mantissa from the bounds of a located number. *)
Lemma located_mantissa_lt (y : R) (m : Z) (l : location) (k : Z) :
  located y m l -> (0 <= k)%Z -> y < bpow k -> (m < 2 ^ k)%Z.
Proof.
  intros L K Y. apply located_floor in L. apply lt_IZR.
  rewrite <- bpow_IZR by exact K. lra.
Qed.

Lemma located_mantissa_ge (y : R) (m : Z) (l : location) (k : Z) :
  located y m l -> (0 <= k)%Z -> bpow k <= y -> (2 ^ k <= m)%Z.
Proof.
  intros L K Y. apply located_floor in L.
  assert (2 ^ k < m + 1)%Z; [|lia].
  apply lt_IZR. rewrite plus_IZR, <- bpow_IZR by exact K. lra.
Qed.

(** Rounding when the first shift brings the number to its exponent. *)
Lemma binary_round_aux_shifted (s : bool) (mx ex : Z) (lx : location)
    (x : R) :
  (0 <= mx)%Z ->
  located (x * bpow (- ex)) mx lx ->
  (ex <= fexp prec emax (Zdigits2 mx + ex))%Z ->
  (0 < mx \/ ex <= -1074)%Z ->
  exists r : R,
    0 <= r
    /\ (Rabs (r - x) <= bpow (-53) * x
        \/ Rabs (r - x) <= bpow (-1075) /\ x < bpow (-1022))
    /\ (binary_round_aux prec emax s mx ex lx = S754_infinity s
        /\ bpow 971 <= x
        \/ binary_round_aux prec emax s mx ex lx = S754_zero s /\ r = 0
        \/ exists m e,
             binary_round_aux prec emax s mx ex lx = S754_finite s m e
             /\ r = IZR (Z.pos m) * bpow e).
Proof.
  intros M L F H2.
  destruct (located_bounds _ _ _ _ M L) as (X0 & Xhi & Xlo).
  destruct (shr_fexp_located mx ex lx x M L) as (mrs' & e' & S1 & [M' L'] & Ee & _).
  set (E := (Zdigits2 mx + ex)%Z) in *.
  assert (Ee' : e' = fexp prec emax E) by lia. clear Ee.
  set (m' := shr_m mrs') in *. set (l' := loc_of_shr_record mrs') in *.
  set (y' := x * bpow (- e')) in *.
  destruct (located_round _ _ _ L') as (R1 & R2).
  set (m1 := round_nearest_even m' l') in *.
  assert (V : y' * bpow e' = x) by apply bpow_cancel.
  pose proof (bpow_pos e') as Bp.
  apply Rabs_le_inv in R2.
  rewrite fexp_eq in Ee'.
  destruct (Z_le_gt_dec (-1074) (E - 53)) as [N|N].
  - (* the normal range *)
    assert (Ee : e' = (E - 53)%Z) by lia.
    assert (P : (0 < mx)%Z).
    { destruct H2 as [P|P]; [exact P|].
      destruct (Z.eq_dec mx 0%Z) as [Z|Z]; [|lia].
      unfold E in N. rewrite Z in N. cbn [Zdigits2] in N. lia. }
    specialize (Xlo P).
    assert (Y1 : bpow 52 <= y').
    { unfold y'. replace 52%Z with (E - 1 + - e')%Z by lia.
      rewrite bpow_add. pose proof (bpow_pos (- e')). nra. }
    assert (Y2 : y' < bpow 53).
    { unfold y'. replace 53%Z with (E + - e')%Z by lia.
      rewrite bpow_add. pose proof (bpow_pos (- e')). nra. }
    pose proof (located_mantissa_ge _ _ _ 52 L' ltac:(lia) Y1) as G1.
    pose proof (located_mantissa_lt _ _ _ 53 L' ltac:(lia) Y2) as G2.
    assert (Err : Rabs (IZR m1 * bpow e' - x) <= bpow (-53) * x).
    { rewrite <- V. apply Rabs_le.
      assert (bpow (-53) * (y' * bpow e') >= bpow e' / 2).
      { assert (U : bpow (-53) * bpow 52 = / 2).
        { rewrite <- bpow_add. exact bpow_m1. }
        pose proof (bpow_pos (-53)) as Up.
        assert (A1 : bpow 52 * bpow e' <= y' * bpow e') by nra.
        apply (Rmult_le_compat_l (bpow (-53))) in A1; [|lra].
        rewrite <- Rmult_assoc, U in A1. lra. }
      nra. }
    destruct (Z.eq_dec m1 (2 ^ 53)%Z) as [C|C].
    + (* rounding carried to [2^53] *)
      pose proof (shr_fexp_carry e' ltac:(lia)) as S2. rewrite <- C in S2.
      pose proof (binary_round_aux_eq s mx ex lx _ _ _ _ S1 S2) as B.
      cbn [shr_m] in B.
      exists (IZR m1 * bpow e'). split.
      { apply Rmult_le_pos; [apply IZR_le; lia | lra]. }
      split; [left; exact Err|].
      rewrite B.
      replace (IZR m1 * bpow e') with (IZR (2 ^ 52) * bpow (e' + 1)).
      2:{ rewrite C, bpow_succ. change (2 ^ 53)%Z with (2 * 2 ^ 52)%Z.
          rewrite mult_IZR. lra. }
      apply rounded_cases; [lia|].
      intros O _. apply Rle_trans with (bpow (E - 1)); [|exact Xlo].
      apply bpow_le. lia.
    + assert (D1 : Zdigits2 m1 = 53%Z) by (apply Zdigits2_unique; lia).
      assert (S2 : shr_fexp prec emax m1 e' loc_Exact
                   = ({| shr_m := m1; shr_r := false; shr_s := false |}, e')).
      { apply shr_fexp_fits. rewrite D1, fexp_eq. lia. }
      pose proof (binary_round_aux_eq s mx ex lx _ _ _ _ S1 S2) as B.
      cbn [shr_m] in B.
      exists (IZR m1 * bpow e'). split.
      { apply Rmult_le_pos; [apply IZR_le; lia | lra]. }
      split; [left; exact Err|].
      rewrite B. apply rounded_cases; [lia|].
      intros O _. apply Rle_trans with (bpow (E - 1)); [|exact Xlo].
      apply bpow_le. lia.
  - (* the subnormal range *)
    assert (Ee : e' = (-1074)%Z) by lia.
    assert (G : (m' < 2 ^ 52)%Z).
    { apply (located_mantissa_lt _ _ _ 52 L'); [lia|].
      apply Rlt_le_trans with (bpow (E + - e')).
      - unfold y'. rewrite bpow_add. pose proof (bpow_pos (- e')). nra.
      - apply bpow_le. lia. }
    assert (S2 : shr_fexp prec emax m1 e' loc_Exact
                 = ({| shr_m := m1; shr_r := false; shr_s := false |}, e')).
    { apply shr_fexp_fits. rewrite fexp_eq.
      pose proof (Zdigits2_le m1 53 ltac:(lia) ltac:(lia)). lia. }
    pose proof (binary_round_aux_eq s mx ex lx _ _ _ _ S1 S2) as B.
    cbn [shr_m] in B.
    exists (IZR m1 * bpow e'). split.
    { apply Rmult_le_pos; [apply IZR_le; lia | lra]. }
    split.
    { right. split.
      - rewrite <- V. apply Rabs_le.
        assert (bpow (-1075) = bpow e' / 2).
        { rewrite Ee. change (-1075)%Z with (-1074 - 1)%Z. apply bpow_pred. }
        nra.
      - apply Rlt_le_trans with (bpow E); [exact Xhi|]. apply bpow_le. lia. }
    rewrite B. apply rounded_cases; [lia|]. intros O _. lia.
Qed.

(** Rounding a located number [x] to binary64: the value [r] of the result
    is within half a unit in the last place of [x], and the result is an
    infinity only when [x] is huge. *)
Lemma binary_round_aux_spec (s : bool) (mx ex : Z) (lx : location) (x : R) :
  (0 <= mx)%Z ->
  located (x * bpow (- ex)) mx lx ->
  lx = loc_Exact \/ (ex <= fexp prec emax (Zdigits2 mx + ex))%Z ->
  (0 < mx \/ ex <= -1074)%Z ->
  exists r : R,
    0 <= r
    /\ (Rabs (r - x) <= bpow (-53) * x
        \/ Rabs (r - x) <= bpow (-1075) /\ x < bpow (-1022))
    /\ (lx = loc_Exact ->
        (fexp prec emax (Zdigits2 mx + ex) <= ex)%Z -> r = x)
    /\ (binary_round_aux prec emax s mx ex lx = S754_infinity s
        /\ bpow 971 <= x
        \/ binary_round_aux prec emax s mx ex lx = S754_zero s /\ r = 0
        \/ exists m e,
             binary_round_aux prec emax s mx ex lx = S754_finite s m e
             /\ r = IZR (Z.pos m) * bpow e).
Proof.
  intros M L H1 H2.
  destruct (located_bounds _ _ _ _ M L) as (X0 & Xhi & Xlo).
  set (E := (Zdigits2 mx + ex)%Z) in *.
  assert (T : lx = loc_Exact /\ (fexp prec emax E <= ex)%Z
              \/ ~ (lx = loc_Exact /\ (fexp prec emax E <= ex)%Z)).
  { destruct lx; [|right; intros [? _]; discriminate].
    destruct (Z_le_gt_dec (fexp prec emax E) ex); [left; auto|].
    right. intros [_ ?]. lia. }
  destruct T as [[-> F]|T].
  - (* nothing is shifted out and the number is a mantissa: exact *)
    destruct (shr_fexp_located mx ex loc_Exact x M L)
      as (mrs' & e' & S1 & _ & Ee & Em).
    cbn [located] in L. rewrite (Em F) in S1. cbn [shr_record_of_loc] in S1.
    replace e' with ex in S1 by (fold E in Ee; lia).
    pose proof (shr_fexp_fits mx ex F) as S2.
    pose proof (binary_round_aux_eq s mx ex loc_Exact _ _ _ _ S1 S2) as B.
    cbn [shr_m] in B.
    assert (V : IZR mx * bpow ex = x) by (rewrite <- L; apply bpow_cancel).
    exists x. split; [exact X0|]. split.
    { left. rewrite Rminus_diag, Rabs_R0. pose proof (bpow_pos (-53)). nra. }
    split; [reflexivity|]. rewrite B, <- V.
    apply rounded_cases; [exact M|].
    intros O P. rewrite V. apply Rle_trans with (bpow (E - 1)); [|auto].
    apply bpow_le. destruct (Zdigits2_bounds mx P). unfold E. lia.
  - assert (F : (ex <= fexp prec emax E)%Z).
    { destruct H1 as [->|H1]; [|exact H1].
      destruct (Z_le_gt_dec (fexp prec emax E) ex); [|lia].
      exfalso. apply T. auto. }
    destruct (binary_round_aux_shifted s mx ex lx x M L F H2)
      as (r & R0 & Er & Res).
    exists r. split; [exact R0|]. split; [exact Er|]. split; [|exact Res].
    intros A B. exfalso. apply T. auto.
Qed.


(** ** The four operations on numbers that are not negative *)

Lemma rounded_of_spec (x r : R) (f : spec_float) :
  0 <= r ->
  Rabs (r - x) <= bpow (-53) * x
  \/ Rabs (r - x) <= bpow (-1075) /\ x < bpow (-1022) ->
  f = S754_infinity false /\ bpow 971 <= x
  \/ f = S754_zero false /\ r = 0
  \/ (exists m e, f = S754_finite false m e /\ r = IZR (Z.pos m) * bpow e) ->
  rounded x f.
Proof.
  intros R0 Er [H|[[-> ->]|(m & e & -> & ->)]].
  - left. exact H.
  - right. split; [left; reflexivity|]. exact Er.
  - right. split; [right; eauto|]. exact Er.
Qed.

Lemma nonneg_finite_value (f : spec_float) : nonneg_finite f -> 0 <= SF2R f.
Proof.
  intros [->|(m & e & ->)]; cbn; [lra|].
  apply Rmult_le_pos; [apply IZR_le; lia|]. pose proof (bpow_pos e). lra.
Qed.

Lemma value_pos (m : positive) (e : Z) : 0 < IZR (Z.pos m) * bpow e.
Proof.
  apply Rmult_lt_0_compat; [apply IZR_lt; lia | apply bpow_pos].
Qed.

Lemma exact_rounded (x : R) : 0 <= x -> Rabs (x - x) <= bpow (-53) * x.
Proof.
  intros H. rewrite Rminus_diag, Rabs_R0.
  apply Rmult_le_pos; [|exact H]. pose proof (bpow_pos (-53)). lra.
Qed.

Lemma iter_xO (m d : positive) :
  Z.pos (Pos.iter xO m d) = (Z.pos m * 2 ^ Z.pos d)%Z.
Proof.
  induction d as [|d IH] using Pos.peano_ind.
  - cbn. lia.
  - rewrite Pos.iter_succ, Pos2Z.inj_xO, IH, Pos2Z.inj_succ.
    rewrite Z.pow_succ_r by lia. lia.
Qed.

Lemma shl_align_spec (mx : positive) (ex ex' : Z) :
  let '(mz, ez) := shl_align mx ex ex' in
  ez = Z.min ex ex'
  /\ IZR (Z.pos mz) * bpow ez = IZR (Z.pos mx) * bpow ex.
Proof.
  unfold shl_align. destruct (ex' - ex)%Z as [|d|d] eqn:D.
  - split; [lia|reflexivity].
  - split; [lia|reflexivity].
  - split; [lia|]. rewrite iter_xO, mult_IZR.
    rewrite <- bpow_IZR by lia. rewrite Rmult_assoc, <- bpow_add.
    replace (Z.pos d + ex')%Z with ex by lia. reflexivity.
Qed.

Lemma located_exact (m e : Z) : located (IZR m * bpow e * bpow (- e)) m loc_Exact.
Proof.
  cbn. rewrite Rmult_assoc, bpow_mul_opp. lra.
Qed.

(** [binary_round] of a mantissa and an exponent not below the smallest:
    a number below the normal range is kept as it is. *)
Lemma binary_round_spec (m : positive) (e : Z) :
  (-1074 <= e)%Z ->
  let x := IZR (Z.pos m) * bpow e in
  let f := binary_round prec emax false m e in
  f = S754_infinity false /\ bpow 971 <= x
  \/ nonneg_finite f /\ Rabs (SF2R f - x) <= bpow (-53) * x.
Proof.
  intros He x f. unfold f, binary_round.
  pose proof (shl_align_spec m e (fexp prec emax (Z.pos (digits2_pos m) + e)))
    as A.
  destruct (shl_align m e (fexp prec emax (Z.pos (digits2_pos m) + e)))
    as [mz ez].
  destruct A as (Ez & V). fold x in V.
  assert (Lo : (-1074 <= ez)%Z) by (rewrite fexp_eq in Ez; lia).
  pose proof (located_exact (Z.pos mz) ez) as L. rewrite V in L.
  destruct (binary_round_aux_spec false (Z.pos mz) ez loc_Exact x
              ltac:(lia) L (or_introl eq_refl) ltac:(left; lia))
    as (r & R0 & Er & Ex & Res).
  assert (X0 : 0 < x).
  { unfold x. apply Rmult_lt_0_compat; [apply IZR_lt; lia | apply bpow_pos]. }
  assert (Er' : Rabs (r - x) <= bpow (-53) * x).
  { destruct Er as [Er|[_ Small]]; [exact Er|].
    rewrite Ex; [|reflexivity|].
    - apply exact_rounded. lra.
    - (* the number is below the normal range, so its exponent is the
         smallest one *)
      destruct (located_bounds (Z.pos mz) ez loc_Exact x ltac:(lia) L)
        as (_ & _ & Xlo).
      specialize (Xlo ltac:(lia)).
      assert ((Zdigits2 (Z.pos mz) + ez - 1 < -1022)%Z).
      { destruct (Z_lt_le_dec (Zdigits2 (Z.pos mz) + ez - 1) (-1022))
          as [?|G]; [assumption|].
        apply bpow_le in G. lra. }
      rewrite fexp_eq. lia. }
  destruct Res as [H|[[H ->]|(m' & e' & H & ->)]].
  - left. exact H.
  - right. rewrite H. split; [left; reflexivity|]. exact Er'.
  - right. rewrite H. split; [right; eauto|]. exact Er'.
Qed.

(** The exponent of a valid number. *)
Lemma valid_exponent (s : bool) (m : positive) (e : Z) :
  FloatAxioms.valid_binary (S754_finite s m e) = true -> (-1074 <= e)%Z.
Proof.
  unfold FloatAxioms.valid_binary, SpecFloat.valid_binary,
    SpecFloat.bounded, SpecFloat.canonical_mantissa. rewrite fexp_eq.
  intros H. apply andb_prop in H as [H _]. apply Z.eqb_eq in H. lia.
Qed.

(** Addition. *)
Lemma SFadd_spec (a b : spec_float) :
  nonneg_finite a -> nonneg_finite b ->
  FloatAxioms.valid_binary a = true -> FloatAxioms.valid_binary b = true ->
  let x := SF2R a + SF2R b in
  let f := SFadd prec emax a b in
  f = S754_infinity false /\ bpow 971 <= x
  \/ nonneg_finite f /\ Rabs (SF2R f - x) <= bpow (-53) * x.
Proof.
  intros [->|(ma & ea & ->)] [->|(mb & eb & ->)] Va Vb x f; unfold x, f.
  - right. split; [left; reflexivity|]. cbn.
    rewrite Rplus_0_l, Rminus_diag, Rabs_R0. lra.
  - right. split; [right; eauto|]. cbn [SFadd SF2R].
    rewrite Rplus_0_l. apply exact_rounded.
    pose proof (value_pos mb eb). lra.
  - right. split; [right; eauto|]. cbn [SFadd SF2R].
    rewrite Rplus_0_r. apply exact_rounded.
    pose proof (value_pos ma ea). lra.
  - apply valid_exponent in Va, Vb.
    cbn [SFadd SF2R cond_Zopp].
    pose proof (shl_align_spec ma ea (Z.min ea eb)) as A.
    pose proof (shl_align_spec mb eb (Z.min ea eb)) as B.
    destruct (shl_align ma ea (Z.min ea eb)) as [ma' ea'].
    destruct (shl_align mb eb (Z.min ea eb)) as [mb' eb'].
    destruct A as (Ea & A), B as (Eb & B). cbn [fst].
    change (Z.pos ma' + Z.pos mb')%Z with (Z.pos (ma' + mb')).
    cbn [binary_normalize].
    replace (IZR (Z.pos ma) * bpow ea + IZR (Z.pos mb) * bpow eb)
      with (IZR (Z.pos (ma' + mb')) * bpow (Z.min ea eb)).
    + apply binary_round_spec. lia.
    + rewrite <- A, <- B, Pos2Z.inj_add, plus_IZR.
      replace ea' with (Z.min ea eb) by lia.
      replace eb' with (Z.min ea eb) by lia. ring.
Qed.

(** Multiplication. *)
Lemma SFmul_spec (a b : spec_float) :
  nonneg_finite a -> nonneg_finite b ->
  rounded (SF2R a * SF2R b) (SFmul prec emax a b).
Proof.
  intros [->|(ma & ea & ->)] [->|(mb & eb & ->)].
  1-3: right; split; [left; reflexivity|]; left; cbn;
    rewrite ?Rmult_0_l, ?Rmult_0_r, Rminus_diag, Rabs_R0; lra.
  cbn [SFmul SF2R xorb].
  set (x := IZR (Z.pos ma) * bpow ea * (IZR (Z.pos mb) * bpow eb)).
  assert (V : x = IZR (Z.pos (ma * mb)) * bpow (ea + eb)).
  { unfold x. rewrite Pos2Z.inj_mul, mult_IZR, bpow_add. ring. }
  pose proof (located_exact (Z.pos (ma * mb)) (ea + eb)) as L.
  rewrite <- V in L.
  destruct (binary_round_aux_spec false (Z.pos (ma * mb)) (ea + eb)
              loc_Exact x ltac:(lia) L
              (or_introl eq_refl) ltac:(left; lia))
    as (r & R0 & Er & _ & Res).
  apply (rounded_of_spec x r); assumption.
Qed.


(** Division. *)

Lemma Rdiv_cases (a b : R) :
  0 < b ->
  a / b * b = a
  /\ (0 < a -> 0 < a / b)
  /\ (a < b -> a / b < 1)
  /\ (2 * a < b -> a / b < / 2)
  /\ (2 * a = b -> a / b = / 2)
  /\ (b < 2 * a -> / 2 < a / b).
Proof.
  intros B. assert (E : a / b * b = a) by (field; lra).
  split; [exact E|]. repeat split; intros H.
  - apply (Rmult_lt_reg_r b); [exact B|]. rewrite E. lra.
  - apply (Rmult_lt_reg_r b); [exact B|]. rewrite E. lra.
  - apply (Rmult_lt_reg_r b); [exact B|]. rewrite E. lra.
  - apply (Rmult_eq_reg_r b); [|lra]. rewrite E. lra.
  - apply (Rmult_lt_reg_r b); [exact B|]. rewrite E. lra.
Qed.

Lemma new_location_spec (m q r : Z) :
  (0 < m)%Z -> (0 <= r < m)%Z ->
  located (IZR q + IZR r / IZR m) q (new_location m r).
Proof.
  intros M [R0 R1].
  assert (Mp : 0 < IZR m) by (apply IZR_lt; lia).
  destruct (Rdiv_cases (IZR r) (IZR m) Mp) as (_ & P & L1 & Lt' & Eq' & Gt').
  assert (A : (0 < r)%Z -> IZR q < IZR q + IZR r / IZR m < IZR q + 1).
  { intros H. apply IZR_lt in H. apply IZR_lt in R1. specialize (P H).
    specialize (L1 R1). lra. }
  assert (Lo : (0 < r)%Z -> (2 * r < m)%Z ->
               located (IZR q + IZR r / IZR m) q (loc_Inexact Lt)).
  { intros H1 H2. specialize (A H1). apply IZR_lt in H2.
    rewrite mult_IZR in H2. specialize (Lt' H2). cbn. lra. }
  assert (Hi : (m < 2 * r)%Z ->
               located (IZR q + IZR r / IZR m) q (loc_Inexact Gt)).
  { intros H2. specialize (A ltac:(lia)). apply IZR_lt in H2.
    rewrite mult_IZR in H2. specialize (Gt' H2). cbn. lra. }
  unfold new_location, new_location_even, new_location_odd.
  destruct (Z.even m) eqn:Ev.
  - destruct (Z.eqb_spec r 0) as [->|N].
    + cbn. unfold Rdiv. lra.
    + destruct (Z.compare_spec (2 * r) m) as [H|H|H].
      * apply (f_equal IZR) in H. rewrite mult_IZR in H.
        specialize (Eq' H). cbn. lra.
      * apply Lo; lia.
      * apply Hi; lia.
  - assert (O : exists k, m = (2 * k + 1)%Z).
    { apply Z.odd_spec. rewrite <- Z.negb_even, Ev. reflexivity. }
    destruct O as (k & O).
    destruct (Z.eqb_spec r 0) as [->|N].
    + cbn. unfold Rdiv. lra.
    + destruct (Z.compare_spec (2 * r + 1) m) as [H|H|H].
      * apply Lo; lia.
      * apply Lo; lia.
      * apply Hi; lia.
Qed.

Lemma fexp_mono (a b : Z) :
  (a <= b)%Z -> (fexp prec emax a <= fexp prec emax b)%Z.
Proof. rewrite !fexp_eq. lia. Qed.

Lemma Zdigits2_ge (m k : Z) :
  (0 <= k)%Z -> (2 ^ k <= m)%Z -> (k + 1 <= Zdigits2 m)%Z.
Proof.
  intros K H.
  assert (M : (0 < m)%Z) by (pose proof (Z.pow_pos_nonneg 2 k); lia).
  destruct (Zdigits2_bounds m M) as (D & B).
  destruct (Z_lt_le_dec k (Zdigits2 m)) as [?|G]; [lia|].
  pose proof (Z.pow_le_mono_r 2 (Zdigits2 m) k). lia.
Qed.

Lemma value_digits (m : positive) (e : Z) :
  bpow (Zdigits2 (Z.pos m) + e - 1) <= IZR (Z.pos m) * bpow e
  < bpow (Zdigits2 (Z.pos m) + e).
Proof.
  pose proof (located_exact (Z.pos m) e) as L.
  destruct (located_bounds (Z.pos m) e loc_Exact _ ltac:(lia) L)
    as (_ & Hi & Lo).
  split; [apply Lo; lia | exact Hi].
Qed.

(** What the choice of the exponent in a division or a square root
    gives: the integer part of the scaled number has enough digits. *)
Lemma enough_digits (y : R) (q e' D : Z) (l : location) :
  (0 <= q)%Z -> located y q l ->
  bpow (D - 1 - e') <= y ->
  (e' <= fexp prec emax D)%Z ->
  (e' <= fexp prec emax (Zdigits2 q + e'))%Z /\ (0 < q \/ e' <= -1074)%Z.
Proof.
  intros Q L Y F.
  destruct (Z_le_gt_dec 0 (D - 1 - e')) as [G|G].
  - pose proof (located_mantissa_ge _ _ _ _ L G Y) as H.
    pose proof (Zdigits2_ge _ _ G H).
    pose proof (Z.pow_pos_nonneg 2 (D - 1 - e')).
    split; [|left; lia].
    apply Z.le_trans with (fexp prec emax D); [exact F|].
    apply fexp_mono. lia.
  - rewrite fexp_eq in *. split; [lia|right; lia].
Qed.

Lemma SFdiv_core_binary_spec (m1 : positive) (e1 : Z) (m2 : positive)
    (e2 : Z) :
  let x := IZR (Z.pos m1) * bpow e1 / (IZR (Z.pos m2) * bpow e2) in
  let '(q, e', l) := SFdiv_core_binary prec emax (Z.pos m1) e1 (Z.pos m2) e2 in
  (0 <= q)%Z
  /\ located (x * bpow (- e')) q l
  /\ (e' <= fexp prec emax (Zdigits2 q + e'))%Z
  /\ (0 < q \/ e' <= -1074)%Z.
Proof.
  intros x. unfold SFdiv_core_binary.
  set (D := (Zdigits2 (Z.pos m1) + e1 - (Zdigits2 (Z.pos m2) + e2))%Z).
  set (e' := Z.min (fexp prec emax D) (e1 - e2)).
  set (s := (e1 - e2 - e')%Z).
  set (m' := match s with
             | 0%Z => Z.pos m1
             | Z.pos _ => Z.shiftl (Z.pos m1) s
             | Z.neg _ => 0%Z
             end).
  assert (S0 : (0 <= s)%Z) by (unfold s, e'; lia).
  assert (Em : m' = (Z.pos m1 * 2 ^ s)%Z).
  { unfold m'. destruct s as [|p|p] eqn:Es.
    - cbn. lia.
    - apply Z.shiftl_mul_pow2. lia.
    - lia. }
  pose proof (Z_div_mod m' (Z.pos m2) ltac:(lia)) as DM.
  destruct (Z.div_eucl m' (Z.pos m2)) as [q r]. destruct DM as (Eq & R0 & R1).
  assert (Q0 : (0 <= q)%Z) by nia.
  assert (M2 : 0 < IZR (Z.pos m2)) by (apply IZR_lt; lia).
  pose proof (bpow_pos e1) as B1. pose proof (bpow_pos e2) as B2.
  assert (Y : x * bpow (- e') = IZR q + IZR r / IZR (Z.pos m2)).
  { assert (IZR m' = IZR (Z.pos m2) * IZR q + IZR r).
    { rewrite Eq, plus_IZR, mult_IZR. reflexivity. }
    assert (IZR m' = IZR (Z.pos m1) * bpow s).
    { rewrite Em, mult_IZR, bpow_IZR by exact S0. reflexivity. }
    assert (bpow s = bpow e1 * / bpow e2 * bpow (- e')).
    { unfold s. replace (e1 - e2 - e')%Z with (e1 + - e2 + - e')%Z by lia.
      rewrite !bpow_add, (bpow_opp e2). reflexivity. }
    unfold x. apply (Rmult_eq_reg_r (IZR (Z.pos m2))); [|lra].
    transitivity (IZR m'); [|field_simplify; lra].
    rewrite H0, H1. field. lra. }
  assert (L : located (x * bpow (- e')) q (new_location (Z.pos m2) r)).
  { rewrite Y. apply new_location_spec; lia. }
  split; [exact Q0|]. split; [exact L|].
  apply (enough_digits _ _ _ D _ Q0 L); [|unfold e'; lia].
  (* the quotient is above [2^(D-1)] *)
  destruct (value_digits m1 e1) as (V1 & _).
  destruct (value_digits m2 e2) as (_ & V2).
  pose proof (value_pos m2 e2) as P2.
  set (v1 := IZR (Z.pos m1) * bpow e1) in *.
  set (v2 := IZR (Z.pos m2) * bpow e2) in *.
  assert (bpow (D - 1) <= x).
  { unfold x. fold v1 v2.
    replace (D - 1)%Z
      with (Zdigits2 (Z.pos m1) + e1 - 1 + - (Zdigits2 (Z.pos m2) + e2))%Z
      by (unfold D; lia).
    rewrite bpow_add, bpow_opp.
    set (b1 := bpow (Zdigits2 (Z.pos m1) + e1 - 1)) in *.
    set (b2 := bpow (Zdigits2 (Z.pos m2) + e2)) in *.
    assert (0 < b1) by apply bpow_pos.
    destruct (Rdiv_cases v1 v2 P2) as (E1 & _).
    destruct (Rdiv_cases b1 b2 ltac:(lra)) as (E2 & Pb & _).
    specialize (Pb ltac:(lra)). fold (b1 / b2).
    apply Rnot_lt_le. intros C.
    assert (v1 / v2 * v2 < b1 / b2 * b2).
    { apply Rle_lt_trans with (b1 / b2 * v2); [|nra].
      apply Rmult_le_compat_r; lra. }
    lra. }
  replace (D - 1 - e')%Z with (D - 1 + - e')%Z by lia.
  rewrite bpow_add. apply Rmult_le_compat_r; [|assumption].
  pose proof (bpow_pos (- e')). lra.
Qed.

Lemma SFdiv_spec (a b : spec_float) :
  nonneg_finite a -> (exists m e, b = S754_finite false m e) ->
  rounded (SF2R a / SF2R b) (SFdiv prec emax a b).
Proof.
  intros [->|(ma & ea & ->)] (mb & eb & ->).
  - right. split; [left; reflexivity|]. left. cbn [SFdiv SF2R xorb].
    unfold Rdiv. rewrite Rmult_0_l. apply exact_rounded. lra.
  - cbn [SFdiv SF2R xorb].
    pose proof (SFdiv_core_binary_spec ma ea mb eb) as H. cbv zeta in H.
    destruct (SFdiv_core_binary prec emax (Z.pos ma) ea (Z.pos mb) eb)
      as [[q e'] l].
    destruct H as (Q0 & L & F & Z).
    destruct (binary_round_aux_spec false q e' l _ Q0 L (or_intror F) Z)
      as (r & R0 & Er & _ & Res).
    apply (rounded_of_spec _ r); assumption.
Qed.


(** The square root. *)

Lemma sqrt_located (q r : Z) :
  (0 <= r <= 2 * q)%Z ->
  located (sqrt (IZR (q * q + r))) q
    (if (r =? 0)%Z then loc_Exact
     else loc_Inexact (if (r <=? q)%Z then Lt else Gt)).
Proof.
  intros [R0 R1]. rewrite plus_IZR, mult_IZR.
  assert (Q : 0 <= IZR q) by (apply IZR_le; lia).
  assert (S1 : forall a, 0 <= a -> sqrt (a * a) = a) by apply sqrt_square.
  destruct (Z.eqb_spec r 0) as [->|N].
  - cbn. rewrite Rplus_0_r. apply S1, Q.
  - assert (Rp : 1 <= IZR r) by (apply IZR_le; lia).
    assert (Lo : IZR q < sqrt (IZR q * IZR q + IZR r)).
    { rewrite <- (S1 (IZR q) Q) at 1. apply sqrt_lt_1_alt. nra. }
    destruct (Z.leb_spec r q) as [H|H]; cbn.
    + apply IZR_le in H. split; [exact Lo|].
      rewrite <- (S1 (IZR q + / 2)) by lra. apply sqrt_lt_1_alt. nra.
    + assert (IZR q + 1 <= IZR r).
      { rewrite <- plus_IZR. apply IZR_le. lia. }
      assert (IZR r <= 2 * IZR q).
      { rewrite <- mult_IZR. apply IZR_le. lia. }
      split.
      * rewrite <- (S1 (IZR q + / 2)) at 1 by lra. apply sqrt_lt_1_alt. nra.
      * rewrite <- (S1 (IZR q + 1)) by lra. apply sqrt_lt_1_alt. nra.
Qed.

Lemma div2_bounds (a : Z) : (2 * Z.div2 a <= a <= 2 * Z.div2 a + 1)%Z.
Proof.
  pose proof (Z.div2_odd a) as H. destruct (Z.odd a); cbn in H; lia.
Qed.

Lemma SFsqrt_core_binary_spec (m : positive) (e : Z) :
  let x := sqrt (IZR (Z.pos m) * bpow e) in
  let '(q, e', l) := SFsqrt_core_binary prec emax (Z.pos m) e in
  (0 <= q)%Z
  /\ located (x * bpow (- e')) q l
  /\ (e' <= fexp prec emax (Zdigits2 q + e'))%Z
  /\ (0 < q \/ e' <= -1074)%Z.
Proof.
  intros x. unfold SFsqrt_core_binary.
  set (D := Z.div2 (Zdigits2 (Z.pos m) + e + 1)).
  set (e' := Z.min (fexp prec emax D) (Z.div2 e)).
  set (s := (e - 2 * e')%Z).
  set (m' := match s with
             | 0%Z => Z.pos m
             | Z.pos _ => Z.shiftl (Z.pos m) s
             | Z.neg _ => 0%Z
             end).
  pose proof (div2_bounds e) as De.
  pose proof (div2_bounds (Zdigits2 (Z.pos m) + e + 1)) as Dd. fold D in Dd.
  assert (S0 : (0 <= s)%Z) by (unfold s, e'; lia).
  assert (Em : m' = (Z.pos m * 2 ^ s)%Z).
  { unfold m'. destruct s as [|p|p] eqn:Es.
    - cbn. lia.
    - apply Z.shiftl_mul_pow2. lia.
    - lia. }
  assert (M0 : (0 <= m')%Z).
  { rewrite Em. pose proof (Z.pow_pos_nonneg 2 s). nia. }
  pose proof (Z.sqrtrem_spec m' M0) as SR.
  destruct (Z.sqrtrem m') as [q r]. destruct SR as (Eq & R0 & R1).
  assert (Q0 : (0 <= q)%Z) by lia.
  pose proof (value_pos m e) as Vp.
  set (v := IZR (Z.pos m) * bpow e) in *.
  pose proof (bpow_pos (- e')) as Bp.
  assert (Y : x * bpow (- e') = sqrt (IZR m')).
  { assert (IZR m' = v * (bpow (- e') * bpow (- e'))).
    { rewrite Em, mult_IZR, <- bpow_IZR by exact S0. unfold v, s.
      replace (e - 2 * e')%Z with (e + (- e' + - e'))%Z by lia.
      rewrite !bpow_add. ring. }
    rewrite H. rewrite sqrt_mult by nra. rewrite sqrt_square by lra.
    reflexivity. }
  assert (L : located (x * bpow (- e')) q
                (if (r =? 0)%Z then loc_Exact
                 else loc_Inexact (if (r <=? q)%Z then Lt else Gt))).
  { rewrite Y, Eq. apply sqrt_located. lia. }
  split; [exact Q0|]. split; [exact L|].
  apply (enough_digits _ _ _ D _ Q0 L); [|unfold e'; lia].
  destruct (value_digits m e) as (V1 & _). fold v in V1.
  assert (bpow (D - 1) <= x).
  { unfold x. rewrite <- (sqrt_square (bpow (D - 1)))
      by (pose proof (bpow_pos (D - 1)); lra).
    apply sqrt_le_1_alt. rewrite <- bpow_add.
    apply Rle_trans with (bpow (Zdigits2 (Z.pos m) + e - 1)); [|exact V1].
    apply bpow_le. lia. }
  replace (D - 1 - e')%Z with (D - 1 + - e')%Z by lia.
  rewrite bpow_add. apply Rmult_le_compat_r; [lra|assumption].
Qed.

Lemma SFsqrt_spec (a : spec_float) :
  nonneg_finite a -> rounded (sqrt (SF2R a)) (SFsqrt prec emax a).
Proof.
  intros [->|(ma & ea & ->)].
  - right. split; [left; reflexivity|]. left. cbn [SFsqrt SF2R].
    rewrite sqrt_0. apply exact_rounded. lra.
  - cbn [SFsqrt SF2R].
    pose proof (SFsqrt_core_binary_spec ma ea) as H. cbv zeta in H.
    destruct (SFsqrt_core_binary prec emax (Z.pos ma) ea) as [[q e'] l].
    destruct H as (Q0 & L & F & Z).
    destruct (binary_round_aux_spec false q e' l _ Q0 L (or_intror F) Z)
      as (r & R0 & Er & _ & Res).
    apply (rounded_of_spec _ r); assumption.
Qed.


(** A square root neither overflows nor underflows. *)
Lemma SFsqrt_spec_valid (a : spec_float) :
  nonneg_finite a -> FloatAxioms.valid_binary a = true ->
  nonneg_finite (SFsqrt prec emax a)
  /\ Rabs (SF2R (SFsqrt prec emax a) - sqrt (SF2R a))
     <= bpow (-53) * sqrt (SF2R a).
Proof.
  intros N V. pose proof (SFsqrt_spec a N) as H.
  destruct N as [->|(m & e & ->)].
  - split; [left; reflexivity|]. cbn [SFsqrt SF2R]. rewrite sqrt_0.
    apply exact_rounded. lra.
  - pose proof (valid_exponent _ _ _ V) as Lo.
    unfold FloatAxioms.valid_binary, SpecFloat.valid_binary,
      SpecFloat.bounded, SpecFloat.canonical_mantissa in V.
    apply andb_prop in V as [C B]. apply Z.eqb_eq in C.
    apply Z.leb_le in B. rewrite fexp_eq in C.
    change (emax - prec)%Z with 971%Z in B.
    destruct (value_digits m e) as (V1 & V2). cbn [SF2R] in *.
    set (v := IZR (Z.pos m) * bpow e) in *.
    change (Zdigits2 (Z.pos m)) with (Z.pos (digits2_pos m)) in V1, V2.
    assert (Hi : sqrt v < bpow 512).
    { rewrite <- (sqrt_square (bpow 512)) by (pose proof (bpow_pos 512); lra).
      apply sqrt_lt_1_alt. split; [pose proof (value_pos m e); fold v in H0; lra|].
      rewrite <- bpow_add. apply Rlt_le_trans with (1 := V2).
      apply bpow_le. lia. }
    assert (Low : bpow (-537) <= sqrt v).
    { rewrite <- (sqrt_square (bpow (-537)))
        by (pose proof (bpow_pos (-537)); lra).
      apply sqrt_le_1_alt. rewrite <- bpow_add.
      apply Rle_trans with (2 := V1). apply bpow_le. lia. }
    pose proof (bpow_lt 512 971 ltac:(lia)).
    pose proof (bpow_lt (-1022) (-537) ltac:(lia)).
    destruct H as [[_ O]|[Nf [Er|[_ U]]]]; [lra| |lra].
    split; assumption.
Qed.

(** ** Binary64 numbers *)

Lemma add_rounded (a b : float) :
  nonneg a -> nonneg b ->
  Prim2SF (a + b) = S754_infinity false /\ bpow 971 <= F2R a + F2R b
  \/ nonneg (a + b)
     /\ Rabs (F2R (a + b) - (F2R a + F2R b))
        <= bpow (-53) * (F2R a + F2R b).
Proof.
  intros A B. unfold nonneg, F2R. rewrite FloatAxioms.add_spec.
  apply SFadd_spec; auto using FloatAxioms.Prim2SF_valid.
Qed.

Lemma mul_rounded (a b : float) :
  nonneg a -> nonneg b -> rounded (F2R a * F2R b) (Prim2SF (a * b)).
Proof.
  intros A B. unfold F2R. rewrite FloatAxioms.mul_spec.
  apply SFmul_spec; assumption.
Qed.

Lemma div_rounded (a b : float) :
  nonneg a -> (exists m e, Prim2SF b = S754_finite false m e) ->
  rounded (F2R a / F2R b) (Prim2SF (a / b)).
Proof.
  intros A B. unfold F2R. rewrite FloatAxioms.div_spec.
  apply SFdiv_spec; assumption.
Qed.

Lemma sqrt_rounded (a : float) :
  nonneg a ->
  nonneg (PrimFloat.sqrt a)
  /\ Rabs (F2R (PrimFloat.sqrt a) - sqrt (F2R a))
     <= bpow (-53) * sqrt (F2R a).
Proof.
  intros A. unfold nonneg, F2R. rewrite FloatAxioms.sqrt_spec.
  apply SFsqrt_spec_valid; auto using FloatAxioms.Prim2SF_valid.
Qed.

Lemma nonneg_value (a : float) : nonneg a -> 0 <= F2R a.
Proof. apply nonneg_finite_value. Qed.

(** A square is NaN, Infinity or not negative. *)
Lemma square_like_square (a : float) : square_like (a * a).
Proof.
  unfold square_like, nonneg. rewrite FloatAxioms.mul_spec.
  destruct (Prim2SF a) as [s|s| |s m e].
  - right. right. left. destruct s; reflexivity.
  - right. left. destruct s; reflexivity.
  - left. reflexivity.
  - assert (E : SF64mul (S754_finite s m e) (S754_finite s m e)
                = SFmul prec emax (S754_finite false m e)
                                  (S754_finite false m e))
      by (destruct s; reflexivity).
    rewrite E.
    destruct (SFmul_spec (S754_finite false m e) (S754_finite false m e))
      as [[-> _]|[N _]]; try (right; eauto); auto.
Qed.

Lemma square_like_nonneg (a : float) : nonneg a -> square_like a.
Proof. intros H. right. right. exact H. Qed.

(** A sum of such Numbers is one of them, and it is finite only when both
    are. *)
Lemma square_like_add (a b : float) :
  square_like a -> square_like b ->
  square_like (a + b) /\ (nonneg (a + b) -> nonneg a /\ nonneg b).
Proof.
  intros A B.
  destruct A as [A|[A|A]]; [| |destruct B as [B|[B|B]]].
  - unfold square_like, nonneg. rewrite FloatAxioms.add_spec, A. cbn.
    split; [left; reflexivity|]. intros [H|(m & e & H)]; discriminate H.
  - unfold square_like, nonneg. rewrite FloatAxioms.add_spec, A.
    destruct B as [B|[B|B]].
    + rewrite B. cbn. split; [left; reflexivity|].
      intros [H|(m & e & H)]; discriminate H.
    + rewrite B. cbn. split; [right; left; reflexivity|].
      intros [H|(m & e & H)]; discriminate H.
    + destruct B as [B|(m & e & B)]; rewrite B; cbn;
        (split; [right; left; reflexivity|]);
        intros [H|(m' & e' & H)]; discriminate H.
  - unfold square_like, nonneg. rewrite FloatAxioms.add_spec, B.
    destruct A as [A|(m & e & A)]; rewrite A; cbn;
      (split; [left; reflexivity|]);
      intros [H|(m' & e' & H)]; discriminate H.
  - unfold square_like, nonneg. rewrite FloatAxioms.add_spec, B.
    destruct A as [A|(m & e & A)]; rewrite A; cbn;
      (split; [right; left; reflexivity|]);
      intros [H|(m' & e' & H)]; discriminate H.
  - split; [|auto].
    destruct (add_rounded a b A B) as [[H _]|[H _]]; [right; left; exact H|].
    right. right. exact H.
Qed.

(** A Number above zero and below Infinity. *)
Lemma finite_above_0 (a : float) :
  PrimFloat.ltb 0 a = true -> PrimFloat.ltb a infinity = true ->
  exists m e, Prim2SF a = S754_finite false m e.
Proof.
  rewrite !FloatAxioms.ltb_spec.
  change (Prim2SF 0) with (S754_zero false).
  change (Prim2SF infinity) with (S754_infinity false).
  destruct (Prim2SF a) as [s|[]| |[] m e]; cbn; try discriminate; eauto.
Qed.

Lemma above_0 (a : float) :
  nonneg a -> 0 < F2R a -> PrimFloat.ltb 0 a = true.
Proof.
  unfold nonneg, F2R. rewrite FloatAxioms.ltb_spec.
  change (Prim2SF 0) with (S754_zero false).
  intros [->|(m & e & ->)]; cbn; [lra|reflexivity].
Qed.

(** The order of two valid numbers that are not negative. *)
Lemma SFleb_of_Rle (a b : spec_float) :
  nonneg_finite a -> nonneg_finite b ->
  FloatAxioms.valid_binary a = true -> FloatAxioms.valid_binary b = true ->
  SF2R a <= SF2R b -> SFleb a b = true.
Proof.
  intros [->|(ma & ea & ->)] [->|(mb & eb & ->)] Va Vb; cbn [SF2R].
  - reflexivity.
  - reflexivity.
  - pose proof (value_pos ma ea). lra.
  - intros H. unfold SFleb, SFcompare.
    unfold FloatAxioms.valid_binary, SpecFloat.valid_binary,
      SpecFloat.bounded, SpecFloat.canonical_mantissa in Va, Vb.
    apply andb_prop in Va as [Ca _]. apply Z.eqb_eq in Ca.
    apply andb_prop in Vb as [Cb _]. apply Z.eqb_eq in Cb.
    rewrite fexp_eq in Ca, Cb.
    destruct (value_digits ma ea) as (A1 & A2).
    destruct (value_digits mb eb) as (B1 & B2).
    change (Zdigits2 (Z.pos ma)) with (Z.pos (digits2_pos ma)) in A1, A2.
    change (Zdigits2 (Z.pos mb)) with (Z.pos (digits2_pos mb)) in B1, B2.
    destruct (Z.compare_spec ea eb) as [E|E|E]; [|reflexivity|].
    + subst eb.
      change (PosDef.Pos.compare_cont Eq ma mb) with (Pos.compare ma mb).
      destruct (Pos.compare_spec ma mb) as [?|?|G]; try reflexivity.
      exfalso. pose proof (bpow_pos ea).
      assert (IZR (Z.pos mb) < IZR (Z.pos ma)) by (apply IZR_lt; lia).
      nra.
    + exfalso.
      assert (bpow (Z.pos (digits2_pos mb) + eb)
              <= bpow (Z.pos (digits2_pos ma) + ea - 1))
        by (apply bpow_le; lia).
      lra.
Qed.

Lemma leb_of_Rle (a b : float) :
  nonneg a -> nonneg b -> F2R a <= F2R b -> PrimFloat.leb a b = true.
Proof.
  intros A B H. rewrite FloatAxioms.leb_spec.
  apply SFleb_of_Rle; auto using FloatAxioms.Prim2SF_valid.
Qed.


(** ** The rounding errors of [normalize] and [length] *)

Lemma u_val : bpow (-53) = / 9007199254740992.
Proof.
  change (-53)%Z with (Z.opp 53). rewrite bpow_opp, bpow_IZR by lia.
  reflexivity.
Qed.

Lemma eta_small : 0 < bpow (-1075) <= / 1267650600228229401496703205376.
Proof.
  split; [apply bpow_pos|].
  apply Rle_trans with (bpow (-100)); [apply bpow_le; lia|].
  change (-100)%Z with (Z.opp 100). rewrite bpow_opp, bpow_IZR by lia.
  apply Rle_refl.
Qed.

Lemma bpow_971_large : 16 <= bpow 971.
Proof.
  apply Rle_trans with (bpow 4); [|apply bpow_le; lia].
  rewrite bpow_IZR by lia. apply Rle_refl.
Qed.

Lemma F2R_0 : F2R 0 = 0.
Proof. reflexivity. Qed.

Lemma nonneg_0 : nonneg 0.
Proof. left. reflexivity. Qed.

(** A rounded number that is not huge. *)
Lemma rounded_bounds (x : R) (a : float) :
  rounded x (Prim2SF a) -> 0 <= x -> x < 16 ->
  nonneg a
  /\ x * (1 - bpow (-53)) - bpow (-1075) <= F2R a
     <= x * (1 + bpow (-53)) + bpow (-1075).
Proof.
  intros [[_ O]|[N E]] X0 X1.
  - pose proof bpow_971_large. lra.
  - split; [exact N|]. fold (F2R a) in E.
    pose proof (bpow_pos (-53)). pose proof (bpow_pos (-1075)).
    destruct E as [E|[E _]]; apply Rabs_le_inv in E; nra.
Qed.

Lemma add_bounds (a b : float) :
  nonneg a -> nonneg b -> nonneg (a + b) ->
  (F2R a + F2R b) * (1 - bpow (-53)) <= F2R (a + b)
  <= (F2R a + F2R b) * (1 + bpow (-53)).
Proof.
  intros A B C. destruct (add_rounded a b A B) as [[O _]|[_ E]].
  - destruct C as [C|(m & e & C)]; rewrite O in C; discriminate C.
  - apply Rabs_le_inv in E. lra.
Qed.

Lemma add_small (a b : float) :
  nonneg a -> nonneg b -> F2R a + F2R b < 16 -> nonneg (a + b).
Proof.
  intros A B S. destruct (add_rounded a b A B) as [[_ O]|[C _]]; [|exact C].
  pose proof bpow_971_large. lra.
Qed.

(** The sum [0 + a + b + c] of three Numbers that are not negative. *)
Lemma sum3_bounds (a b c : float) :
  nonneg a -> nonneg b -> nonneg c ->
  nonneg (0 + a) -> nonneg (0 + a + b) -> nonneg (0 + a + b + c) ->
  (F2R a + F2R b + F2R c) * (1 - bpow (-53)) ^ 3 <= F2R (0 + a + b + c)
  <= (F2R a + F2R b + F2R c) * (1 + bpow (-53)) ^ 3.
Proof.
  intros A B C N1 N2 N3.
  pose proof (add_bounds 0 a nonneg_0 A N1) as H1. rewrite F2R_0 in H1.
  pose proof (add_bounds _ b N1 B N2) as H2.
  pose proof (add_bounds _ c N2 C N3) as H3.
  apply nonneg_value in A, B, C, N1, N2, N3.
  rewrite u_val in *. lra.
Qed.

Lemma sum3_small (a b c : float) :
  nonneg a -> nonneg b -> nonneg c ->
  F2R a + F2R b + F2R c <= 4 ->
  nonneg (0 + a) /\ nonneg (0 + a + b) /\ nonneg (0 + a + b + c).
Proof.
  intros A B C S.
  pose proof (nonneg_value _ A) as A0. pose proof (nonneg_value _ B) as B0.
  pose proof (nonneg_value _ C) as C0.
  assert (N1 : nonneg (0 + a)).
  { apply add_small; [exact nonneg_0 | exact A | rewrite F2R_0; lra]. }
  pose proof (add_bounds 0 a nonneg_0 A N1) as H1. rewrite F2R_0 in H1.
  rewrite u_val in H1.
  assert (N2 : nonneg (0 + a + b)).
  { apply add_small; [exact N1 | exact B | lra]. }
  pose proof (add_bounds _ b N1 B N2) as H2. rewrite u_val in H2.
  split; [exact N1|]. split; [exact N2|].
  apply add_small; [exact N2 | exact C | lra].
Qed.

(** One field of the normalized vector, squared again by [length]. *)
Lemma component_bounds (X L : float) :
  nonneg X -> (exists m e, Prim2SF L = S754_finite false m e) ->
  F2R X <= 2 * F2R L ->
  let s := PrimFloat.sqrt (X / L) in
  nonneg (s * s)
  /\ F2R X / F2R L * (1 - bpow (-53)) ^ 4 - 3 * bpow (-1075)
     <= F2R (s * s)
     <= F2R X / F2R L * (1 + bpow (-53)) ^ 4 + 3 * bpow (-1075).
Proof.
  intros NX FL Small s.
  assert (Lp : 0 < F2R L).
  { destruct FL as (m & e & E). unfold F2R. rewrite E. apply value_pos. }
  pose proof (nonneg_value _ NX) as X0.
  destruct (Rdiv_cases (F2R X) (F2R L) Lp) as (Er & _).
  set (r := F2R X / F2R L) in *.
  assert (R0 : 0 <= r <= 2).
  { split.
    - apply Rmult_le_reg_r with (F2R L); [exact Lp|]. lra.
    - apply Rmult_le_reg_r with (F2R L); [exact Lp|]. lra. }
  pose proof eta_small as Eta.
  pose proof (div_rounded X L NX FL) as Dq. fold r in Dq.
  assert (R16 : r < 16) by lra.
  destruct (rounded_bounds r _ Dq (proj1 R0) R16) as (Nq & Bq).
  set (q := (X / L)%float) in *.
  pose proof (nonneg_value _ Nq) as Q0.
  destruct (sqrt_rounded q Nq) as (Ns & Es). fold s in Ns, Es.
  apply Rabs_le_inv in Es.
  pose proof (sqrt_pos (F2R q)) as W0.
  pose proof (sqrt_sqrt (F2R q) Q0) as Wq.
  set (w := sqrt (F2R q)) in *.
  pose proof (nonneg_value _ Ns) as S0.
  rewrite u_val in *.
  assert (S2 : F2R q * (1 - / 9007199254740992) ^ 2 <= F2R s * F2R s
               <= F2R q * (1 + / 9007199254740992) ^ 2).
  { rewrite <- Wq. split; nra. }
  assert (S16 : F2R s * F2R s < 16) by lra.
  assert (S00 : 0 <= F2R s * F2R s) by nra.
  destruct (rounded_bounds _ _ (mul_rounded s s Ns Ns) S00 S16)
    as (NS & BS).
  split; [exact NS|]. rewrite u_val in BS. lra.
Qed.

(** [normalize] followed by [length], on the fields: when the squared
    length is finite and above zero, the result is within [2^-50] of 1. *)
Lemma normalized_length_near_1 (v : Vector3) :
  Spec.finite_positive (Fields.lengthSqr v) = true ->
  Spec.within_1 (Fields.length (Fields.normalized v)) = true.
Proof.
  unfold Spec.finite_positive. intros H. apply andb_prop in H as [H0 H1].
  pose proof (finite_above_0 _ H0 H1) as FL.
  assert (NL : nonneg (Fields.lengthSqr v)) by (right; exact FL).
  unfold Fields.lengthSqr in NL.
  set (X := (x v * x v)%float) in *. set (Y := (y v * y v)%float) in *.
  set (Z := (z v * z v)%float) in *.
  destruct (square_like_add 0 X (square_like_nonneg _ nonneg_0)
              (square_like_square _)) as (SL1 & I1).
  destruct (square_like_add _ Y SL1 (square_like_square _)) as (SL2 & I2).
  destruct (square_like_add _ Z SL2 (square_like_square _)) as (_ & I3).
  destruct (I3 NL) as (N2 & NZ). destruct (I2 N2) as (N1 & NY).
  destruct (I1 N1) as (_ & NX).
  pose proof (sum3_bounds X Y Z NX NY NZ N1 N2 NL) as BL.
  set (L := Fields.lengthSqr v) in *.
  change (0 + X + Y + Z)%float with L in BL, NL.
  assert (Lp : 0 < F2R L).
  { destruct FL as (m & e & E). unfold F2R. rewrite E. apply value_pos. }
  pose proof (nonneg_value _ NX) as X0. pose proof (nonneg_value _ NY) as Y0.
  pose proof (nonneg_value _ NZ) as Z0.
  pose proof eta_small as Eta.
  (* the test of [normalize] holds *)
  assert (G : JS.gtb (Fields.length v) 0 = true).
  { unfold JS.gtb, Fields.length, JS.Math_sqrt. fold L.
    destruct (sqrt_rounded L NL) as (Ns & Es). apply Rabs_le_inv in Es.
    apply above_0; [exact Ns|].
    pose proof (sqrt_lt_R0 _ Lp). rewrite u_val in Es. lra. }
  unfold Fields.normalized. rewrite G. fold L X Y Z.
  unfold Fields.length, Fields.lengthSqr, JS.Math_sqrt. cbn [x y z].
  (* the three fields *)
  rewrite u_val in BL.
  destruct (component_bounds X L NX FL ltac:(lra)) as (NSx & Bx).
  destruct (component_bounds Y L NY FL ltac:(lra)) as (NSy & By).
  destruct (component_bounds Z L NZ FL ltac:(lra)) as (NSz & Bz).
  cbv zeta in NSx, NSy, NSz, Bx, By, Bz.
  set (Sx := (PrimFloat.sqrt (X / L) * PrimFloat.sqrt (X / L))%float) in *.
  set (Sy := (PrimFloat.sqrt (Y / L) * PrimFloat.sqrt (Y / L))%float) in *.
  set (Sz := (PrimFloat.sqrt (Z / L) * PrimFloat.sqrt (Z / L))%float) in *.
  destruct (Rdiv_cases (F2R X) (F2R L) Lp) as (Ex & _).
  destruct (Rdiv_cases (F2R Y) (F2R L) Lp) as (Ey & _).
  destruct (Rdiv_cases (F2R Z) (F2R L) Lp) as (Ez & _).
  set (rx := F2R X / F2R L) in *. set (ry := F2R Y / F2R L) in *.
  set (rz := F2R Z / F2R L) in *.
  rewrite u_val in Bx, By, Bz.
  assert (Rho : (rx + ry + rz) * (1 - / 9007199254740992) ^ 3 <= 1
                <= (rx + ry + rz) * (1 + / 9007199254740992) ^ 3).
  { split; apply Rmult_le_reg_r with (F2R L); try exact Lp.
    - replace ((rx + ry + rz) * (1 - / 9007199254740992) ^ 3 * F2R L)
        with ((F2R X + F2R Y + F2R Z) * (1 - / 9007199254740992) ^ 3)
        by (rewrite <- Ex, <- Ey, <- Ez; ring).
      lra.
    - replace ((rx + ry + rz) * (1 + / 9007199254740992) ^ 3 * F2R L)
        with ((F2R X + F2R Y + F2R Z) * (1 + / 9007199254740992) ^ 3)
        by (rewrite <- Ex, <- Ey, <- Ez; ring).
      lra. }
  pose proof (nonneg_value _ NSx) as Sx0.
  pose proof (nonneg_value _ NSy) as Sy0.
  pose proof (nonneg_value _ NSz) as Sz0.
  destruct (sum3_small Sx Sy Sz NSx NSy NSz ltac:(lra)) as (M1 & M2 & M3).
  pose proof (sum3_bounds Sx Sy Sz NSx NSy NSz M1 M2 M3) as BM.
  rewrite u_val in BM.
  set (M := (0 + Sx + Sy + Sz)%float) in *.
  destruct (sqrt_rounded M M3) as (Nl & El). apply Rabs_le_inv in El.
  rewrite u_val in El.
  assert (Q : (1 - 6 * / 9007199254740992) <= sqrt (F2R M)
              <= (1 + 6 * / 9007199254740992)).
  { split.
    - rewrite <- (sqrt_square (1 - 6 * / 9007199254740992)) by lra.
      apply sqrt_le_1_alt. lra.
    - rewrite <- (sqrt_square (1 + 6 * / 9007199254740992)) by lra.
      apply sqrt_le_1_alt. lra. }
  unfold Spec.within_1. apply andb_true_intro. split.
  - assert (C : Prim2SF (1 - 0x1p-50)
                = S754_finite false 9007199254740984 (-53))
      by (vm_compute; reflexivity).
    apply leb_of_Rle; [right; eauto | exact Nl |].
    unfold F2R at 1. rewrite C. cbn [SF2R]. rewrite u_val. lra.
  - assert (C : Prim2SF (1 + 0x1p-50)
                = S754_finite false 4503599627370500 (-52))
      by (vm_compute; reflexivity).
    apply leb_of_Rle; [exact Nl | right; eauto |].
    unfold F2R at 2. rewrite C. cbn [SF2R].
    replace (bpow (-52)) with (/ 4503599627370496).
    2:{ change (-52)%Z with (Z.opp 52). rewrite bpow_opp, bpow_IZR by lia.
        reflexivity. }
    lra.
Qed.

End Binary64_facts.

(** ** normalize: the length of the result *)

Module Normalize_facts.

Lemma is_zero_cases (a : float) :
  PrimFloat.is_zero a = true -> a = 0%float \/ a = (-0)%float.
Proof.
  unfold PrimFloat.is_zero. rewrite FloatAxioms.eqb_spec.
  change (Prim2SF 0) with (S754_zero false). intros H.
  assert (E : exists s, Prim2SF a = S754_zero s).
  { destruct (Prim2SF a) as [s|[]| |[] m e]; try discriminate H.
    exists s. reflexivity. }
  destruct E as [s E]. apply (f_equal SF2Prim) in E.
  rewrite SF2Prim_Prim2SF in E. subst a.
  destruct s; [right | left]; reflexivity.
Qed.

(** In binary64 a vector whose three fields are zeros, of either sign, is
    left as it is; its length is 0. *)
Lemma zero_vector_unchanged (h : heap) (l : loc) (v : Vector3) :
  h !! l = Some (OVector3 v) ->
  PrimFloat.is_zero (x v) = true ->
  PrimFloat.is_zero (y v) = true ->
  PrimFloat.is_zero (z v) = true ->
  Spec.clone_normalize_length l h = Some (0%float, h ++ [OVector3 v]).
Proof.
  intros E Zx Zy Zz. unfold Spec.clone_normalize_length.
  rewrite (bind_Some _ _ _ _ _ (Vector3_facts.clone_Some _ _ _ E)).
  assert (E' : (h ++ [OVector3 v]) !! length h = Some (OVector3 v))
    by (apply list_lookup_middle; reflexivity).
  rewrite (bind_Some _ _ _ _ _ (Vector3_facts.normalize_Some _ _ _ E')).
  rewrite (Vector3_facts.length_Some _ _ (Fields.normalized v)
             (lookup_written _ _ _ _ E')).
  rewrite Vector3_facts.insert_last.
  destruct v as [a b c]. cbn [x y z] in Zx, Zy, Zz.
  destruct (is_zero_cases _ Zx) as [-> | ->],
           (is_zero_cases _ Zy) as [-> | ->],
           (is_zero_cases _ Zz) as [-> | ->]; vm_compute; reflexivity.
Qed.

(** [v.clone().normalize().length()] on any store: a clone is appended
    and normalized, and its length is returned. *)
Lemma clone_normalize_length_Some (h : heap) (l : loc) (v : Vector3) :
  h !! l = Some (OVector3 v) ->
  Spec.clone_normalize_length l h
  = Some (Fields.length (Fields.normalized v),
          h ++ [OVector3 (Fields.normalized v)]).
Proof.
  intros E. unfold Spec.clone_normalize_length.
  rewrite (bind_Some _ _ _ _ _ (Vector3_facts.clone_Some _ _ _ E)).
  assert (E' : (h ++ [OVector3 v]) !! length h = Some (OVector3 v))
    by (apply list_lookup_middle; reflexivity).
  rewrite (bind_Some _ _ _ _ _ (Vector3_facts.normalize_Some _ _ _ E')).
  rewrite (Vector3_facts.length_Some _ _ (Fields.normalized v)
             (lookup_written _ _ _ _ E')).
  rewrite Vector3_facts.insert_last. reflexivity.
Qed.

End Normalize_facts.

(** ** The constructor of Sphere *)

Module Constructor_facts.
Import Value.

(** A Number is finite exactly when it is not NaN and equal to neither
    infinity. *)
Lemma is_finite_checks (n : float) :
  JS.is_finite n
  = negb (PrimFloat.is_nan n)
    && negb (PrimFloat.eqb n PrimFloat.infinity)
    && negb (PrimFloat.eqb n PrimFloat.neg_infinity).
Proof.
  unfold JS.is_finite, PrimFloat.is_infinity.
  destruct (PrimFloat.is_nan n) eqn:N; [reflexivity|]. cbn [negb andb].
  rewrite !FloatAxioms.eqb_spec, FloatAxioms.abs_spec.
  change (Prim2SF PrimFloat.infinity) with (S754_infinity false).
  change (Prim2SF PrimFloat.neg_infinity) with (S754_infinity true).
  destruct (Prim2SF n) as [s|[]| |[] m e]; reflexivity.
Qed.

(** A disjunction of tests one of which holds. *)
Ltac settle :=
  cbn [orb]; repeat (rewrite ?orb_true_r; cbn [orb]); try reflexivity.

Section Constructor_facts.

Variable StringToNumber : string -> float.

(** [isNaN] of a field: it throws on a BigInt and a Symbol, and otherwise
    tells whether the field converts to NaN. *)
Lemma isNaN_field (f : prim) :
  isNaN StringToNumber (Prim f)
  = if Spec.unconvertible f then TypeError
    else Normal (Spec.converts_to_NaN StringToNumber f).
Proof. destruct f as [| |[]| | | |]; reflexivity. Qed.

Lemma unconvertible_default_0 (f : prim) :
  Spec.unconvertible (default_0 f) = Spec.unconvertible f.
Proof. destruct f; reflexivity. Qed.

(** The test on the three fields, with its short circuit. *)
Lemma any_field_isNaN_cases (a b c : prim) :
  Constructor.any_field_isNaN StringToNumber (Vector3Instance a b c)
  = if Spec.reaches_unconvertible StringToNumber a b c then TypeError
    else Normal (Spec.converts_to_NaN StringToNumber a
                 || Spec.converts_to_NaN StringToNumber b
                 || Spec.converts_to_NaN StringToNumber c).
Proof.
  unfold Constructor.any_field_isNaN, Spec.reaches_unconvertible.
  cbn [field_x field_y field_z]. rewrite !isNaN_field.
  destruct (Spec.unconvertible a); [reflexivity|].
  destruct (Spec.converts_to_NaN StringToNumber a); [reflexivity|].
  destruct (Spec.unconvertible b); [reflexivity|].
  destruct (Spec.converts_to_NaN StringToNumber b); [reflexivity|].
  destruct (Spec.unconvertible c); [reflexivity|].
  destruct (Spec.converts_to_NaN StringToNumber c); reflexivity.
Qed.

(** The radius after the first assignment, and the two tests on it: the
    first keeps a Number other than NaN, so the second never holds, and
    neither throws. *)
Lemma radius_tests (radius : value) :
  let r := match radius with
           | Prim (Number n) =>
               if PrimFloat.is_nan n then Prim (Number 1) else radius
           | _ => Prim (Number 1)
           end in
  and_then (Normal (String.eqb (typeof radius) "number"))
           (lnot (isNaN StringToNumber radius))
  = Normal (match radius with
            | Prim (Number n) => negb (PrimFloat.is_nan n)
            | _ => false
            end)
  /\ (if match radius with
         | Prim (Number n) => negb (PrimFloat.is_nan n)
         | _ => false
         end then radius else Prim (Number 1)) = r
  /\ or_else (Normal (negb (String.eqb (typeof r) "number")))
             (isNaN StringToNumber r) = Normal false.
Proof.
  destruct radius as [[| |b|n|s|i|i]| |]; cbn; try (repeat split; reflexivity).
  destruct (PrimFloat.is_nan n) eqn:N; cbn; repeat split; try reflexivity.
  rewrite N. reflexivity.
Qed.

(** What a call of the constructor does.  With [c] the clone of the
    argument, or the zero vector when the argument is no [Vector3]: the
    call throws when the test for NaN reaches a BigInt or a Symbol among
    the fields of [c]; otherwise it returns, the centre is [c] or, when a
    field of [c] is refused, the zero vector, the radius is the argument
    when that is a Number other than NaN and 1 otherwise, and at most one
    warning is written. *)
Lemma constructor_cases (center radius : value) :
  Constructor.constructor StringToNumber center radius
  = let c := if instanceof_Vector3 center then clone center
             else zero_vector in
    if Spec.reaches_unconvertible StringToNumber
         (field_x c) (field_y c) (field_z c)
    then TypeError
    else
      Normal
        (Constructor.mkInstance
           (if Spec.refuses StringToNumber (field_x c)
               || Spec.refuses StringToNumber (field_y c)
               || Spec.refuses StringToNumber (field_z c)
            then zero_vector else c)
           (match radius with
            | Prim (Number n) =>
                if PrimFloat.is_nan n then Prim (Number 1) else radius
            | _ => Prim (Number 1)
            end)
           (if Constructor.any_field (Spec.converts_to_NaN StringToNumber) c
            then ["Invalid center components provided. Setting to default zero vector."%string]
            else if Constructor.any_field (fun p => strict_eq p Null) c
            then ["Center vector components cannot be null. Setting to default zero vector."%string]
            else if Constructor.any_field
                      (fun p => strict_eq p (Number PrimFloat.infinity)) c
            then ["Center vector components cannot be infinite. Setting to default zero vector."%string]
            else if Constructor.any_field
                      (fun p => strict_eq p (Number PrimFloat.neg_infinity)) c
            then ["Center vector components cannot be negative infinite. Setting to default zero vector."%string]
            else [])).
Proof.
  unfold Constructor.constructor. cbv zeta.
  destruct (radius_tests radius) as (T1 & T2 & T3). cbv zeta in T3.
  rewrite T1. cbn [bind]. rewrite T2, T3.
  change zero_vector with (new_Vector3 (Number 0) (Number 0) (Number 0)).
  set (c := if instanceof_Vector3 center then clone center
            else new_Vector3 (Number 0) (Number 0) (Number 0)).
  assert (exists a b d, c = Vector3Instance (default_0 a) (default_0 b)
                                            (default_0 d))
    as (a & b & d & E).
  { unfold c. destruct (instanceof_Vector3 center);
      unfold clone, new_Vector3; eauto. }
  rewrite E. cbn [instanceof_Vector3 negb field_x field_y field_z].
  rewrite any_field_isNaN_cases.
  destruct (Spec.reaches_unconvertible _ _ _ _); [reflexivity|].
  cbn [bind]. unfold Constructor.any_field, Spec.refuses.
  cbn [field_x field_y field_z].
  assert (U : forall f, strict_eq (default_0 f) Undefined = false)
    by (intros f; destruct f; reflexivity).
  rewrite !U.
  destruct (Spec.converts_to_NaN StringToNumber (default_0 a)),
           (Spec.converts_to_NaN StringToNumber (default_0 b)),
           (Spec.converts_to_NaN StringToNumber (default_0 d)); settle.
  destruct (strict_eq (default_0 a) Null),
           (strict_eq (default_0 b) Null),
           (strict_eq (default_0 d) Null); settle.
  destruct (strict_eq (default_0 a) (Number infinity)),
           (strict_eq (default_0 b) (Number infinity)),
           (strict_eq (default_0 d) (Number infinity)); settle.
  destruct (strict_eq (default_0 a) (Number neg_infinity)),
           (strict_eq (default_0 b) (Number neg_infinity)),
           (strict_eq (default_0 d) (Number neg_infinity)); settle.
Qed.

Lemma refuses_number (n : float) :
  Spec.refuses StringToNumber (Number n) = negb (JS.is_finite n).
Proof.
  rewrite is_finite_checks. unfold Spec.refuses, Spec.converts_to_NaN. cbn.
  destruct (PrimFloat.is_nan n), (PrimFloat.eqb n PrimFloat.infinity),
           (PrimFloat.eqb n PrimFloat.neg_infinity); reflexivity.
Qed.

Lemma default_0_defined (f : prim) : f <> Undefined -> default_0 f = f.
Proof. destruct f; intros H; try reflexivity. contradiction. Qed.

End Constructor_facts.
End Constructor_facts.

Module Constructor_returns.
Import Value.

Section Constructor_returns.

Variable StringToNumber : string -> float.

(** The test for NaN throws only on a BigInt or a Symbol. *)
Lemma reaches_some_unconvertible (a b c : prim) :
  Spec.reaches_unconvertible StringToNumber a b c = true ->
  Spec.unconvertible a || Spec.unconvertible b || Spec.unconvertible c
  = true.
Proof.
  unfold Spec.reaches_unconvertible.
  destruct (Spec.unconvertible a), (Spec.unconvertible b),
           (Spec.unconvertible c); try reflexivity.
  rewrite !andb_false_r. intros H. exact H.
Qed.

(** Fields that the tests let through are neither BigInts nor Symbols. *)
Lemma accepted_convertible (a b c : prim) :
  Spec.reaches_unconvertible StringToNumber a b c = false ->
  Spec.refuses StringToNumber a = false ->
  Spec.refuses StringToNumber b = false ->
  Spec.unconvertible a = false /\ Spec.unconvertible b = false
  /\ Spec.unconvertible c = false.
Proof.
  unfold Spec.reaches_unconvertible, Spec.refuses. intros R Ra Rb.
  destruct (Spec.converts_to_NaN StringToNumber a); [discriminate Ra|].
  destruct (Spec.converts_to_NaN StringToNumber b); [discriminate Rb|].
  destruct (Spec.unconvertible a); [discriminate R|].
  destruct (Spec.unconvertible b); [discriminate R|].
  destruct (Spec.unconvertible c); [discriminate R|]. auto.
Qed.

(** The clone of the argument, or the zero vector: a [Vector3] whose fields
    went through the default parameters. *)
Lemma first_center (center : value) :
  exists a b c,
    (if instanceof_Vector3 center then clone center else zero_vector)
    = Vector3Instance (default_0 a) (default_0 b) (default_0 c)
    /\ (center = Vector3Instance a b c
        \/ instanceof_Vector3 center = false
           /\ a = Number 0 /\ b = Number 0 /\ c = Number 0).
Proof.
  destruct center as [p|a b c|].
  - exists (Number 0), (Number 0), (Number 0). split; [reflexivity|].
    right. repeat split.
  - exists a, b, c. split; [reflexivity|]. left. reflexivity.
  - exists (Number 0), (Number 0), (Number 0). split; [reflexivity|].
    right. repeat split.
Qed.

(** The fields of the centre of a new sphere are not refused. *)
Lemma center_accepted (center radius : value) (s : Constructor.instance) :
  Constructor.constructor StringToNumber center radius = Normal s ->
  exists a b c,
    Constructor.center s = Vector3Instance a b c
    /\ Spec.refuses StringToNumber a = false
    /\ Spec.refuses StringToNumber b = false
    /\ Spec.refuses StringToNumber c = false
    /\ Spec.unconvertible a = false
    /\ Spec.unconvertible b = false
    /\ Spec.unconvertible c = false.
Proof.
  rewrite Constructor_facts.constructor_cases. cbv zeta.
  destruct (first_center center) as (a & b & c & -> & _).
  cbn [field_x field_y field_z].
  destruct (Spec.reaches_unconvertible _ _ _ _) eqn:R; [discriminate|].
  intros [= <-]. cbn [Constructor.center].
  destruct (Spec.refuses StringToNumber (default_0 a)) eqn:Ra;
    [|destruct (Spec.refuses StringToNumber (default_0 b)) eqn:Rb;
      [|destruct (Spec.refuses StringToNumber (default_0 c)) eqn:Rc]];
    cbn [orb].
  1-3: exists (Number 0), (Number 0), (Number 0); repeat split; reflexivity.
  destruct (accepted_convertible _ _ _ R Ra Rb) as (Ua & Ub & Uc).
  exists (default_0 a), (default_0 b), (default_0 c). repeat split; assumption.
Qed.

Lemma refuses_false (f : prim) :
  Spec.refuses StringToNumber f = false ->
  Spec.converts_to_NaN StringToNumber f = false
  /\ strict_eq f Undefined = false
  /\ strict_eq f Null = false
  /\ strict_eq f (Number PrimFloat.infinity) = false
  /\ strict_eq f (Number PrimFloat.neg_infinity) = false.
Proof.
  unfold Spec.refuses. intros H.
  repeat (apply orb_false_elim in H as [H ?]). auto.
Qed.

End Constructor_returns.
End Constructor_returns.

(** * The claims of the specification *)

(** C1: [normalize] does not keep the signs.  Whenever it rescales (the
    length is above zero), no field of the result is below zero, whatever
    the signs were: each field becomes the square root of its square divided
    by the squared length, not the field divided by the length. *)
Theorem normalize_drops_signs (h : heap) (l : loc) (v : Vector3) :
  h !! l = Some (OVector3 v) ->
  JS.gtb (Fields.length v) 0 = true ->
  exists h' v',
    Vector3.normalize l h = Some (l, h')
    /\ h' !! l = Some (OVector3 v')
    /\ PrimFloat.ltb (x v') 0 = false
    /\ PrimFloat.ltb (y v') 0 = false
    /\ PrimFloat.ltb (z v') 0 = false.
Proof.
  intros E G. eexists _, _.
  split; [apply (Vector3_facts.normalize_Some _ _ _ E)|].
  split; [apply (lookup_written _ _ _ _ E)|].
  unfold Fields.normalized. rewrite G. cbn [x y z].
  auto using Number_facts.sqrt_not_negative.
Qed.

(** The vector (-1,0,0): its length is 1, and [normalize] makes it
    (1,0,0). *)
Lemma normalize_drops_signs_witness :
  [OVector3 (mkVector3 (-1) 0 0)] !! 0%nat
  = Some (OVector3 (mkVector3 (-1) 0 0))
  /\ JS.gtb (Fields.length (mkVector3 (-1) 0 0)) 0 = true
  /\ Vector3.normalize 0 [OVector3 (mkVector3 (-1) 0 0)]
     = Some (0%nat, [OVector3 (mkVector3 1 0 0)])
  /\ exists h' v',
       Vector3.normalize 0 [OVector3 (mkVector3 (-1) 0 0)] = Some (0%nat, h')
       /\ h' !! 0%nat = Some (OVector3 v')
       /\ PrimFloat.ltb (x v') 0 = false
       /\ PrimFloat.ltb (y v') 0 = false
       /\ PrimFloat.ltb (z v') 0 = false.
Proof.
  split; [reflexivity|]. split; [vm_compute; reflexivity|].
  split; [vm_compute; reflexivity|].
  apply (normalize_drops_signs _ _ (mkVector3 (-1) 0 0));
    [reflexivity | vm_compute; reflexivity].
Defined.

(** C2: the unit sphere at the origin and the ray from (0,0,-5) towards
    (0,0,1).  [raycast] returns a hit at (0,0,-1) at distance 4, but the
    normal it returns is (0,0,1), not (0,0,-1): [normalize] takes the square
    root of the squares of the fields, which drops their signs. *)
Theorem raycast_axis_normal :
  Sphere.raycast_scene (mkVector3 0 0 0) 1 (mkVector3 0 0 (-5))
                       (mkVector3 0 0 1)
  = Some (Sphere.mkOutcome true (Some (mkVector3 0 0 (-1)))
                           (Some (mkVector3 0 0 1)) (Some 4%float)).
Proof. vm_compute. reflexivity. Qed.

(** C3, as the specification states it, fails in four ways.  Construction
    throws when a field of the centre is a Symbol (or a BigInt): [isNaN]
    cannot convert it.  The centre is not always a vector of finite
    Numbers: a field [true] is kept.  A missing field does not give the
    zero vector: [clone] makes it 0 and the other fields are kept.  And a
    radius that is negative or infinite is kept.  (The conversion of
    strings plays no part; it is taken constant.) *)
Lemma constructor_counterexamples :
  Constructor.constructor (fun _ => PrimFloat.nan)
    (Value.Vector3Instance (Value.Symbol 0) (Value.Number 0)
                           (Value.Number 0))
    (Value.Prim (Value.Number 1))
  = Value.TypeError
  /\ Constructor.constructor (fun _ => PrimFloat.nan)
       (Value.Vector3Instance (Value.Boolean true) (Value.Number 0)
                              (Value.Number 0))
       (Value.Prim (Value.Number 1))
     = Value.Normal
         (Constructor.mkInstance
            (Value.Vector3Instance (Value.Boolean true) (Value.Number 0)
                                   (Value.Number 0))
            (Value.Prim (Value.Number 1)) [])
  /\ Constructor.constructor (fun _ => PrimFloat.nan)
       (Value.Vector3Instance Value.Undefined (Value.Number 2)
                              (Value.Number 3))
       (Value.Prim (Value.Number 1))
     = Value.Normal
         (Constructor.mkInstance
            (Value.Vector3Instance (Value.Number 0) (Value.Number 2)
                                   (Value.Number 3))
            (Value.Prim (Value.Number 1)) [])
  /\ Constructor.constructor (fun _ => PrimFloat.nan)
       (Value.Vector3Instance (Value.Number 0) (Value.Number 0)
                              (Value.Number 0))
       (Value.Prim (Value.Number (-1)))
     = Value.Normal
         (Constructor.mkInstance
            (Value.Vector3Instance (Value.Number 0) (Value.Number 0)
                                   (Value.Number 0))
            (Value.Prim (Value.Number (-1))) [])
  /\ Constructor.constructor (fun _ => PrimFloat.nan)
       (Value.Vector3Instance (Value.Number 0) (Value.Number 0)
                              (Value.Number 0))
       (Value.Prim (Value.Number PrimFloat.infinity))
     = Value.Normal
         (Constructor.mkInstance
            (Value.Vector3Instance (Value.Number 0) (Value.Number 0)
                                   (Value.Number 0))
            (Value.Prim (Value.Number PrimFloat.infinity)) []).
Proof. repeat split; vm_compute; reflexivity. Qed.

(** C3, amended.  The constructor throws exactly when the centre given is
    a [Vector3] and the test [isNaN(x) || isNaN(y) || isNaN(z)] on the
    fields of its clone reaches a BigInt or a Symbol; in particular it
    returns whenever no field of the centre is a BigInt or a Symbol.  When
    it returns, the centre of the new sphere is a [Vector3] none of whose
    fields is refused (converts to NaN, is [undefined], [null] or an
    infinity) or is a BigInt or a Symbol, so that a field that is a Number
    is finite; it is the zero vector when the argument is not a [Vector3],
    or has a field other than [undefined] that is refused, and it has the
    fields of the argument when these are finite Numbers.  The radius is a
    Number other than NaN: the argument when it is one, and 1 otherwise.
    In particular [new Sphere(null, "bad")] returns, with the centre
    (0,0,0) and the radius 1. *)
Theorem constructor_defaults (StringToNumber : string -> float) :
  (forall center radius : Value.value,
      (Constructor.constructor StringToNumber center radius
       = Value.TypeError
       <-> exists a b c,
             center = Value.Vector3Instance a b c
             /\ Spec.reaches_unconvertible StringToNumber
                  (Value.default_0 a) (Value.default_0 b)
                  (Value.default_0 c) = true)
      /\ ((forall a b c,
              center = Value.Vector3Instance a b c ->
              Spec.unconvertible a = false /\ Spec.unconvertible b = false
              /\ Spec.unconvertible c = false) ->
          exists s,
            Constructor.constructor StringToNumber center radius
            = Value.Normal s)
      /\ forall s,
          Constructor.constructor StringToNumber center radius
          = Value.Normal s ->
          (exists a b c,
              Constructor.center s = Value.Vector3Instance a b c
              /\ Spec.refuses StringToNumber a = false
              /\ Spec.refuses StringToNumber b = false
              /\ Spec.refuses StringToNumber c = false
              /\ Spec.unconvertible a = false
              /\ Spec.unconvertible b = false
              /\ Spec.unconvertible c = false
              /\ (forall n, a = Value.Number n \/ b = Value.Number n
                            \/ c = Value.Number n -> JS.is_finite n = true))
          /\ (Value.instanceof_Vector3 center = false ->
              Constructor.center s = Value.zero_vector)
          /\ (forall a b c,
                 center = Value.Vector3Instance a b c ->
                 (a <> Value.Undefined /\ Spec.refuses StringToNumber a = true)
                 \/ (b <> Value.Undefined /\ Spec.refuses StringToNumber b = true)
                 \/ (c <> Value.Undefined /\ Spec.refuses StringToNumber c = true) ->
                 Constructor.center s = Value.zero_vector)
          /\ (forall a b c,
                 center = Value.Vector3Instance (Value.Number a) (Value.Number b)
                                                (Value.Number c) ->
                 JS.is_finite a = true -> JS.is_finite b = true ->
                 JS.is_finite c = true ->
                 Constructor.center s = center)
          /\ (exists n, Constructor.radius s = Value.Prim (Value.Number n)
                        /\ PrimFloat.is_nan n = false)
          /\ (forall n, radius = Value.Prim (Value.Number n) ->
                        PrimFloat.is_nan n = false ->
                        Constructor.radius s = radius)
          /\ ((forall n, radius = Value.Prim (Value.Number n) ->
                         PrimFloat.is_nan n = true) ->
              Constructor.radius s = Value.Prim (Value.Number 1)))
  /\ (exists s,
         Constructor.constructor StringToNumber
           (Value.Prim Value.Null) (Value.Prim (Value.String "bad"))
         = Value.Normal s
         /\ Constructor.center s
            = Value.Vector3Instance (Value.Number 0) (Value.Number 0)
                                    (Value.Number 0)
         /\ Constructor.radius s = Value.Prim (Value.Number 1)).
Proof.
  split; [|eexists; split; [reflexivity|split; reflexivity]].
  intros center radius.
  assert (T : Constructor.constructor StringToNumber center radius
              = Value.TypeError
              <-> exists a b c,
                    center = Value.Vector3Instance a b c
                    /\ Spec.reaches_unconvertible StringToNumber
                         (Value.default_0 a) (Value.default_0 b)
                         (Value.default_0 c) = true).
  { rewrite Constructor_facts.constructor_cases. cbv zeta.
    destruct center as [p|a b c|]; cbn.
    - split; [discriminate|]. intros (a & b & c & E & _). discriminate E.
    - destruct (Spec.reaches_unconvertible _ _ _ _) eqn:R; split.
      + intros _. exists a, b, c. auto.
      + reflexivity.
      + discriminate.
      + intros (a' & b' & c' & [= <- <- <-] & R'). congruence.
    - split; [discriminate|]. intros (a & b & c & E & _). discriminate E. }
  split; [exact T|]. split.
  { intros U.
    destruct (Constructor.constructor StringToNumber center radius) as [s|]
      eqn:E; [exists s; reflexivity|].
    destruct (proj1 T eq_refl) as (a & b & c & -> & R).
    apply Constructor_returns.reaches_some_unconvertible in R.
    rewrite !Constructor_facts.unconvertible_default_0 in R.
    destruct (U a b c eq_refl) as (Ua & Ub & Uc).
    rewrite Ua, Ub, Uc in R. discriminate R. }
  intros s H.
  destruct (Constructor_returns.center_accepted _ _ _ _ H)
    as (a & b & c & Ec & Ra & Rb & Rc & Ua & Ub & Uc).
  rewrite Constructor_facts.constructor_cases in H. cbv zeta in H.
  destruct (Spec.reaches_unconvertible _ _ _ _) eqn:R; [discriminate H|].
  injection H as <-. cbn [Constructor.center Constructor.radius] in *.
  repeat apply conj.
  - exists a, b, c. repeat split; try assumption.
    intros n [-> |[-> | ->]];
      rewrite Constructor_facts.refuses_number in *;
      match goal with
      | H : negb (JS.is_finite n) = false |- _ =>
          destruct (JS.is_finite n); [reflexivity | discriminate H]
      end.
  - intros ->. reflexivity.
  - intros a' b' c' -> H. cbn [Value.instanceof_Vector3].
    unfold Value.clone, Value.new_Vector3.
    cbn [Value.field_x Value.field_y Value.field_z].
    destruct H as [[N Rf]|[[N Rf]|[N Rf]]];
      rewrite (Constructor_facts.default_0_defined _ N), Rf;
      rewrite ?orb_true_r; reflexivity.
  - intros a' b' c' -> Fa Fb Fc. cbn [Value.instanceof_Vector3].
    unfold Value.clone, Value.new_Vector3.
    cbn [Value.field_x Value.field_y Value.field_z Value.default_0].
    rewrite !Constructor_facts.refuses_number, Fa, Fb, Fc. reflexivity.
  - destruct radius as [[| |q|n|t|i|i]| |];
      try (exists 1%float; split; reflexivity).
    destruct (PrimFloat.is_nan n) eqn:N.
    + exists 1%float. split; reflexivity.
    + exists n. split; [reflexivity | exact N].
  - intros n -> N. rewrite N. reflexivity.
  - intros H. destruct radius as [[| |q|n|t|i|i]| |]; try reflexivity.
    rewrite (H n eq_refl). reflexivity.
Qed.

(** [new Sphere(new Vector3(1, 2, 3), 2)] returns and keeps its
    arguments. *)
Lemma constructor_defaults_witness :
  exists s,
    Constructor.constructor (fun _ => PrimFloat.nan)
      (Value.Vector3Instance (Value.Number 1) (Value.Number 2)
                             (Value.Number 3))
      (Value.Prim (Value.Number 2)) = Value.Normal s
    /\ Constructor.center s
       = Value.Vector3Instance (Value.Number 1) (Value.Number 2)
                               (Value.Number 3)
    /\ Constructor.radius s = Value.Prim (Value.Number 2).
Proof.
  destruct (proj1 (constructor_defaults (fun _ => PrimFloat.nan))
              (Value.Vector3Instance (Value.Number 1) (Value.Number 2)
                                     (Value.Number 3))
              (Value.Prim (Value.Number 2)))
    as (_ & Hs & H).
  destruct Hs as (s & E).
  { intros a b c [= <- <- <-]. repeat split. }
  exists s. split; [exact E|].
  destruct (H s E) as (_ & _ & _ & Hc & _ & Hr & _).
  split.
  - apply (Hc 1%float 2%float 3%float); reflexivity.
  - apply (Hr 2%float); reflexivity.
Defined.

(** C4: for every sphere and ray, [raycast] follows the rule of the
    discriminant and of the choice of the root.  With
    [delta = b * b - 4 * a * c]: when [delta < 0] the result is no hit;
    otherwise both roots [t1 = (-b - sqrt delta) / (2 a)] and
    [t2 = (-b + sqrt delta) / (2 a)] are computed, the value chosen among
    them is the smallest one above zero, the result is no hit when there is
    none, and the distance of a hit is the chosen value.  (The direction of
    the ray need not be assumed different from zero.) *)
Theorem raycast_root_selection (h : heap) (this ray : loc)
    (C : Vector3) (r : float) (O D : Vector3) :
  well_formed h this ray C r O D ->
  exists res h' out,
    Sphere.raycast this ray h = Some (res, h')
    /\ Sphere.observe h' res = Some out
    /\ let a := Quantities.a D in
       let b := Quantities.b C O D in
       let c := Quantities.c C r O in
       let delta := (b * b - 4 * a * c)%float in
       let t1 := ((- b - JS.Math_sqrt delta) / (2 * a))%float in
       let t2 := ((- b + JS.Math_sqrt delta) / (2 * a))%float in
       (PrimFloat.ltb delta 0 = true ->
        out = Sphere.mkOutcome false None None None)
       /\ (PrimFloat.ltb delta 0 = false ->
           Spec.smallest_positive_root t1 t2 (Sphere.select_t t1 t2)
           /\ (Sphere.select_t t1 t2 = None ->
               out = Sphere.mkOutcome false None None None)
           /\ (Sphere.o_hit out = true ->
               Sphere.o_distance out = Sphere.select_t t1 t2)).
Proof.
  intros W.
  destruct (Raycast_facts.raycast_outcome _ _ _ _ _ _ _ W)
    as (res & h' & R & Ob).
  exists res, h', (Quantities.outcome C r O D).
  split; [exact R|]. split; [exact Ob|]. cbv zeta.
  unfold Quantities.outcome, Quantities.selected, Quantities.discriminant,
    Quantities.t1, Quantities.t2, Quantities.discriminant,
    Sphere.discriminant, Sphere.root1, Sphere.root2.
  split.
  - intros Hlt. rewrite Hlt. reflexivity.
  - intros Hge. rewrite Hge. split; [apply select_t_smallest|]. split.
    + intros Hn. rewrite Hn. reflexivity.
    + destruct (Sphere.select_t _ _) as [t|]; [|discriminate].
      destruct (Quantities.rejected C r O t); [discriminate|].
      reflexivity.
Qed.

(** The unit sphere at the origin and the ray from (0,0,-5) towards
    (0,0,1): the roots are 4 and 6, and the distance is 4. *)
Lemma raycast_root_selection_witness :
  well_formed
    (Sphere.scene (mkVector3 0 0 0) 1 (mkVector3 0 0 (-5)) (mkVector3 0 0 1))
    1 4 (mkVector3 0 0 0) 1 (mkVector3 0 0 (-5)) (mkVector3 0 0 1)
  /\ exists res h' out,
       Sphere.raycast 1 4
         (Sphere.scene (mkVector3 0 0 0) 1 (mkVector3 0 0 (-5))
                       (mkVector3 0 0 1))
       = Some (res, h')
       /\ Sphere.observe h' res = Some out
       /\ Sphere.o_distance out = Some 4%float.
Proof.
  assert (W : well_formed
    (Sphere.scene (mkVector3 0 0 0) 1 (mkVector3 0 0 (-5)) (mkVector3 0 0 1))
    1 4 (mkVector3 0 0 0) 1 (mkVector3 0 0 (-5)) (mkVector3 0 0 1)).
  { split; [exists (mkSphere 0 1) | exists (mkRay 2 3)]; repeat split. }
  split; [exact W|].
  destruct (raycast_root_selection _ _ _ _ _ _ _ W)
    as (res & h' & out & R & Ob & _ & S).
  exists res, h', out. repeat split; try assumption.
  destruct (S eq_refl) as (_ & _ & Hd).
  vm_compute in R. injection R as <- <-.
  vm_compute in Ob. injection Ob as <-.
  exact (Hd eq_refl).
Defined.

(** C5: when the origin of the ray is inside the sphere, that is when the
    length of the vector from the origin to the centre is below the radius,
    [raycast] returns no hit, also when a root above zero exists.  For the
    unit sphere at the origin and the ray from (0,0,0) towards (0,0,1) the
    chosen root is 1 and the result is no hit. *)
Theorem raycast_origin_inside :
  (forall (h : heap) (this ray : loc) (C : Vector3) (r : float)
          (O D : Vector3),
      well_formed h this ray C r O D ->
      PrimFloat.ltb (Fields.length (Fields.difference C O)) r = true ->
      exists res h',
        Sphere.raycast this ray h = Some (res, h')
        /\ Sphere.observe h' res
           = Some (Sphere.mkOutcome false None None None))
  /\ Quantities.selected (mkVector3 0 0 0) 1 (mkVector3 0 0 0)
                         (mkVector3 0 0 1) = Some 1%float
  /\ Sphere.raycast_scene (mkVector3 0 0 0) 1 (mkVector3 0 0 0)
                          (mkVector3 0 0 1)
     = Some (Sphere.mkOutcome false None None None).
Proof.
  split; [|split; vm_compute; reflexivity].
  intros h this ray C r O D W I.
  destruct (Raycast_facts.raycast_outcome _ _ _ _ _ _ _ W)
    as (res & h' & R & Ob).
  exists res, h'. split; [exact R|]. rewrite Ob. f_equal.
  unfold Quantities.outcome.
  destruct (Quantities.selected C r O D) as [t|] eqn:St; [|reflexivity].
  rewrite (Raycast_facts.rejected_inside _ _ _ _ _ St).
  unfold Quantities.origin_inside, Quantities.originToCenter.
  rewrite I. reflexivity.
Qed.

(** The unit sphere at the origin and the ray from its centre. *)
Lemma raycast_origin_inside_witness :
  exists res h',
    Sphere.raycast 1 4
      (Sphere.scene (mkVector3 0 0 0) 1 (mkVector3 0 0 0) (mkVector3 0 0 1))
    = Some (res, h')
    /\ Sphere.observe h' res = Some (Sphere.mkOutcome false None None None).
Proof.
  refine (proj1 raycast_origin_inside _ 1 4 (mkVector3 0 0 0) 1%float
            (mkVector3 0 0 0) (mkVector3 0 0 1) _ _).
  - split; [exists (mkSphere 0 1) | exists (mkRay 2 3)]; repeat split.
  - vm_compute. reflexivity.
Defined.

(** C6, as the specification states it, fails on both sides of the range
    of binary64.  For (2^600, 0, 0) the squared length overflows to
    Infinity, the first field of the result is NaN, and so is the length.
    For (2^-600, 0, 0), which is not the zero vector, the squared length
    underflows to 0, the vector is left as it is, and the length returned
    is 0. *)
Lemma normalize_out_of_range :
  Spec.clone_normalize_length 0 [OVector3 (mkVector3 0x1p600 0 0)]
  = Some (PrimFloat.nan,
          [OVector3 (mkVector3 0x1p600 0 0);
           OVector3 (mkVector3 PrimFloat.nan 0 0)])
  /\ Spec.clone_normalize_length 0 [OVector3 (mkVector3 0x1p-600 0 0)]
     = Some (0%float,
             [OVector3 (mkVector3 0x1p-600 0 0);
              OVector3 (mkVector3 0x1p-600 0 0)]).
Proof. split; vm_compute; reflexivity. Qed.

(** C6, amended: for every vector [v] of binary64 Numbers for which
    [v.lengthSqr()] returns a finite Number above zero (the squares of the
    fields do not overflow, and do not all underflow to zero),
    [v.clone().normalize().length()] returns a Number within 2^-50 of 1.
    A vector of zeros (of either sign) is left as it is by
    [v.clone().normalize()], its length is 0 and no field is NaN. *)
Theorem normalize_length (h : heap) (l : loc) (v : Vector3) :
  h !! l = Some (OVector3 v) ->
  Vector3.lengthSqr l h = Some (Fields.lengthSqr v, h)
  /\ (Spec.finite_positive (Fields.lengthSqr v) = true ->
      exists len,
        Spec.clone_normalize_length l h
        = Some (len, h ++ [OVector3 (Fields.normalized v)])
        /\ Spec.within_1 len = true)
  /\ (PrimFloat.is_zero (x v) = true ->
      PrimFloat.is_zero (y v) = true ->
      PrimFloat.is_zero (z v) = true ->
      Spec.clone_normalize_length l h = Some (0%float, h ++ [OVector3 v])
      /\ PrimFloat.is_nan (x v) = false
      /\ PrimFloat.is_nan (y v) = false
      /\ PrimFloat.is_nan (z v) = false).
Proof.
  intros E. split; [apply Vector3_facts.lengthSqr_Some, E|]. split.
  - intros F. eexists.
    split; [apply (Normalize_facts.clone_normalize_length_Some _ _ _ E)|].
    apply Binary64_facts.normalized_length_near_1, F.
  - intros Zx Zy Zz.
    split; [apply Normalize_facts.zero_vector_unchanged; assumption|].
    destruct (Normalize_facts.is_zero_cases _ Zx) as [-> | ->],
             (Normalize_facts.is_zero_cases _ Zy) as [-> | ->],
             (Normalize_facts.is_zero_cases _ Zz) as [-> | ->];
      repeat split; reflexivity.
Qed.

(** The vector (1,-2,3), and the vector (-0,0,0). *)
Lemma normalize_length_witness :
  (exists len,
      Spec.clone_normalize_length 0 [OVector3 (mkVector3 1 (-2) 3)]
      = Some (len,
              [OVector3 (mkVector3 1 (-2) 3);
               OVector3 (Fields.normalized (mkVector3 1 (-2) 3))])
      /\ Spec.within_1 len = true)
  /\ Spec.clone_normalize_length 0 [OVector3 (mkVector3 (-0) 0 0)]
     = Some (0%float,
             [OVector3 (mkVector3 (-0) 0 0); OVector3 (mkVector3 (-0) 0 0)]).
Proof.
  split.
  - apply (normalize_length [OVector3 (mkVector3 1 (-2) 3)] 0%nat
             (mkVector3 1 (-2) 3) eq_refl).
    reflexivity.
  - apply (normalize_length [OVector3 (mkVector3 (-0) 0 0)] 0%nat
             (mkVector3 (-0) 0 0) eq_refl); reflexivity.
Defined.

(** C7, as the specification states it, fails: the ray from (0,2,-5)
    towards (0,0,1) passes the unit sphere at distance 2 from its centre;
    the discriminant is -12 and the result is no hit. *)
Lemma offset_2_misses :
  Quantities.discriminant (mkVector3 0 0 0) 1 (mkVector3 0 2 (-5))
                          (mkVector3 0 0 1) = (-12)%float
  /\ Sphere.raycast_scene (mkVector3 0 0 0) 1 (mkVector3 0 2 (-5))
                          (mkVector3 0 0 1)
     = Some (Sphere.mkOutcome false None None None).
Proof. split; vm_compute; reflexivity. Qed.

(** C7, amended: for the unit sphere at the origin, the ray from (0,2,-5)
    towards (0,0,1) has discriminant -12 and misses; the grazing ray is the
    one from (0,1,-5): its discriminant is 0, both roots are 5, and
    [raycast] returns a hit at (0,1,0) at distance 5 whose normal (0,1,0)
    is the vector from the centre to the point. *)
Theorem raycast_tangent :
  (Quantities.discriminant (mkVector3 0 0 0) 1 (mkVector3 0 2 (-5))
                           (mkVector3 0 0 1) = (-12)%float
   /\ Sphere.raycast_scene (mkVector3 0 0 0) 1 (mkVector3 0 2 (-5))
                           (mkVector3 0 0 1)
      = Some (Sphere.mkOutcome false None None None))
  /\ Quantities.discriminant (mkVector3 0 0 0) 1 (mkVector3 0 1 (-5))
                             (mkVector3 0 0 1) = 0%float
  /\ Quantities.t1 (mkVector3 0 0 0) 1 (mkVector3 0 1 (-5))
                   (mkVector3 0 0 1) = 5%float
  /\ Quantities.t2 (mkVector3 0 0 0) 1 (mkVector3 0 1 (-5))
                   (mkVector3 0 0 1) = 5%float
  /\ Sphere.raycast_scene (mkVector3 0 0 0) 1 (mkVector3 0 1 (-5))
                          (mkVector3 0 0 1)
     = Some (Sphere.mkOutcome true (Some (mkVector3 0 1 0))
                              (Some (mkVector3 0 1 0)) (Some 5%float))
  /\ Fields.difference (mkVector3 0 1 0) (mkVector3 0 0 0) = mkVector3 0 1 0.
Proof. repeat split; vm_compute; reflexivity. Qed.

(** C8: a call of [raycast] leaves every object of the store as it was, in
    particular the origin and the direction of the ray and the centre and
    the radius of the sphere, whatever they share; the record it returns and
    the vectors the record refers to are new. *)
Theorem raycast_frame (h : heap) (this ray : loc)
    (C : Vector3) (r : float) (O D : Vector3) :
  well_formed h this ray C r O D ->
  exists res h',
    Sphere.raycast this ray h = Some (res, h')
    /\ (forall l o, h !! l = Some o -> h' !! l = Some o)
    /\ well_formed h' this ray C r O D
    /\ h !! res = None
    /\ (forall q l, h' !! res = Some (OResult q) ->
                    point q = Some l \/ normal q = Some l -> h !! l = None).
Proof.
  intros W.
  pose proof (Sphere_facts.raycast_run _ _ _ _ _ _ _ W) as R.
  eexists _, _. split; [exact R|].
  split; [intros l o; apply lookup_app_l_Some|].
  split.
  { destruct W as [(s & Hs & Hr & HC) (q & Hq & HO & HD)]. split.
    - exists s. auto using lookup_app_l_Some.
    - exists q. auto using lookup_app_l_Some. }
  split; [apply lookup_ge_None; lia|].
  intros q l Hq Hl. apply lookup_ge_None.
  unfold Quantities.allocated in Hq.
  destruct (Quantities.selected C r O D) as [t|];
    [destruct (Quantities.rejected C r O t)|];
    erewrite Sphere_facts.lookup_new0 in Hq by reflexivity;
    injection Hq as <-; cbn in Hl; destruct Hl as [Hl|Hl];
    try discriminate; injection Hl as <-; lia.
Qed.

(** A store in which the origin and the direction of the ray are one and
    the same object, (0,0,-5), and the sphere has the centre (0,0,-10) and
    the radius 1: the call hits, and the shared vector is as it was. *)
Lemma raycast_frame_witness :
  let h := [OVector3 (mkVector3 0 0 (-10)); OSphere (mkSphere 0 1);
            OVector3 (mkVector3 0 0 (-5)); ORay (mkRay 2 2)] in
  well_formed h 1 3 (mkVector3 0 0 (-10)) 1 (mkVector3 0 0 (-5))
              (mkVector3 0 0 (-5))
  /\ exists res h' q,
       Sphere.raycast 1 3 h = Some (res, h')
       /\ h' !! 2%nat = Some (OVector3 (mkVector3 0 0 (-5)))
       /\ h' !! res = Some (OResult q) /\ hit q = true.
Proof.
  intros h.
  assert (W : well_formed h 1 3 (mkVector3 0 0 (-10)) 1
                (mkVector3 0 0 (-5)) (mkVector3 0 0 (-5))).
  { split; [exists (mkSphere 0 1) | exists (mkRay 2 2)]; repeat split. }
  split; [exact W|].
  destruct (raycast_frame _ _ _ _ _ _ _ W) as (res & h' & R & F & _).
  exists res, h'. pose proof (F 2%nat _ eq_refl) as F2.
  pose proof R as R'. vm_compute in R'. injection R' as <- <-.
  eexists. split; [exact R|]. split; [exact F2|]. split; reflexivity.
Defined.

(** C9: the test on the normal never rejects.  [normal.length <= 0]
    compares the method itself with 0 and is false, so [raycast] returns no
    hit only when it chose no parameter or when the origin is inside the
    sphere; a normal of length 0 is returned in a hit (a sphere of radius
    0, met at its centre). *)
Theorem normal_test_never_rejects :
  Sphere.normal_length_le_0 = false
  /\ (forall (h : heap) (this ray : loc) (C : Vector3) (r : float)
             (O D : Vector3),
         well_formed h this ray C r O D ->
         exists res h' out,
           Sphere.raycast this ray h = Some (res, h')
           /\ Sphere.observe h' res = Some out
           /\ (Sphere.o_hit out = false <->
               Quantities.selected C r O D = None
               \/ Quantities.origin_inside C r O = true))
  /\ Sphere.raycast_scene (mkVector3 0 0 0) 0 (mkVector3 0 0 (-5))
                          (mkVector3 0 0 1)
     = Some (Sphere.mkOutcome true (Some (mkVector3 0 0 0))
                              (Some (mkVector3 0 0 0)) (Some 5%float))
  /\ Fields.length (mkVector3 0 0 0) = 0%float.
Proof.
  split; [reflexivity|]. split; [|split; vm_compute; reflexivity].
  intros h this ray C r O D W.
  destruct (Raycast_facts.raycast_outcome _ _ _ _ _ _ _ W)
    as (res & h' & R & Ob).
  exists res, h', (Quantities.outcome C r O D).
  split; [exact R|]. split; [exact Ob|].
  unfold Quantities.outcome.
  destruct (Quantities.selected C r O D) as [t|] eqn:St.
  - rewrite (Raycast_facts.rejected_inside _ _ _ _ _ St).
    destruct (Quantities.origin_inside C r O); cbn.
    + split; [intros _; right; reflexivity | reflexivity].
    + split; [discriminate | intros [E|E]; discriminate].
  - cbn. split; [intros _; left; reflexivity | reflexivity].
Qed.

(** The unit sphere at the origin and the ray from (0,0,-5) towards
    (0,0,1): a parameter is chosen and the origin is outside, so the call
    hits. *)
Lemma normal_test_never_rejects_witness :
  exists res h' out,
    Sphere.raycast 1 4
      (Sphere.scene (mkVector3 0 0 0) 1 (mkVector3 0 0 (-5)) (mkVector3 0 0 1))
    = Some (res, h')
    /\ Sphere.observe h' res = Some out
    /\ Sphere.o_hit out = true.
Proof.
  destruct (proj1 (proj2 normal_test_never_rejects) 
              (Sphere.scene (mkVector3 0 0 0) 1 (mkVector3 0 0 (-5))
                            (mkVector3 0 0 1))
              1 4 (mkVector3 0 0 0) 1%float (mkVector3 0 0 (-5))
              (mkVector3 0 0 1))
    as (res & h' & out & R & Ob & Hh).
  { split; [exists (mkSphere 0 1) | exists (mkRay 2 3)]; repeat split. }
  exists res, h', out. repeat split; try assumption.
  destruct (Sphere.o_hit out); [reflexivity|].
  destruct (proj1 Hh eq_refl) as [E|E]; vm_compute in E; discriminate.
Defined.

(** C10: every record that [raycast] returns is well formed.  When [hit]
    is false, [point], [normal] and [distance] are null.  When [hit] is
    true, [point] and [normal] refer to [Vector3] objects and [distance] is
    a number above zero, the parameter that the call chose. *)
Theorem raycast_result_well_formed (h : heap) (this ray : loc)
    (C : Vector3) (r : float) (O D : Vector3) :
  well_formed h this ray C r O D ->
  exists res h' q,
    Sphere.raycast this ray h = Some (res, h')
    /\ h' !! res = Some (OResult q)
    /\ (hit q = false ->
        point q = None /\ normal q = None /\ distance q = None)
    /\ (hit q = true ->
        exists p n t P N,
          point q = Some p /\ normal q = Some n /\ distance q = Some t
          /\ h' !! p = Some (OVector3 P) /\ h' !! n = Some (OVector3 N)
          /\ PrimFloat.ltb 0 t = true
          /\ Quantities.selected C r O D = Some t).
Proof.
  intros W.
  pose proof (Sphere_facts.raycast_run _ _ _ _ _ _ _ W) as R.
  unfold Quantities.allocated in R.
  destruct (Quantities.selected C r O D) as [t|] eqn:St.
  - destruct (Quantities.rejected C r O t) eqn:Rj.
    + eexists _, _, Sphere.no_hit. split; [exact R|]. split.
      { erewrite Sphere_facts.lookup_new0 by reflexivity. reflexivity. }
      split; [intros _; repeat split | discriminate].
    + eexists _, _, _. split; [exact R|]. split.
      { erewrite Sphere_facts.lookup_new0 by reflexivity. reflexivity. }
      split; [discriminate | intros _].
      exists (length h + 3), (length h + 5), t.
      eexists _, _. repeat split.
      * erewrite (Sphere_facts.lookup_new h _ 3) by reflexivity. reflexivity.
      * erewrite (Sphere_facts.lookup_new h _ 5) by reflexivity. reflexivity.
      * unfold Quantities.selected in St.
        destruct (PrimFloat.ltb (Quantities.discriminant C r O D) 0);
          [discriminate|].
        apply (Raycast_facts.select_t_positive _ _ _ St).
  - eexists _, _, Sphere.no_hit. split; [exact R|]. split.
    { erewrite Sphere_facts.lookup_new0 by reflexivity. reflexivity. }
    split; [intros _; repeat split | discriminate].
Qed.

(** The unit sphere at (5,0,0) and the ray from the origin towards
    (1,0,0): a hit. *)
Lemma raycast_result_well_formed_witness :
  well_formed
    (Sphere.scene (mkVector3 5 0 0) 1 (mkVector3 0 0 0) (mkVector3 1 0 0))
    1 4 (mkVector3 5 0 0) 1 (mkVector3 0 0 0) (mkVector3 1 0 0)
  /\ exists res h' q,
       Sphere.raycast 1 4
         (Sphere.scene (mkVector3 5 0 0) 1 (mkVector3 0 0 0) (mkVector3 1 0 0))
       = Some (res, h')
       /\ h' !! res = Some (OResult q) /\ hit q = true.
Proof.
  assert (W : well_formed
    (Sphere.scene (mkVector3 5 0 0) 1 (mkVector3 0 0 0) (mkVector3 1 0 0))
    1 4 (mkVector3 5 0 0) 1 (mkVector3 0 0 0) (mkVector3 1 0 0)).
  { split; [exists (mkSphere 0 1) | exists (mkRay 2 3)]; repeat split. }
  split; [exact W|].
  destruct (raycast_result_well_formed _ _ _ _ _ _ _ W)
    as (res & h' & q & R & L & _).
  exists res, h', q. repeat split; try assumption.
  vm_compute in R. injection R as <- <-.
  vm_compute in L. injection L as <-. reflexivity.
Defined.

(** * Further properties of Vector3 and Sphere *)

(** ** The remaining methods on the store *)

Module More_facts.

Lemma set_Some (h : heap) (l : loc) (v : Vector3) (a b c : float) :
  h !! l = Some (OVector3 v) ->
  Vector3.set l a b c h = Some (l, <[l := OVector3 (mkVector3 a b c)]> h).
Proof.
  intros E. unfold Vector3.set.
  run_set E.
  pose proof (lookup_written _ _ _ (OVector3 (mkVector3 a (y v) (z v))) E)
    as E1.
  run_set E1. cbn [x y z].
  pose proof (lookup_written _ _ _ (OVector3 (mkVector3 a b (z v))) E1)
    as E2.
  run_set E2. cbn [x y z].
  rewrite !list_insert_insert_eq. reflexivity.
Qed.

(** [copy] holds also when the argument is the receiver: each field is
    then assigned its own value. *)
Lemma copy_Some (h : heap) (l m : loc) (v w : Vector3) :
  h !! l = Some (OVector3 v) -> h !! m = Some (OVector3 w) ->
  Vector3.copy l m h = Some (l, <[l := OVector3 w]> h).
Proof.
  intros E F. unfold Vector3.copy.
  pose proof (lookup_written _ _ _ (OVector3 (mkVector3 (x w) (y v) (z v))) E)
    as E1.
  pose proof (lookup_written _ _ _ (OVector3 (mkVector3 (x w) (y w) (z v))) E1)
    as E2.
  destruct (decide (l = m)) as [->|N].
  - assert (w = v) by congruence. subst w.
    run_get E. run_set E.
    run_get E1. run_set E1. cbn [x y z].
    run_get E2. run_set E2. cbn [x y z].
    rewrite !list_insert_insert_eq. destruct v; reflexivity.
  - run_get F. run_set E.
    pose proof (lookup_other _ _ _ _
      (OVector3 (mkVector3 (x w) (y v) (z v))) N F) as F1.
    run_get F1. run_set E1. cbn [x y z].
    pose proof (lookup_other _ _ _ _
      (OVector3 (mkVector3 (x w) (y w) (z v))) N F1) as F2.
    run_get F2. run_set E2. cbn [x y z].
    rewrite !list_insert_insert_eq. destruct w; reflexivity.
Qed.

Lemma project_Some (h : heap) (l m : loc) (v w : Vector3) :
  h !! l = Some (OVector3 v) -> h !! m = Some (OVector3 w) ->
  Vector3.project l m h
  = Some (length h, h ++ [OVector3 (Fields.projected v w)]).
Proof.
  intros E F. unfold Vector3.project, Fields.projected.
  rewrite (bind_Some _ _ _ _ _ (Vector3_facts.lengthSqr_Some _ _ _ F)).
  destruct (JS.gtb (Fields.lengthSqr w) 0); [|reflexivity].
  rewrite (bind_Some _ _ _ _ _ (Vector3_facts.dot_Some _ _ _ _ _ E F)).
  rewrite (bind_Some _ _ _ _ _ (Vector3_facts.clone_Some _ _ _ F)).
  assert (R : (h ++ [OVector3 w]) !! length h = Some (OVector3 w))
    by (apply list_lookup_middle; reflexivity).
  rewrite (bind_Some _ _ _ _ _
             (Vector3_facts.multiplyScalar_Some _ _ _ _ R)).
  rewrite Vector3_facts.insert_last. reflexivity.
Qed.

Lemma angle_Some (acos : float -> float) (h : heap) (l m : loc)
    (v w : Vector3) :
  h !! l = Some (OVector3 v) -> h !! m = Some (OVector3 w) ->
  Vector3.angle acos l m h
  = Some (if JS.gtb (Fields.length v * Fields.length w) 0
          then (acos (Fields.dot v w / (Fields.length v * Fields.length w))
                * (180 / Vector3.Math_PI))%float
          else 0%float, h).
Proof.
  intros E F. unfold Vector3.angle.
  rewrite (bind_Some _ _ _ _ _ (Vector3_facts.dot_Some _ _ _ _ _ E F)).
  rewrite (bind_Some _ _ _ _ _ (Vector3_facts.length_Some _ _ _ E)).
  rewrite (bind_Some _ _ _ _ _ (Vector3_facts.length_Some _ _ _ F)).
  destruct (JS.gtb _ 0); reflexivity.
Qed.

(** A write to the receiver is an in-place change. *)
Lemma written_only_receiver (h : heap) (l : loc) (v v' : Vector3) :
  h !! l = Some (OVector3 v) ->
  Spec.only_receiver_changed h (<[l := OVector3 v']> h) l.
Proof.
  intros E. split; [apply length_insert|]. split.
  - intros k N. apply list_lookup_insert_ne. congruence.
  - exists v'. apply (lookup_written _ _ _ _ E).
Qed.

End More_facts.

(** ** More on binary64 numbers *)

Module Number_more.

Lemma SFmul_comm (a b : spec_float) :
  SFmul prec emax a b = SFmul prec emax b a.
Proof.
  destruct a as [sa|sa| |sa ma ea], b as [sb|sb| |sb mb eb]; cbn;
    rewrite ?(xorb_comm sa sb); try reflexivity.
  rewrite (Pos.mul_comm ma mb), (Z.add_comm ea eb). reflexivity.
Qed.

(** The product of two Numbers does not depend on their order. *)
Lemma mul_comm (a b : float) : (a * b = b * a)%float.
Proof.
  apply Prim2SF_inj. rewrite !FloatAxioms.mul_spec. apply SFmul_comm.
Qed.

Lemma zn_zero : Spec.zero_or_nan 0%float.
Proof. right. exists false. reflexivity. Qed.

Lemma zn_is_zero (a : float) :
  PrimFloat.is_zero a = true -> Spec.zero_or_nan a.
Proof.
  intros H. destruct (Normalize_facts.is_zero_cases a H) as [-> | ->];
    right; [exists false | exists true]; reflexivity.
Qed.

Lemma zn_mul_l (a b : float) :
  Spec.zero_or_nan a -> Spec.zero_or_nan (a * b)%float.
Proof.
  unfold Spec.zero_or_nan. rewrite FloatAxioms.mul_spec. unfold SF64mul.
  intros [-> | [s ->]]; destruct (Prim2SF b) as [sb|sb| |sb mb eb]; cbn; eauto.
Qed.

Lemma zn_mul_r (a b : float) :
  Spec.zero_or_nan b -> Spec.zero_or_nan (a * b)%float.
Proof. rewrite mul_comm. apply zn_mul_l. Qed.

Lemma zn_add (a b : float) :
  Spec.zero_or_nan a -> Spec.zero_or_nan b -> Spec.zero_or_nan (a + b)%float.
Proof.
  unfold Spec.zero_or_nan. rewrite FloatAxioms.add_spec. unfold SF64add.
  intros [-> | [[] ->]] [-> | [[] ->]]; cbn; eauto.
Qed.

Lemma zn_sub (a b : float) :
  Spec.zero_or_nan a -> Spec.zero_or_nan b -> Spec.zero_or_nan (a - b)%float.
Proof.
  unfold Spec.zero_or_nan. rewrite FloatAxioms.sub_spec. unfold SF64sub.
  intros [-> | [[] ->]] [-> | [[] ->]]; cbn; eauto.
Qed.

Lemma zn_opp (a : float) :
  Spec.zero_or_nan a -> Spec.zero_or_nan (- a)%float.
Proof.
  unfold Spec.zero_or_nan. rewrite FloatAxioms.opp_spec.
  intros [-> | [s ->]]; cbn; eauto.
Qed.

Lemma zn_sqrt (a : float) :
  Spec.zero_or_nan a -> Spec.zero_or_nan (JS.Math_sqrt a).
Proof.
  unfold Spec.zero_or_nan, JS.Math_sqrt. rewrite FloatAxioms.sqrt_spec.
  unfold SF64sqrt. intros [-> | [s ->]]; cbn; eauto.
Qed.

(** A zero or NaN divided by a zero or NaN is NaN. *)
Lemma zn_div (a b : float) :
  Spec.zero_or_nan a -> Spec.zero_or_nan b ->
  PrimFloat.is_nan (a / b)%float = true.
Proof.
  unfold Spec.zero_or_nan. rewrite Number_facts.is_nan_true.
  rewrite FloatAxioms.div_spec. unfold SF64div.
  intros [-> | [sa ->]] [-> | [sb ->]]; reflexivity.
Qed.

(** A zero or NaN is neither below nor above zero. *)
Lemma zn_not_below (a : float) :
  Spec.zero_or_nan a -> PrimFloat.ltb a 0 = false.
Proof.
  unfold Spec.zero_or_nan. rewrite FloatAxioms.ltb_spec.
  change (Prim2SF 0) with (S754_zero false).
  intros [-> | [s ->]]; reflexivity.
Qed.

Lemma zn_not_above (a : float) :
  Spec.zero_or_nan a -> JS.gtb a 0 = false.
Proof.
  unfold Spec.zero_or_nan, JS.gtb. rewrite FloatAxioms.ltb_spec.
  change (Prim2SF 0) with (S754_zero false).
  intros [-> | [s ->]]; reflexivity.
Qed.

Lemma nan_not_above (a : float) :
  PrimFloat.is_nan a = true -> JS.gtb a 0 = false.
Proof.
  intros H. apply zn_not_above. left.
  apply Number_facts.is_nan_true, H.
Qed.

(** NaN is propagated by the arithmetic of [lengthSqr] and [length]. *)
Lemma nan_square (a : float) :
  PrimFloat.is_nan a = true -> PrimFloat.is_nan (a * a)%float = true.
Proof.
  rewrite !Number_facts.is_nan_true, FloatAxioms.mul_spec.
  intros ->. reflexivity.
Qed.

Lemma nan_add_l (a b : float) :
  PrimFloat.is_nan a = true -> PrimFloat.is_nan (a + b)%float = true.
Proof.
  rewrite !Number_facts.is_nan_true, FloatAxioms.add_spec.
  intros ->. reflexivity.
Qed.

Lemma nan_add_r (a b : float) :
  PrimFloat.is_nan b = true -> PrimFloat.is_nan (a + b)%float = true.
Proof.
  rewrite !Number_facts.is_nan_true, FloatAxioms.add_spec.
  intros ->. unfold SF64add. destruct (Prim2SF a) as [[]|[]| |]; reflexivity.
Qed.

Lemma nan_sqrt (a : float) :
  PrimFloat.is_nan a = true -> PrimFloat.is_nan (JS.Math_sqrt a) = true.
Proof.
  unfold JS.Math_sqrt.
  rewrite !Number_facts.is_nan_true, FloatAxioms.sqrt_spec.
  intros ->. reflexivity.
Qed.

(** The length of a vector with a NaN field is NaN. *)
Lemma length_nan (v : Vector3) :
  PrimFloat.is_nan (x v) = true \/ PrimFloat.is_nan (y v) = true
  \/ PrimFloat.is_nan (z v) = true ->
  PrimFloat.is_nan (Fields.length v) = true.
Proof.
  intros H. unfold Fields.length, Fields.lengthSqr. apply nan_sqrt.
  destruct H as [H|[H|H]].
  - apply nan_add_l, nan_add_l, nan_add_r, nan_square, H.
  - apply nan_add_l, nan_add_r, nan_square, H.
  - apply nan_add_r, nan_square, H.
Qed.

(** The squared length and the length of a vector of zeros are zero or
    NaN (in fact zero). *)
Lemma lengthSqr_zeros (v : Vector3) :
  PrimFloat.is_zero (x v) = true -> PrimFloat.is_zero (y v) = true ->
  PrimFloat.is_zero (z v) = true ->
  Spec.zero_or_nan (Fields.lengthSqr v).
Proof.
  intros Zx Zy Zz. unfold Fields.lengthSqr.
  auto 10 using zn_add, zn_mul_l, zn_zero, zn_is_zero.
Qed.

Lemma length_zeros (v : Vector3) :
  PrimFloat.is_zero (x v) = true -> PrimFloat.is_zero (y v) = true ->
  PrimFloat.is_zero (z v) = true ->
  Spec.zero_or_nan (Fields.length v).
Proof.
  intros Zx Zy Zz. apply zn_sqrt, lengthSqr_zeros; assumption.
Qed.

(** A vector that [normalize] and [rescale] leave as it is. *)
Lemma length_not_above_unchanged (v : Vector3) (s : float) :
  JS.gtb (Fields.length v) 0 = false ->
  Fields.normalized v = v /\ Fields.rescaled v s = v.
Proof.
  intros G. unfold Fields.rescaled, Fields.normalized. rewrite G.
  split; reflexivity.
Qed.

End Number_more.

(** ** Vector3 *)

(** X1: the methods that work in place (negate, add, subtract,
    multiplyScalar, normalize, rescale, set, copy) return their receiver
    and change no other object of the store, whatever the argument is. *)
Theorem in_place_methods (h : heap) (l m : loc) (v w : Vector3)
    (s a b c : float) :
  h !! l = Some (OVector3 v) -> h !! m = Some (OVector3 w) ->
  (exists h', Vector3.negate l h = Some (l, h')
              /\ Spec.only_receiver_changed h h' l)
  /\ (exists h', Vector3.add l m h = Some (l, h')
                 /\ Spec.only_receiver_changed h h' l)
  /\ (exists h', Vector3.subtract l m h = Some (l, h')
                 /\ Spec.only_receiver_changed h h' l)
  /\ (exists h', Vector3.multiplyScalar l s h = Some (l, h')
                 /\ Spec.only_receiver_changed h h' l)
  /\ (exists h', Vector3.normalize l h = Some (l, h')
                 /\ Spec.only_receiver_changed h h' l)
  /\ (exists h', Vector3.rescale l s h = Some (l, h')
                 /\ Spec.only_receiver_changed h h' l)
  /\ (exists h', Vector3.set l a b c h = Some (l, h')
                 /\ Spec.only_receiver_changed h h' l)
  /\ (exists h', Vector3.copy l m h = Some (l, h')
                 /\ Spec.only_receiver_changed h h' l).
Proof.
  intros E F.
  repeat apply conj; eexists.
  - split; [apply (Vector3_facts.negate_Some _ _ _ E)|].
    eapply More_facts.written_only_receiver, E.
  - split; [apply (Vector3_facts.add_Some _ _ _ _ _ E F)|].
    eapply More_facts.written_only_receiver, E.
  - split; [apply (Vector3_facts.subtract_Some _ _ _ _ _ E F)|].
    eapply More_facts.written_only_receiver, E.
  - split; [apply (Vector3_facts.multiplyScalar_Some _ _ _ _ E)|].
    eapply More_facts.written_only_receiver, E.
  - split; [apply (Vector3_facts.normalize_Some _ _ _ E)|].
    eapply More_facts.written_only_receiver, E.
  - split; [apply (Vector3_facts.rescale_Some _ _ _ _ E)|].
    eapply More_facts.written_only_receiver, E.
  - split; [apply (More_facts.set_Some _ _ _ _ _ _ E)|].
    eapply More_facts.written_only_receiver, E.
  - split; [apply (More_facts.copy_Some _ _ _ _ _ E F)|].
    eapply More_facts.written_only_receiver, E.
Qed.

(** Two vectors in a store; the second is the argument. *)
Lemma in_place_methods_witness :
  exists h',
    Vector3.add 0 1 [OVector3 (mkVector3 1 2 3); OVector3 (mkVector3 4 5 6)]
    = Some (0%nat, h')
    /\ h' !! 1%nat = Some (OVector3 (mkVector3 4 5 6)).
Proof.
  destruct (in_place_methods
              [OVector3 (mkVector3 1 2 3); OVector3 (mkVector3 4 5 6)]
              0 1 (mkVector3 1 2 3) (mkVector3 4 5 6) 0 0 0 0
              eq_refl eq_refl) as (_ & (h' & R & _ & K & _) & _).
  exists h'. split; [exact R|]. rewrite (K 1%nat); [reflexivity | lia].
Defined.

(** X2: [clone] returns a new object with the fields of its receiver and
    leaves the store before the call as it was; what is later done to the
    clone in place does not reach the original. *)
Theorem clone_is_independent (h : heap) (l : loc) (v : Vector3) :
  h !! l = Some (OVector3 v) ->
  exists c h',
    Vector3.clone l h = Some (c, h')
    /\ Spec.allocates h h' c v
    /\ h !! c = None
    /\ h' !! l = Some (OVector3 v)
    /\ forall s, exists h'',
         Vector3.multiplyScalar c s h' = Some (c, h'')
         /\ h'' !! c = Some (OVector3 (Fields.scaled v s))
         /\ h'' !! l = Some (OVector3 v).
Proof.
  intros E. exists (length h), (h ++ [OVector3 v]).
  assert (R : (h ++ [OVector3 v]) !! length h = Some (OVector3 v))
    by (apply list_lookup_middle; reflexivity).
  assert (E' : (h ++ [OVector3 v]) !! l = Some (OVector3 v))
    by (apply lookup_app_l_Some, E).
  split; [apply (Vector3_facts.clone_Some _ _ _ E)|].
  split; [split; reflexivity|].
  split; [apply lookup_ge_None; lia|].
  split; [exact E'|].
  intros s. eexists.
  split; [apply (Vector3_facts.multiplyScalar_Some _ _ _ _ R)|].
  split; [apply (lookup_written _ _ _ _ R)|].
  apply lookup_other; [|exact E'].
  apply lookup_lt_Some in E. lia.
Qed.

(** The clone of (1,2,3), scaled by 2. *)
Lemma clone_is_independent_witness :
  exists c h' h'',
    Vector3.clone 0 [OVector3 (mkVector3 1 2 3)] = Some (c, h')
    /\ Vector3.multiplyScalar c 2 h' = Some (c, h'')
    /\ h'' !! c = Some (OVector3 (mkVector3 2 4 6))
    /\ h'' !! 0%nat = Some (OVector3 (mkVector3 1 2 3)).
Proof.
  destruct (clone_is_independent [OVector3 (mkVector3 1 2 3)] 0
              (mkVector3 1 2 3) eq_refl) as (c & h' & R & _ & _ & _ & K).
  destruct (K 2%float) as (h'' & R2 & Hc & Hl).
  exists c, h', h''. repeat split; assumption.
Defined.

(** X3: [add] and [subtract] take the fields of the argument as they are
    before the call, also when the argument is the receiver itself:
    [v.add(v)] doubles every field and [v.subtract(v)] subtracts every
    field from itself. *)
Theorem add_subtract_any_argument (h : heap) (l m : loc) (v w : Vector3) :
  h !! l = Some (OVector3 v) -> h !! m = Some (OVector3 w) ->
  (exists h',
      Vector3.add l m h = Some (l, h')
      /\ h' !! l = Some (OVector3 (Fields.sum v w))
      /\ (l <> m -> h' !! m = Some (OVector3 w)))
  /\ (exists h',
         Vector3.subtract l m h = Some (l, h')
         /\ h' !! l = Some (OVector3 (Fields.difference v w))
         /\ (l <> m -> h' !! m = Some (OVector3 w))).
Proof.
  intros E F. split; eexists.
  - split; [apply (Vector3_facts.add_Some _ _ _ _ _ E F)|].
    split; [apply (lookup_written _ _ _ _ E)|].
    intros N. apply lookup_other; assumption.
  - split; [apply (Vector3_facts.subtract_Some _ _ _ _ _ E F)|].
    split; [apply (lookup_written _ _ _ _ E)|].
    intros N. apply lookup_other; assumption.
Qed.

(** [v.add(v)] for (1,2,3). *)
Lemma add_subtract_any_argument_witness :
  exists h',
    Vector3.add 0 0 [OVector3 (mkVector3 1 2 3)] = Some (0%nat, h')
    /\ h' !! 0%nat = Some (OVector3 (mkVector3 2 4 6)).
Proof.
  destruct (add_subtract_any_argument [OVector3 (mkVector3 1 2 3)] 0 0
              (mkVector3 1 2 3) (mkVector3 1 2 3) eq_refl eq_refl)
    as ((h' & R & L & _) & _).
  exists h'. split; [exact R | exact L].
Defined.

(** X4: the dot product is symmetric, bit for bit, and reads only:
    [a.dot(b)] and [b.dot(a)] return the same Number and leave the store
    as it is. *)
Theorem dot_symmetric (h : heap) (l m : loc) (v w : Vector3) :
  h !! l = Some (OVector3 v) -> h !! m = Some (OVector3 w) ->
  exists d,
    Vector3.dot l m h = Some (d, h) /\ Vector3.dot m l h = Some (d, h).
Proof.
  intros E F. exists (Fields.dot v w).
  split; [apply (Vector3_facts.dot_Some _ _ _ _ _ E F)|].
  rewrite (Vector3_facts.dot_Some _ _ _ _ _ F E). unfold Fields.dot.
  rewrite (Number_more.mul_comm (x w)), (Number_more.mul_comm (y w)),
    (Number_more.mul_comm (z w)). reflexivity.
Qed.

(** (1,2,3) and (4,5,6): both products are 32. *)
Lemma dot_symmetric_witness :
  let h := [OVector3 (mkVector3 1 2 3); OVector3 (mkVector3 4 5 6)] in
  Vector3.dot 0 1 h = Some (32%float, h)
  /\ Vector3.dot 1 0 h = Some (32%float, h).
Proof.
  intros h.
  destruct (dot_symmetric h 0 1 (mkVector3 1 2 3) (mkVector3 4 5 6)
              eq_refl eq_refl) as (d & R1 & R2).
  assert (d = 32%float) as ->.
  { pose proof R1 as R. vm_compute in R. injection R as <-. reflexivity. }
  split; assumption.
Defined.

(** X5: [v.dot(v)] is [v.lengthSqr()] bit for bit, [v.length()] is the
    square root of it, and none of the three changes the store. *)
Theorem dot_lengthSqr_length (h : heap) (l : loc) (v : Vector3) :
  h !! l = Some (OVector3 v) ->
  exists q,
    Vector3.lengthSqr l h = Some (q, h)
    /\ Vector3.dot l l h = Some (q, h)
    /\ Vector3.length l h = Some (JS.Math_sqrt q, h).
Proof.
  intros E. exists (Fields.lengthSqr v).
  split; [apply (Vector3_facts.lengthSqr_Some _ _ _ E)|].
  split; [apply (Vector3_facts.dot_Some _ _ _ _ _ E E)|].
  apply (Vector3_facts.length_Some _ _ _ E).
Qed.

(** (3,4,0): 25, 25 and 5. *)
Lemma dot_lengthSqr_length_witness :
  let h := [OVector3 (mkVector3 3 4 0)] in
  Vector3.lengthSqr 0 h = Some (25%float, h)
  /\ Vector3.dot 0 0 h = Some (25%float, h)
  /\ Vector3.length 0 h = Some (5%float, h).
Proof.
  intros h.
  destruct (dot_lengthSqr_length h 0 (mkVector3 3 4 0) eq_refl)
    as (q & R1 & R2 & R3).
  assert (q = 25%float) as ->.
  { pose proof R1 as R. vm_compute in R. injection R as <-. reflexivity. }
  repeat split; assumption.
Defined.

(** X6: [length()] is never below zero: it returns NaN or a Number that is
    at least zero, and leaves the store as it is. *)
Theorem length_not_below_zero (h : heap) (l : loc) (v : Vector3) :
  h !! l = Some (OVector3 v) ->
  exists len,
    Vector3.length l h = Some (len, h)
    /\ PrimFloat.ltb len 0 = false
    /\ (PrimFloat.is_nan len = true \/ PrimFloat.leb 0 len = true).
Proof.
  intros E. exists (Fields.length v).
  split; [apply (Vector3_facts.length_Some _ _ _ E)|].
  assert (N : PrimFloat.ltb (Fields.length v) 0 = false)
    by apply Number_facts.sqrt_not_negative.
  split; [exact N|].
  destruct (PrimFloat.is_nan (Fields.length v)) eqn:Hn; [left; reflexivity|].
  right. apply Number_facts.not_ltb_leb; [exact Hn | reflexivity | exact N].
Qed.

(** The length of (-3,0,-4) is 5. *)
Lemma length_not_below_zero_witness :
  exists len,
    Vector3.length 0 [OVector3 (mkVector3 (-3) 0 (-4))]
    = Some (len, [OVector3 (mkVector3 (-3) 0 (-4))])
    /\ PrimFloat.leb 0 len = true.
Proof.
  destruct (length_not_below_zero [OVector3 (mkVector3 (-3) 0 (-4))] 0
              (mkVector3 (-3) 0 (-4)) eq_refl) as (len & R & _ & _).
  exists len. split; [exact R|].
  vm_compute in R. injection R as <-. reflexivity.
Defined.

(** X7: [normalize] and [rescale] leave the store as it is when the
    receiver has three zero fields (of either sign) or a NaN field: the
    length is then not above zero, nothing is divided, and [rescale] does
    not multiply, whatever the new length asked for. *)
Theorem degenerate_vectors_unchanged (h : heap) (l : loc) (v : Vector3)
    (s : float) :
  h !! l = Some (OVector3 v) ->
  (PrimFloat.is_zero (x v) = true /\ PrimFloat.is_zero (y v) = true
   /\ PrimFloat.is_zero (z v) = true)
  \/ PrimFloat.is_nan (x v) = true \/ PrimFloat.is_nan (y v) = true
  \/ PrimFloat.is_nan (z v) = true ->
  Vector3.normalize l h = Some (l, h)
  /\ Vector3.rescale l s h = Some (l, h).
Proof.
  intros E D.
  assert (G : JS.gtb (Fields.length v) 0 = false).
  { destruct D as [(Zx & Zy & Zz) | D].
    - apply Number_more.zn_not_above, Number_more.length_zeros; assumption.
    - apply Number_more.nan_not_above, Number_more.length_nan, D. }
  destruct (Number_more.length_not_above_unchanged v s G) as [Hn Hr].
  rewrite (Vector3_facts.normalize_Some _ _ _ E),
          (Vector3_facts.rescale_Some _ _ _ s E), Hn, Hr.
  rewrite (list_insert_id _ _ _ E). split; reflexivity.
Qed.

(** The vector (0,-0,0), rescaled to the length 7. *)
Lemma degenerate_vectors_unchanged_witness :
  Vector3.normalize 0 [OVector3 (mkVector3 0 (-0) 0)]
  = Some (0%nat, [OVector3 (mkVector3 0 (-0) 0)])
  /\ Vector3.rescale 0 7 [OVector3 (mkVector3 0 (-0) 0)]
     = Some (0%nat, [OVector3 (mkVector3 0 (-0) 0)]).
Proof.
  apply (degenerate_vectors_unchanged [OVector3 (mkVector3 0 (-0) 0)] 0
           (mkVector3 0 (-0) 0) 7 eq_refl).
  left. repeat split; reflexivity.
Defined.

(** X8: [project] alters neither argument and returns a new vector.  The
    result is the zero vector when the squared length of [otherVector] is
    not above zero, in particular when [otherVector] is the zero vector;
    otherwise its fields are those of [otherVector], all three times one
    Number. *)
Theorem project_result (h : heap) (l m : loc) (v w : Vector3) :
  h !! l = Some (OVector3 v) -> h !! m = Some (OVector3 w) ->
  exists res h' p,
    Vector3.project l m h = Some (res, h')
    /\ Spec.allocates h h' res p
    /\ h' !! l = Some (OVector3 v) /\ h' !! m = Some (OVector3 w)
    /\ (JS.gtb (Fields.lengthSqr w) 0 = false -> p = mkVector3 0 0 0)
    /\ (PrimFloat.is_zero (x w) = true -> PrimFloat.is_zero (y w) = true ->
        PrimFloat.is_zero (z w) = true -> p = mkVector3 0 0 0)
    /\ (JS.gtb (Fields.lengthSqr w) 0 = true ->
        exists k, p = Fields.scaled w k).
Proof.
  intros E F.
  exists (length h), (h ++ [OVector3 (Fields.projected v w)]),
    (Fields.projected v w).
  split; [apply (More_facts.project_Some _ _ _ _ _ E F)|].
  split; [split; reflexivity|].
  split; [apply lookup_app_l_Some, E|].
  split; [apply lookup_app_l_Some, F|].
  unfold Fields.projected. repeat split.
  - intros ->. reflexivity.
  - intros Zx Zy Zz.
    rewrite (Number_more.zn_not_above _
               (Number_more.lengthSqr_zeros w Zx Zy Zz)).
    reflexivity.
  - intros ->. eexists. reflexivity.
Qed.

(** (3,4,0) projected on (2,0,0): a new vector along (2,0,0). *)
Lemma project_result_witness :
  let h := [OVector3 (mkVector3 3 4 0); OVector3 (mkVector3 2 0 0)] in
  exists res h' p k,
    Vector3.project 0 1 h = Some (res, h')
    /\ Spec.allocates h h' res p
    /\ p = Fields.scaled (mkVector3 2 0 0) k.
Proof.
  intros h.
  destruct (project_result h 0 1 (mkVector3 3 4 0) (mkVector3 2 0 0)
              eq_refl eq_refl) as (res & h' & p & R & A & _ & _ & _ & _ & K).
  destruct (K eq_refl) as [k Hk].
  exists res, h', p, k. repeat split; try assumption; apply A.
Defined.

(** X9: [angle] reads only, and returns 0, without a call of [Math.acos],
    when the product of the two lengths is not above zero; this is so
    whenever one of the vectors is the zero vector, whatever the other
    is. *)
Theorem angle_of_zero_vector (Math_acos : float -> float) (h : heap)
    (l m : loc) (v w : Vector3) :
  h !! l = Some (OVector3 v) -> h !! m = Some (OVector3 w) ->
  exists r,
    Vector3.angle Math_acos l m h = Some (r, h)
    /\ (JS.gtb (Fields.length v * Fields.length w) 0 = false ->
        r = 0%float)
    /\ ((PrimFloat.is_zero (x v) = true /\ PrimFloat.is_zero (y v) = true
         /\ PrimFloat.is_zero (z v) = true)
        \/ (PrimFloat.is_zero (x w) = true /\ PrimFloat.is_zero (y w) = true
            /\ PrimFloat.is_zero (z w) = true) ->
        r = 0%float).
Proof.
  intros E F. eexists.
  split; [apply (More_facts.angle_Some _ _ _ _ _ _ E F)|].
  split.
  - intros ->. reflexivity.
  - intros Z.
    assert (G : JS.gtb (Fields.length v * Fields.length w) 0 = false).
    { apply Number_more.zn_not_above.
      destruct Z as [(Zx & Zy & Zz) | (Zx & Zy & Zz)].
      - apply Number_more.zn_mul_l, Number_more.length_zeros; assumption.
      - apply Number_more.zn_mul_r, Number_more.length_zeros; assumption. }
    rewrite G. reflexivity.
Qed.

(** The angle between the zero vector and (1,2,3), for an arc cosine that
    is constant. *)
Lemma angle_of_zero_vector_witness :
  let h := [OVector3 (mkVector3 0 0 0); OVector3 (mkVector3 1 2 3)] in
  Vector3.angle (fun _ => 1%float) 0 1 h = Some (0%float, h).
Proof.
  intros h.
  destruct (angle_of_zero_vector (fun _ => 1%float) h 0 1 (mkVector3 0 0 0)
              (mkVector3 1 2 3) eq_refl eq_refl) as (r & R & _ & Z).
  rewrite R, Z; [reflexivity|].
  left. repeat split; reflexivity.
Defined.

(** X10: after [this.copy(other)] the receiver has the fields that
    [other] had, and [other] still has them, also when [other] is the
    receiver; after [this.set(a, b, c)] the receiver has the fields
    [a], [b], [c]. *)
Theorem copy_and_set (h : heap) (l m : loc) (v w : Vector3) (a b c : float) :
  h !! l = Some (OVector3 v) -> h !! m = Some (OVector3 w) ->
  (exists h',
      Vector3.copy l m h = Some (l, h')
      /\ h' !! l = Some (OVector3 w) /\ h' !! m = Some (OVector3 w))
  /\ (exists h',
         Vector3.set l a b c h = Some (l, h')
         /\ h' !! l = Some (OVector3 (mkVector3 a b c))).
Proof.
  intros E F. split; eexists.
  - split; [apply (More_facts.copy_Some _ _ _ _ _ E F)|].
    split; [apply (lookup_written _ _ _ _ E)|].
    destruct (decide (l = m)) as [->|N].
    + apply (lookup_written _ _ _ _ E).
    + apply lookup_other; assumption.
  - split; [apply (More_facts.set_Some _ _ _ _ _ _ E)|].
    apply (lookup_written _ _ _ _ E).
Qed.

(** (1,2,3) takes the fields of (4,5,6). *)
Lemma copy_and_set_witness :
  exists h',
    Vector3.copy 0 1
      [OVector3 (mkVector3 1 2 3); OVector3 (mkVector3 4 5 6)]
    = Some (0%nat, h')
    /\ h' !! 0%nat = Some (OVector3 (mkVector3 4 5 6))
    /\ h' !! 1%nat = Some (OVector3 (mkVector3 4 5 6)).
Proof.
  destruct (copy_and_set
              [OVector3 (mkVector3 1 2 3); OVector3 (mkVector3 4 5 6)] 0 1
              (mkVector3 1 2 3) (mkVector3 4 5 6) 0 0 0 eq_refl eq_refl)
    as ((h' & R & L & M) & _).
  exists h'. repeat split; assumption.
Defined.

(** ** Sphere.raycast *)

Module Raycast_more.

(** With a direction of zeros every quantity of the quadratic is a zero or
    NaN, both candidate parameters are NaN, and none is chosen. *)
Lemma zero_direction_selects_none (C : Vector3) (r : float) (O D : Vector3) :
  PrimFloat.is_zero (x D) = true -> PrimFloat.is_zero (y D) = true ->
  PrimFloat.is_zero (z D) = true ->
  Quantities.selected C r O D = None.
Proof.
  intros Zx Zy Zz.
  pose proof (Number_more.zn_is_zero _ Zx) as Nx.
  pose proof (Number_more.zn_is_zero _ Zy) as Ny.
  pose proof (Number_more.zn_is_zero _ Zz) as Nz.
  assert (Na : Spec.zero_or_nan (Quantities.a D)).
  { unfold Quantities.a, Fields.dot.
    auto 10 using Number_more.zn_add, Number_more.zn_mul_l,
      Number_more.zn_zero. }
  assert (Nb : Spec.zero_or_nan (Quantities.b C O D)).
  { unfold Quantities.b, Fields.dot. apply Number_more.zn_mul_r.
    auto 10 using Number_more.zn_add, Number_more.zn_mul_r,
      Number_more.zn_zero. }
  assert (Nd : Spec.zero_or_nan (Quantities.discriminant C r O D)).
  { unfold Quantities.discriminant, Sphere.discriminant.
    apply Number_more.zn_sub.
    - apply Number_more.zn_mul_l, Nb.
    - apply Number_more.zn_mul_l, Number_more.zn_mul_r, Na. }
  assert (N2a : Spec.zero_or_nan (2 * Quantities.a D)%float)
    by apply Number_more.zn_mul_r, Na.
  assert (T1 : JS.gtb (Quantities.t1 C r O D) 0 = false).
  { apply Number_more.nan_not_above. unfold Quantities.t1, Sphere.root1.
    apply Number_more.zn_div; [|exact N2a].
    apply Number_more.zn_sub;
      [apply Number_more.zn_opp, Nb | apply Number_more.zn_sqrt, Nd]. }
  assert (T2 : JS.gtb (Quantities.t2 C r O D) 0 = false).
  { apply Number_more.nan_not_above. unfold Quantities.t2, Sphere.root2.
    apply Number_more.zn_div; [|exact N2a].
    apply Number_more.zn_add;
      [apply Number_more.zn_opp, Nb | apply Number_more.zn_sqrt, Nd]. }
  unfold Quantities.selected.
  rewrite (Number_more.zn_not_below _ Nd).
  unfold Sphere.select_t. rewrite T1, T2. reflexivity.
Qed.

(** A well-formed store stays so when objects are appended. *)
Lemma well_formed_app (h fr : heap) (this ray : loc)
    (C : Vector3) (r : float) (O D : Vector3) :
  well_formed h this ray C r O D -> well_formed (h ++ fr) this ray C r O D.
Proof.
  intros [(s & Hs & Hr & HC) (q & Hq & HO & HD)]. split.
  - exists s. auto using lookup_app_l_Some.
  - exists q. auto using lookup_app_l_Some.
Qed.

(** The record of a call reads the same after later allocations. *)
Lemma observe_allocated_app (h fr : heap) (C : Vector3) (r : float)
    (O D : Vector3) :
  Sphere.observe ((h ++ Quantities.allocated C r O D (length h)) ++ fr)
                 (length h)
  = Some (Quantities.outcome C r O D).
Proof.
  rewrite <- app_assoc.
  unfold Sphere.observe, Quantities.allocated, Quantities.outcome.
  destruct (Quantities.selected C r O D) as [t|].
  - erewrite Sphere_facts.lookup_new0 by reflexivity.
    destruct (Quantities.rejected C r O t); cbn [hit point normal distance].
    + reflexivity.
    + unfold Sphere.deref_Vector3.
      erewrite (Sphere_facts.lookup_new h _ 3) by reflexivity.
      erewrite (Sphere_facts.lookup_new h _ 5) by reflexivity.
      reflexivity.
  - erewrite Sphere_facts.lookup_new0 by reflexivity. reflexivity.
Qed.

End Raycast_more.

(** X11: a ray whose direction is the zero vector never hits: with [a = 0]
    both roots are NaN, no parameter is chosen, and [raycast] returns the
    no-hit record, whatever the sphere and the origin are. *)
Theorem raycast_zero_direction (h : heap) (this ray : loc)
    (C : Vector3) (r : float) (O D : Vector3) :
  well_formed h this ray C r O D ->
  PrimFloat.is_zero (x D) = true -> PrimFloat.is_zero (y D) = true ->
  PrimFloat.is_zero (z D) = true ->
  exists res h',
    Sphere.raycast this ray h = Some (res, h')
    /\ Sphere.observe h' res = Some (Sphere.mkOutcome false None None None)
    /\ PrimFloat.is_nan (Quantities.t1 C r O D) = true
    /\ PrimFloat.is_nan (Quantities.t2 C r O D) = true.
Proof.
  intros W Zx Zy Zz.
  destruct (Raycast_facts.raycast_outcome _ _ _ _ _ _ _ W)
    as (res & h' & R & Ob).
  exists res, h'. split; [exact R|]. split.
  - rewrite Ob. unfold Quantities.outcome.
    rewrite (Raycast_more.zero_direction_selects_none C r O D Zx Zy Zz).
    reflexivity.
  - pose proof (Number_more.zn_is_zero _ Zx) as Nx.
    pose proof (Number_more.zn_is_zero _ Zy) as Ny.
    pose proof (Number_more.zn_is_zero _ Zz) as Nz.
    assert (Na : Spec.zero_or_nan (2 * Quantities.a D)%float).
    { apply Number_more.zn_mul_r. unfold Quantities.a, Fields.dot.
      auto 10 using Number_more.zn_add, Number_more.zn_mul_l,
        Number_more.zn_zero. }
    assert (Nb : Spec.zero_or_nan (Quantities.b C O D)).
    { unfold Quantities.b, Fields.dot. apply Number_more.zn_mul_r.
      auto 10 using Number_more.zn_add, Number_more.zn_mul_r,
        Number_more.zn_zero. }
    assert (Nd : Spec.zero_or_nan (Quantities.discriminant C r O D)).
    { unfold Quantities.discriminant, Sphere.discriminant.
      apply Number_more.zn_sub.
      - apply Number_more.zn_mul_l, Nb.
      - apply Number_more.zn_mul_l, Number_more.zn_mul_r.
        unfold Quantities.a, Fields.dot.
        auto 10 using Number_more.zn_add, Number_more.zn_mul_l,
          Number_more.zn_zero. }
    split; apply Number_more.zn_div; try exact Na.
    + apply Number_more.zn_sub;
        [apply Number_more.zn_opp, Nb | apply Number_more.zn_sqrt, Nd].
    + apply Number_more.zn_add;
        [apply Number_more.zn_opp, Nb | apply Number_more.zn_sqrt, Nd].
Qed.

(** The unit sphere at the origin and a ray from (0,0,-5) with the
    direction (0,0,0). *)
Lemma raycast_zero_direction_witness :
  exists res h',
    Sphere.raycast 1 4
      (Sphere.scene (mkVector3 0 0 0) 1 (mkVector3 0 0 (-5)) (mkVector3 0 0 0))
    = Some (res, h')
    /\ Sphere.observe h' res = Some (Sphere.mkOutcome false None None None).
Proof.
  destruct (raycast_zero_direction
              (Sphere.scene (mkVector3 0 0 0) 1 (mkVector3 0 0 (-5))
                            (mkVector3 0 0 0))
              1 4 (mkVector3 0 0 0) 1 (mkVector3 0 0 (-5)) (mkVector3 0 0 0))
    as (res & h' & R & Ob & _); try reflexivity.
  { split; [exists (mkSphere 0 1) | exists (mkRay 2 3)]; repeat split. }
  exists res, h'. split; assumption.
Defined.

(** X12: [raycast] can be asked again: a second call on the store that the
    first call left returns a new record that reads exactly as the first,
    and the first record still reads the same. *)
Theorem raycast_twice (h : heap) (this ray : loc)
    (C : Vector3) (r : float) (O D : Vector3) :
  well_formed h this ray C r O D ->
  exists res1 h1 res2 h2 out,
    Sphere.raycast this ray h = Some (res1, h1)
    /\ Sphere.raycast this ray h1 = Some (res2, h2)
    /\ res1 <> res2
    /\ Sphere.observe h1 res1 = Some out
    /\ Sphere.observe h2 res2 = Some out
    /\ Sphere.observe h2 res1 = Some out.
Proof.
  intros W.
  pose proof (Sphere_facts.raycast_run _ _ _ _ _ _ _ W) as R1.
  pose proof (Raycast_more.well_formed_app _
                (Quantities.allocated C r O D (length h)) _ _ _ _ _ _ W)
    as W1.
  pose proof (Sphere_facts.raycast_run _ _ _ _ _ _ _ W1) as R2.
  eexists _, _, _, _, (Quantities.outcome C r O D).
  split; [exact R1|]. split; [exact R2|]. split.
  - rewrite length_app. unfold Quantities.allocated.
    destruct (Quantities.selected C r O D); cbn [length]; lia.
  - split; [apply Raycast_facts.observe_allocated|].
    split; [apply Raycast_facts.observe_allocated|].
    apply Raycast_more.observe_allocated_app.
Qed.

(** Two calls on the unit sphere at (5,0,0) with the ray from the origin
    towards (1,0,0): two hits at distance 4. *)
Lemma raycast_twice_witness :
  exists res1 h1 res2 h2 out,
    Sphere.raycast 1 4
      (Sphere.scene (mkVector3 5 0 0) 1 (mkVector3 0 0 0) (mkVector3 1 0 0))
    = Some (res1, h1)
    /\ Sphere.raycast 1 4 h1 = Some (res2, h2)
    /\ Sphere.observe h1 res1 = Some out
    /\ Sphere.observe h2 res2 = Some out.
Proof.
  destruct (raycast_twice
              (Sphere.scene (mkVector3 5 0 0) 1 (mkVector3 0 0 0)
                            (mkVector3 1 0 0))
              1 4 (mkVector3 5 0 0) 1 (mkVector3 0 0 0) (mkVector3 1 0 0))
    as (res1 & h1 & res2 & h2 & out & R1 & R2 & _ & O1 & O2 & _).
  { split; [exists (mkSphere 0 1) | exists (mkRay 2 3)]; repeat split. }
  exists res1, h1, res2, h2, out. repeat split; assumption.
Defined.

(** X13: in a hit the point is the origin plus the direction times the
    distance, field by field, and the normal is the vector from the centre
    to the point, normalized; the origin is then not inside the sphere. *)
Theorem raycast_hit_point (h : heap) (this ray : loc)
    (C : Vector3) (r : float) (O D : Vector3) :
  well_formed h this ray C r O D ->
  exists res h' out,
    Sphere.raycast this ray h = Some (res, h')
    /\ Sphere.observe h' res = Some out
    /\ (Sphere.o_hit out = true ->
        exists t P,
          Sphere.o_distance out = Some t
          /\ Sphere.o_point out = Some P
          /\ P = mkVector3 (x O + x D * t) (y O + y D * t) (z O + z D * t)
          /\ Sphere.o_normal out
             = Some (Fields.normalized (Fields.difference P C))
          /\ PrimFloat.ltb (Fields.length (Fields.difference C O)) r = false).
Proof.
  intros W.
  destruct (Raycast_facts.raycast_outcome _ _ _ _ _ _ _ W)
    as (res & h' & R & Ob).
  exists res, h', (Quantities.outcome C r O D).
  split; [exact R|]. split; [exact Ob|].
  unfold Quantities.outcome.
  destruct (Quantities.selected C r O D) as [t|] eqn:St; [|discriminate].
  rewrite (Raycast_facts.rejected_inside _ _ _ _ _ St).
  destruct (Quantities.origin_inside C r O) eqn:I; [discriminate|].
  intros _. exists t, (Quantities.intersectionPoint O D t).
  repeat split. exact I.
Qed.

(** The unit sphere at (5,0,0) and the ray from the origin towards
    (1,0,0): the point is (4,0,0). *)
Lemma raycast_hit_point_witness :
  exists res h' out,
    Sphere.raycast 1 4
      (Sphere.scene (mkVector3 5 0 0) 1 (mkVector3 0 0 0) (mkVector3 1 0 0))
    = Some (res, h')
    /\ Sphere.observe h' res = Some out
    /\ Sphere.o_hit out = true
    /\ Sphere.o_point out = Some (mkVector3 4 0 0).
Proof.
  destruct (raycast_hit_point
              (Sphere.scene (mkVector3 5 0 0) 1 (mkVector3 0 0 0)
                            (mkVector3 1 0 0))
              1 4 (mkVector3 5 0 0) 1 (mkVector3 0 0 0) (mkVector3 1 0 0))
    as (res & h' & out & R & Ob & _).
  { split; [exists (mkSphere 0 1) | exists (mkRay 2 3)]; repeat split. }
  exists res, h', out. split; [exact R|]. split; [exact Ob|].
  vm_compute in R. injection R as <- <-.
  vm_compute in Ob. injection Ob as <-. split; reflexivity.
Defined.

(** ** Sphere.constructor *)

Module Constructor_more.
Import Value.

Section Constructor_more.

Variable StringToNumber : string -> float.

(** The warnings: at most one, from the tests for NaN, [null] and the two
    infinities on the fields of the clone. *)
Lemma warnings_cases (center radius : value) (s : Constructor.instance) :
  Constructor.constructor StringToNumber center radius = Normal s ->
  Constructor.warnings s
  = let c := if instanceof_Vector3 center then clone center
             else zero_vector in
    if Constructor.any_field (Spec.converts_to_NaN StringToNumber) c
    then ["Invalid center components provided. Setting to default zero vector."%string]
    else if Constructor.any_field (fun p => strict_eq p Null) c
    then ["Center vector components cannot be null. Setting to default zero vector."%string]
    else if Constructor.any_field
              (fun p => strict_eq p (Number PrimFloat.infinity)) c
    then ["Center vector components cannot be infinite. Setting to default zero vector."%string]
    else if Constructor.any_field
              (fun p => strict_eq p (Number PrimFloat.neg_infinity)) c
    then ["Center vector components cannot be negative infinite. Setting to default zero vector."%string]
    else [].
Proof.
  rewrite Constructor_facts.constructor_cases. cbv zeta.
  destruct (Spec.reaches_unconvertible _ _ _ _); [discriminate|].
  intros [= <-]. reflexivity.
Qed.

End Constructor_more.
End Constructor_more.

(** X14: a call of the constructor that returns has written at most one
    warning, and never "Invalid center provided", "Center vector is missing
    components" or "Invalid radius provided": the first assignments have
    already replaced what those tests look for.  When the centre given is
    not a [Vector3], nothing is written at all, whatever the radius is. *)
Theorem constructor_warnings (StringToNumber : string -> float)
    (center radius : Value.value) (s : Constructor.instance) :
  Constructor.constructor StringToNumber center radius = Value.Normal s ->
  let ws := Constructor.warnings s in
  length ws <= 1
  /\ ~ In "Invalid center provided. Setting to default zero vector."%string ws
  /\ ~ In "Center vector is missing components. Setting to default zero vector."%string ws
  /\ ~ In "Invalid radius provided. Setting to default value of 1."%string ws
  /\ (Value.instanceof_Vector3 center = false -> ws = []).
Proof.
  intros H. cbv zeta. rewrite (Constructor_more.warnings_cases _ _ _ _ H).
  cbv zeta.
  split; [|split; [|split; [|split]]].
  - repeat (destruct (Constructor.any_field _ _); [cbn; lia|]). cbn; lia.
  - repeat (destruct (Constructor.any_field _ _);
            [intros [F|[]]; discriminate F|]). intros [].
  - repeat (destruct (Constructor.any_field _ _);
            [intros [F|[]]; discriminate F|]). intros [].
  - repeat (destruct (Constructor.any_field _ _);
            [intros [F|[]]; discriminate F|]). intros [].
  - intros ->. reflexivity.
Qed.

(** [new Sphere(null, "bad")] writes nothing, and a centre with a [null]
    field gives one warning. *)
Lemma constructor_warnings_witness :
  (exists s,
      Constructor.constructor (fun _ => PrimFloat.nan)
        (Value.Prim Value.Null) (Value.Prim (Value.String "bad"))
      = Value.Normal s
      /\ Constructor.warnings s = [])
  /\ (exists s,
         Constructor.constructor (fun _ => PrimFloat.nan)
           (Value.Vector3Instance Value.Null (Value.Number 0)
                                  (Value.Number 0))
           (Value.Prim (Value.String "bad")) = Value.Normal s
         /\ length (Constructor.warnings s) <= 1).
Proof.
  split; eexists; (split; [reflexivity|]).
  - apply (constructor_warnings (fun _ => PrimFloat.nan)
             (Value.Prim Value.Null) (Value.Prim (Value.String "bad")) _
             eq_refl).
    reflexivity.
  - apply (constructor_warnings (fun _ => PrimFloat.nan)
             (Value.Vector3Instance Value.Null (Value.Number 0)
                                    (Value.Number 0))
             (Value.Prim (Value.String "bad")) _ eq_refl).
Defined.

(** X15: the constructor is idempotent on what it produces: a sphere
    built from the centre and the radius of a constructed sphere is built
    without a throw, has the same centre and the same radius, and no
    warning is written. *)
Theorem constructor_idempotent (StringToNumber : string -> float)
    (center radius : Value.value) (s : Constructor.instance) :
  Constructor.constructor StringToNumber center radius = Value.Normal s ->
  exists s',
    Constructor.constructor StringToNumber
      (Constructor.center s) (Constructor.radius s) = Value.Normal s'
    /\ Constructor.center s' = Constructor.center s
    /\ Constructor.radius s' = Constructor.radius s
    /\ Constructor.warnings s' = [].
Proof.
  intros H.
  destruct (Constructor_returns.center_accepted _ _ _ _ H)
    as (a & b & c & E & Ra & Rb & Rc & Ua & Ub & Uc).
  destruct (Constructor_returns.refuses_false _ _ Ra) as (Na & Ua' & La & Ia & Ma).
  destruct (Constructor_returns.refuses_false _ _ Rb) as (Nb & Ub' & Lb & Ib & Mb).
  destruct (Constructor_returns.refuses_false _ _ Rc) as (Nc & Uc' & Lc & Ic & Mc).
  assert (Da : Value.default_0 a = a) by (destruct a; try reflexivity; discriminate).
  assert (Db : Value.default_0 b = b) by (destruct b; try reflexivity; discriminate).
  assert (Dc : Value.default_0 c = c) by (destruct c; try reflexivity; discriminate).
  assert (Er : exists n, Constructor.radius s = Value.Prim (Value.Number n)
                         /\ PrimFloat.is_nan n = false).
  { rewrite Constructor_facts.constructor_cases in H. cbv zeta in H.
    destruct (Spec.reaches_unconvertible _ _ _ _); [discriminate H|].
    injection H as <-. cbn [Constructor.radius].
    destruct radius as [[| |q|n|t|i|i]| |];
      try (exists 1%float; split; reflexivity).
    destruct (PrimFloat.is_nan n) eqn:N.
    - exists 1%float. split; reflexivity.
    - exists n. split; [reflexivity | exact N]. }
  destruct Er as (n & Er & Nn).
  rewrite Constructor_facts.constructor_cases. cbv zeta.
  rewrite E, Er. cbn [Value.instanceof_Vector3].
  unfold Value.clone, Value.new_Vector3, Constructor.any_field,
    Spec.reaches_unconvertible.
  cbn [Value.field_x Value.field_y Value.field_z].
  rewrite Da, Db, Dc, Ra, Rb, Rc, Na, Nb, Nc, La, Lb, Lc, Ia, Ib, Ic,
    Ma, Mb, Mc, Ua, Ub, Uc, Nn.
  cbn [orb andb negb]. eexists. split; [reflexivity|]. repeat split.
Qed.

(** The sphere built from a centre with a NaN field and the radius
    ["bad"], built again. *)
Lemma constructor_idempotent_witness :
  exists s s',
    Constructor.constructor (fun _ => PrimFloat.nan)
      (Value.Vector3Instance (Value.Number PrimFloat.nan)
                             (Value.Number 2) (Value.Number 3))
      (Value.Prim (Value.String "bad")) = Value.Normal s
    /\ Constructor.constructor (fun _ => PrimFloat.nan)
         (Constructor.center s) (Constructor.radius s) = Value.Normal s'
    /\ Constructor.center s'
       = Value.Vector3Instance (Value.Number 0) (Value.Number 0)
                               (Value.Number 0).
Proof.
  eexists.
  destruct (constructor_idempotent (fun _ => PrimFloat.nan)
              (Value.Vector3Instance (Value.Number PrimFloat.nan)
                                     (Value.Number 2) (Value.Number 3))
              (Value.Prim (Value.String "bad")) _ eq_refl)
    as (s' & E' & Ec & _).
  exists s'. split; [reflexivity|]. split; [exact E'|].
  rewrite Ec. reflexivity.
Defined.

(** ** fromTo, and NaN in raycast *)

Module Nan_facts.

Lemma nan_mul_l (a b : float) :
  PrimFloat.is_nan a = true -> PrimFloat.is_nan (a * b)%float = true.
Proof.
  rewrite !Number_facts.is_nan_true, FloatAxioms.mul_spec.
  intros ->. reflexivity.
Qed.

Lemma nan_mul_r (a b : float) :
  PrimFloat.is_nan b = true -> PrimFloat.is_nan (a * b)%float = true.
Proof. rewrite Number_more.mul_comm. apply nan_mul_l. Qed.

Lemma nan_sub_l (a b : float) :
  PrimFloat.is_nan a = true -> PrimFloat.is_nan (a - b)%float = true.
Proof.
  rewrite !Number_facts.is_nan_true, FloatAxioms.sub_spec.
  intros ->. reflexivity.
Qed.

Lemma nan_sub_r (a b : float) :
  PrimFloat.is_nan b = true -> PrimFloat.is_nan (a - b)%float = true.
Proof.
  rewrite !Number_facts.is_nan_true, FloatAxioms.sub_spec.
  intros ->. unfold SF64sub. destruct (Prim2SF a) as [[]|[]| |]; reflexivity.
Qed.

Lemma nan_opp (a : float) :
  PrimFloat.is_nan a = true -> PrimFloat.is_nan (- a)%float = true.
Proof.
  rewrite !Number_facts.is_nan_true, FloatAxioms.opp_spec.
  intros ->. reflexivity.
Qed.

Lemma nan_div_l (a b : float) :
  PrimFloat.is_nan a = true -> PrimFloat.is_nan (a / b)%float = true.
Proof.
  rewrite !Number_facts.is_nan_true, FloatAxioms.div_spec.
  intros ->. reflexivity.
Qed.

Lemma nan_div_r (a b : float) :
  PrimFloat.is_nan b = true -> PrimFloat.is_nan (a / b)%float = true.
Proof.
  rewrite !Number_facts.is_nan_true, FloatAxioms.div_spec.
  intros ->. unfold SF64div. destruct (Prim2SF a) as [[]|[]| |]; reflexivity.
Qed.

Lemma nan_not_below (a : float) :
  PrimFloat.is_nan a = true -> PrimFloat.ltb a 0 = false.
Proof.
  intros H. apply Number_more.zn_not_below. left.
  apply Number_facts.is_nan_true, H.
Qed.

Lemma dot_nan_l (v w : Vector3) :
  Spec.has_nan v -> PrimFloat.is_nan (Fields.dot v w) = true.
Proof.
  unfold Fields.dot. intros [H|[H|H]].
  - apply Number_more.nan_add_l, Number_more.nan_add_l,
      Number_more.nan_add_r, nan_mul_l, H.
  - apply Number_more.nan_add_l, Number_more.nan_add_r, nan_mul_l, H.
  - apply Number_more.nan_add_r, nan_mul_l, H.
Qed.

Lemma centerToOrigin_nan (C O : Vector3) :
  Spec.has_nan C \/ Spec.has_nan O -> Spec.has_nan (Quantities.centerToOrigin C O).
Proof.
  unfold Spec.has_nan, Quantities.centerToOrigin, Quantities.originToCenter,
    Fields.negated, Fields.difference. cbn [x y z].
  intros [[H|[H|H]] | [H|[H|H]]];
    auto using nan_mul_l, nan_sub_l, nan_sub_r.
Qed.

(** With NaN in the radius or in a field of the centre, the origin or the
    direction, no parameter is chosen. *)
Lemma nan_selects_none (C : Vector3) (r : float) (O D : Vector3) :
  PrimFloat.is_nan r = true \/ Spec.has_nan C \/ Spec.has_nan O \/ Spec.has_nan D ->
  Quantities.selected C r O D = None.
Proof.
  intros H.
  assert (T : PrimFloat.is_nan (Quantities.discriminant C r O D) = true
              \/ (PrimFloat.is_nan (Quantities.t1 C r O D) = true
                  /\ PrimFloat.is_nan (Quantities.t2 C r O D) = true)).
  { destruct H as [Hr | [HC | [HO | HD]]].
    - left. unfold Quantities.discriminant, Sphere.discriminant.
      apply nan_sub_r, nan_mul_r. unfold Quantities.c.
      apply nan_sub_r, nan_mul_l, Hr.
    - right.
      assert (Nb : PrimFloat.is_nan (Quantities.b C O D) = true).
      { unfold Quantities.b. apply nan_mul_r, dot_nan_l, centerToOrigin_nan.
        left. exact HC. }
      unfold Quantities.t1, Quantities.t2, Sphere.root1, Sphere.root2.
      split; apply nan_div_l;
        [apply nan_sub_l | apply Number_more.nan_add_l]; apply nan_opp, Nb.
    - right.
      assert (Nb : PrimFloat.is_nan (Quantities.b C O D) = true).
      { unfold Quantities.b. apply nan_mul_r, dot_nan_l, centerToOrigin_nan.
        right. exact HO. }
      unfold Quantities.t1, Quantities.t2, Sphere.root1, Sphere.root2.
      split; apply nan_div_l;
        [apply nan_sub_l | apply Number_more.nan_add_l]; apply nan_opp, Nb.
    - right.
      assert (Na : PrimFloat.is_nan (Quantities.a D) = true)
        by apply dot_nan_l, HD.
      unfold Quantities.t1, Quantities.t2, Sphere.root1, Sphere.root2.
      split; apply nan_div_r, nan_mul_r, Na. }
  unfold Quantities.selected.
  destruct (PrimFloat.ltb (Quantities.discriminant C r O D) 0) eqn:L;
    [reflexivity|].
  assert (T' : PrimFloat.is_nan (Quantities.t1 C r O D) = true
               /\ PrimFloat.is_nan (Quantities.t2 C r O D) = true).
  { destruct T as [Nd | T]; [|exact T].
    unfold Quantities.t1, Quantities.t2, Sphere.root1, Sphere.root2.
    split; apply nan_div_l;
      [apply nan_sub_r | apply Number_more.nan_add_r];
      apply Number_more.nan_sqrt, Nd. }
  destruct T' as [N1 N2]. unfold Sphere.select_t.
  rewrite (Number_more.nan_not_above _ N1), (Number_more.nan_not_above _ N2).
  reflexivity.
Qed.

(** The converse fails: without any NaN among the inputs a hit can carry
    NaN.  With the centre (5,5,5), the radius 1, the origin (0,0,0) and the
    direction (2^-600, 2^-600, 2^-600), [a] underflows to 0, the parameter
    is Infinity and the normal of the hit is (NaN, NaN, NaN). *)
Lemma underflow_gives_nan_normal :
  match Sphere.raycast_scene (mkVector3 5 5 5) 1 (mkVector3 0 0 0)
          (mkVector3 0x1p-600 0x1p-600 0x1p-600) with
  | Some (Sphere.mkOutcome true (Some _) (Some n) (Some d)) =>
      PrimFloat.is_nan (x n) && PrimFloat.is_nan (y n)
      && PrimFloat.is_nan (z n) && PrimFloat.eqb d PrimFloat.infinity = true
  | _ => False
  end.
Proof. vm_compute. reflexivity. Qed.

End Nan_facts.

(** X16: [fromTo] returns a new vector, [toPoint] minus [fromPoint] field
    by field, and alters neither argument, also when both are one and the
    same object. *)
Theorem fromTo_result (h : heap) (l m : loc) (v w : Vector3) :
  h !! l = Some (OVector3 v) -> h !! m = Some (OVector3 w) ->
  exists res h',
    Vector3.fromTo l m h = Some (res, h')
    /\ Spec.allocates h h' res
         (mkVector3 (x w - x v) (y w - y v) (z w - z v))
    /\ h !! res = None
    /\ h' !! l = Some (OVector3 v) /\ h' !! m = Some (OVector3 w).
Proof.
  intros E F. eexists _, _.
  split; [apply (Vector3_facts.fromTo_Some _ _ _ _ _ E F)|].
  split; [split; reflexivity|].
  split; [apply lookup_ge_None; lia|].
  split; apply lookup_app_l_Some; assumption.
Qed.

(** From (1,2,3) to (4,6,8). *)
Lemma fromTo_result_witness :
  let h := [OVector3 (mkVector3 1 2 3); OVector3 (mkVector3 4 6 8)] in
  exists res h',
    Vector3.fromTo 0 1 h = Some (res, h')
    /\ h' !! res = Some (OVector3 (mkVector3 3 4 5)).
Proof.
  intros h.
  destruct (fromTo_result h 0 1 (mkVector3 1 2 3) (mkVector3 4 6 8)
              eq_refl eq_refl) as (res & h' & R & [-> ->] & _).
  eexists _, _. split; [exact R|]. vm_compute. reflexivity.
Defined.

(** X17: a NaN among the inputs of [raycast] gives the no-hit record: when
    the radius, or a field of the centre, of the origin or of the direction
    is NaN, no parameter is chosen and [raycast] returns hit = false with
    point, normal and distance null.  (Nothing is said of inputs without
    NaN: see [Nan_facts.underflow_gives_nan_normal].) *)
Theorem raycast_nan_no_hit (h : heap) (this ray : loc)
    (C : Vector3) (r : float) (O D : Vector3) :
  well_formed h this ray C r O D ->
  PrimFloat.is_nan r = true \/ Spec.has_nan C \/ Spec.has_nan O
  \/ Spec.has_nan D ->
  exists res h',
    Sphere.raycast this ray h = Some (res, h')
    /\ Sphere.observe h' res = Some (Sphere.mkOutcome false None None None).
Proof.
  intros W N.
  destruct (Raycast_facts.raycast_outcome _ _ _ _ _ _ _ W)
    as (res & h' & R & Ob).
  exists res, h'. split; [exact R|].
  rewrite Ob. unfold Quantities.outcome.
  rewrite (Nan_facts.nan_selects_none C r O D N). reflexivity.
Qed.

(** The unit sphere at the origin and a ray from (0,NaN,-5). *)
Lemma raycast_nan_no_hit_witness :
  exists res h',
    Sphere.raycast 1 4
      (Sphere.scene (mkVector3 0 0 0) 1 (mkVector3 0 PrimFloat.nan (-5))
                    (mkVector3 0 0 1))
    = Some (res, h')
    /\ Sphere.observe h' res = Some (Sphere.mkOutcome false None None None).
Proof.
  apply (raycast_nan_no_hit _ 1 4 (mkVector3 0 0 0) 1%float
           (mkVector3 0 PrimFloat.nan (-5)) (mkVector3 0 0 1)).
  - split; [exists (mkSphere 0 1) | exists (mkRay 2 3)]; repeat split.
  - right. right. left. right. left. reflexivity.
Defined.

(** X18: [angle] is symmetric, bit for bit, whatever [Math.acos] returns:
    [angle(v1, v2)] and [angle(v2, v1)] are the same Number. *)
Theorem angle_symmetric (Math_acos : float -> float) (h : heap)
    (l m : loc) (v w : Vector3) :
  h !! l = Some (OVector3 v) -> h !! m = Some (OVector3 w) ->
  exists r,
    Vector3.angle Math_acos l m h = Some (r, h)
    /\ Vector3.angle Math_acos m l h = Some (r, h).
Proof.
  intros E F. eexists.
  split; [apply (More_facts.angle_Some _ _ _ _ _ _ E F)|].
  rewrite (More_facts.angle_Some _ _ _ _ _ _ F E).
  rewrite (Number_more.mul_comm (Fields.length w) (Fields.length v)).
  replace (Fields.dot w v) with (Fields.dot v w); [reflexivity|].
  unfold Fields.dot.
  rewrite (Number_more.mul_comm (x w)), (Number_more.mul_comm (y w)),
    (Number_more.mul_comm (z w)). reflexivity.
Qed.

(** (1,0,0) and (0,1,0), for an arc cosine that is constant. *)
Lemma angle_symmetric_witness :
  let h := [OVector3 (mkVector3 1 0 0); OVector3 (mkVector3 0 1 0)] in
  exists r,
    Vector3.angle (fun _ => 1%float) 0 1 h = Some (r, h)
    /\ Vector3.angle (fun _ => 1%float) 1 0 h = Some (r, h).
Proof.
  intros h.
  apply (angle_symmetric (fun _ => 1%float) h 0 1 (mkVector3 1 0 0)
           (mkVector3 0 1 0)); reflexivity.
Defined.
